(** * MCL-OKD: the OKDDip residual network and its CIFAR training script

    A shallow embedding of [models/okddip_resnet.py] (network construction
    and the forward pass with cross-branch attention) and of
    [main_cifar_baseline.py] (learning-rate schedule and the checkpointing
    epoch loop), with the properties proved about them.

    Tensors are nested lists; scalars are the real numbers of the Standard
    Library, so every arithmetic statement below is about exact real
    arithmetic, not about the rounding of 32-bit floats. *)

From Stdlib Require Import Reals Lra ZArith QArith Lia.
From stdpp Require Import base option list strings pretty gmap sorting.
From Equations Require Import Equations.

#[local] Open Scope R_scope.

(** ** Tensors *)

Module Tensor.

(** A vector, a matrix (list of rows) and a batch of matrices. *)
Abbreviation vec := (list R).
Abbreviation mat := (list (list R)).
Abbreviation tensor3 := (list (list (list R))).

Definition sum (v : vec) : R := foldr Rplus 0 v.

Definition dot (u v : vec) : R := sum (zip_with Rmult u v).

(** [x.unsqueeze(-1)]: B x C becomes B x C x 1. *)
Definition unsqueeze_last (x : mat) : tensor3 :=
  map (map (fun a => [a])) x.

(** [x[:, None, :]]: B x d becomes B x 1 x d. *)
Definition none_axis1 (x : mat) : tensor3 := map (fun row => [row]) x.

(** [torch.cat([a, b], -1)] on B x C x _ tensors. *)
Definition cat_last (a b : tensor3) : tensor3 :=
  zip_with (zip_with app) a b.

(** [torch.cat([a, b], 1)] on B x _ x d tensors. *)
Definition cat_axis1 (a b : tensor3) : tensor3 := zip_with app a b.

(** Column [j] of a matrix; an absent entry reads as 0. *)
Definition column (m : mat) (j : nat) : vec := map (fun row => nth j row 0) m.

(** The transpose of a matrix whose rows have the length of the first. *)
Definition transpose (m : mat) : mat :=
  match m with
  | [] => []
  | row :: _ => map (column m) (seq 0 (length row))
  end.

(** [t.permute(0, 2, 1)]. *)
Definition permute_021 (t : tensor3) : tensor3 := map transpose t.

(** The matrix product: entry (i, j) is row i of [a] against column j of [b]. *)
Definition matmul (a b : mat) : mat :=
  map (fun arow => map (dot arow) (transpose b)) a.

(** [torch.bmm(a, b)]. *)
Definition bmm (a b : tensor3) : tensor3 := zip_with matmul a b.

(** Softmax of one vector. *)
Definition softmax (v : vec) : vec :=
  let e := map exp v in map (fun a => a / sum e) e.

(** [F.softmax(t, dim=-1)]. *)
Definition softmax_last (t : tensor3) : tensor3 := map (map softmax) t.

(** [t[:, :, i]], defined when every innermost vector has an entry [i]. *)
Definition slice_last (t : tensor3) (i : nat) : option mat :=
  mapM (mapM (fun v : vec => v !! i)) t.

(** [t[:, i, :]]. *)
Definition slice_axis1 (t : tensor3) (i : nat) : option mat :=
  mapM (fun m : mat => m !! i) t.

(** The shape B x C x K of a batch of matrices. *)
Definition has_shape2 (m : mat) (r c : nat) : Prop :=
  length m = r /\ Forall (fun row => length row = c) m.

Definition has_shape3 (t : tensor3) (b r c : nat) : Prop :=
  length t = b /\ Forall (fun m => has_shape2 m r c) t.

End Tensor.

(** ** Python exceptions *)

Module Py.

(** The exceptions the two source files can raise. *)
Inductive error :=
| ValueError (msg : string)
| NotImplementedError (msg : string)
| AttributeError (name : string)
| TypeError (name : string)
| IndexError
| ZeroDivisionError
| FileNotFoundError (path : string).

(** A computation that returns a value or raises. *)
Definition result (A : Type) : Type := error + A.

#[export] Instance result_ret : MRet result := fun A a => inr a.
#[export] Instance result_bind : MBind result := fun A B k m =>
  match m with
  | inl e => inl e
  | inr a => k a
  end.

End Py.

(** ** Network construction ([models/okddip_resnet.py]) *)

Module Net.
Import Tensor Py.

#[local] Open Scope Z_scope.

(** What [__init__] mutates while it builds the network: [self.inplanes],
    [self.dilation], and the stream of freshly initialised parameter
    tensors ([rng] counts the tensors drawn so far, so two modules never
    share a parameter). [self.groups] and [self.base_width] are set once. *)
Record self_state := mkSelf {
  inplanes : Z;
  dilation : Z;
  groups : Z;
  base_width : Z;
  rng : nat
}.

(** A construction step: it may raise, and otherwise returns a value and
    the updated state. *)
Definition M (A : Type) : Type := self_state -> result (A * self_state).

#[export] Instance M_ret : MRet M := fun A a s => inr (a, s).
#[export] Instance M_bind : MBind M := fun A B k m s =>
  match m s with
  | inl e => inl e
  | inr (a, s') => k a s'
  end.

Definition raise {A} (e : error) : M A := fun _ => inl e.
Definition get : M self_state := fun s => inr (s, s).

(** A fresh parameter tensor. *)
Definition fresh : M nat :=
  fun s => inr (rng s, mkSelf (inplanes s) (dilation s) (groups s) (base_width s) (S (rng s))).

Definition set_inplanes (v : Z) : M unit :=
  fun s => inr (tt, mkSelf v (dilation s) (groups s) (base_width s) (rng s)).

Definition set_dilation (v : Z) : M unit :=
  fun s => inr (tt, mkSelf (inplanes s) v (groups s) (base_width s) (rng s)).

(** [l[i]] on a Python list, for a non-negative literal index. *)
Definition index {A} (l : list A) (i : nat) : M A :=
  match l !! i with
  | Some a => mret a
  | None => raise IndexError
  end.

Record Conv2d := mkConv2d {
  in_channels : Z;
  out_channels : Z;
  kernel_size : Z;
  conv_stride : Z;
  padding : Z;
  conv_groups : Z;
  conv_dilation : Z;
  conv_param : nat
}.

Record BatchNorm2d := mkBatchNorm2d { num_features : Z; bn_param : nat }.

Record Linear := mkLinear {
  in_features : Z;
  out_features : Z;
  has_bias : bool;
  lin_param : nat
}.

Definition nn_Conv2d (cin cout k stride pad grp dil : Z) : M Conv2d :=
  p ← fresh; mret (mkConv2d cin cout k stride pad grp dil p).

(** [norm_layer] is always [nn.BatchNorm2d] here. *)
Definition norm_layer (n : Z) : M BatchNorm2d :=
  p ← fresh; mret (mkBatchNorm2d n p).

Definition nn_Linear (fin fout : Z) (bias : bool) : M Linear :=
  p ← fresh; mret (mkLinear fin fout bias p).

Definition conv3x3 (in_planes out_planes stride grp dil : Z) : M Conv2d :=
  nn_Conv2d in_planes out_planes 3 stride dil grp dil.

Definition conv1x1 (in_planes out_planes stride : Z) : M Conv2d :=
  nn_Conv2d in_planes out_planes 1 stride 0 1 1.

(** The shortcut projection: [nn.Sequential(conv1x1(...), norm_layer(...))]. *)
Record Downsample := mkDownsample { ds_conv : Conv2d; ds_norm : BatchNorm2d }.

(** The two block classes and their [expansion] attribute. *)
Inductive block_class := BasicBlock | Bottleneck.

Definition expansion (block : block_class) : Z :=
  match block with BasicBlock => 1 | Bottleneck => 4 end.

Record BasicBlock_obj := mkBasicBlock {
  bb_conv1 : Conv2d; bb_bn1 : BatchNorm2d;
  bb_conv2 : Conv2d; bb_bn2 : BatchNorm2d;
  bb_downsample : option Downsample;
  bb_stride : Z
}.

Record Bottleneck_obj := mkBottleneck {
  bn_conv1 : Conv2d; bn_bn1 : BatchNorm2d;
  bn_conv2 : Conv2d; bn_bn2 : BatchNorm2d;
  bn_conv3 : Conv2d; bn_bn3 : BatchNorm2d;
  bn_downsample : option Downsample;
  bn_stride : Z
}.

Inductive Block := Basic (b : BasicBlock_obj) | Bottle (b : Bottleneck_obj).

(** [block.downsample], [block.stride], and the input channel count of a
    block (that of its first convolution). *)
Definition block_downsample (b : Block) : option Downsample :=
  match b with
  | Basic b => bb_downsample b
  | Bottle b => bn_downsample b
  end.

Definition block_stride (b : Block) : Z :=
  match b with
  | Basic b => bb_stride b
  | Bottle b => bn_stride b
  end.

Definition block_inplanes (b : Block) : Z :=
  match b with
  | Basic b => in_channels (bb_conv1 b)
  | Bottle b => in_channels (bn_conv1 b)
  end.

(** [BasicBlock.__init__]. *)
Definition BasicBlock_init (inpl planes stride : Z) (downsample : option Downsample)
    (grp bw dil : Z) : M Block :=
  if bool_decide (grp ≠ 1 ∨ bw ≠ 64) then
    raise (ValueError "BasicBlock only supports groups=1 and base_width=64")
  else if bool_decide (dil > 1) then
    raise (NotImplementedError "Dilation > 1 not supported in BasicBlock")
  else
    c1 ← conv3x3 inpl planes stride 1 1;
    b1 ← norm_layer planes;
    c2 ← conv3x3 planes planes 1 1 1;
    b2 ← norm_layer planes;
    mret (Basic (mkBasicBlock c1 b1 c2 b2 downsample stride)).

(** [Bottleneck.__init__]; [int(planes * (base_width / 64.))] truncates
    towards zero. *)
Definition Bottleneck_init (inpl planes stride : Z) (downsample : option Downsample)
    (grp bw dil : Z) : M Block :=
  let width := Z.quot (planes * bw) 64 * grp in
  c1 ← conv1x1 inpl width 1;
  b1 ← norm_layer width;
  c2 ← conv3x3 width width stride grp dil;
  b2 ← norm_layer width;
  c3 ← conv1x1 width (planes * expansion Bottleneck) 1;
  b3 ← norm_layer (planes * expansion Bottleneck);
  mret (Bottle (mkBottleneck c1 b1 c2 b2 c3 b3 downsample stride)).

(** Calling the class object [block(...)]. *)
Definition block_init (block : block_class) :=
  match block with
  | BasicBlock => BasicBlock_init
  | Bottleneck => Bottleneck_init
  end.

Definition Sequential := list Block.

(** The loop [for _ in range(1, blocks)] of [_make_layer], [n] iterations
    left. *)
Fixpoint more_blocks (block : block_class) (planes : Z) (n : nat) (layers : list Block)
    : M (list Block) :=
  match n with
  | O => mret layers
  | S n' =>
      self ← get;
      b ← block_init block (inplanes self) planes 1 None
            (groups self) (base_width self) (dilation self);
      more_blocks block planes n' (layers ++ [b])
  end.

(** [ResNet._make_layer]. *)
Definition _make_layer (block : block_class) (planes blocks stride : Z) (dilate : bool)
    : M Sequential :=
  self ← get;
  let previous_dilation := dilation self in
  stride ← (if dilate
            then _ ← set_dilation (dilation self * stride); mret 1
            else mret stride);
  self ← get;
  downsample ← (if bool_decide (stride ≠ 1 ∨ inplanes self ≠ planes * expansion block)
                then c ← conv1x1 (inplanes self) (planes * expansion block) stride;
                     n ← norm_layer (planes * expansion block);
                     mret (Some (mkDownsample c n))
                else mret None);
  self ← get;
  b ← block_init block (inplanes self) planes stride downsample
        (groups self) (base_width self) previous_dilation;
  _ ← set_inplanes (planes * expansion block);
  more_blocks block planes (Z.to_nat (blocks - 1)) [b].

(** What [setattr] stores under a name: a residual stage or a classifier. *)
Inductive Module := MSequential (s : Sequential) | MLinear (l : Linear).

Record ResNet := mkResNet {
  number_net : Z;
  num_branches : Z;
  num_classes : Z;
  conv1 : Conv2d;
  bn1 : BatchNorm2d;
  layer1 : Sequential;
  layer2 : Sequential;
  attrs : gmap string Module;
  query_weight : Linear;
  key_weight : Linear
}.

(** The loop [for i in range(self.number_net)] of [ResNet.__init__], at
    index [i] with [n] iterations left. *)
Fixpoint init_branches (block : block_class) (layers : list Z) (dilate : bool)
    (classes fix_planes : Z) (i : Z) (n : nat) (d : gmap string Module)
    : M (gmap string Module) :=
  match n with
  | O => mret d
  | S n' =>
      _ ← set_inplanes fix_planes;
      blocks ← index layers 2;
      l ← _make_layer block 64 blocks 2 dilate;
      let d := <["layer3_" +:+ pretty i := MSequential l]> d in
      c ← nn_Linear (64 * expansion block) classes true;
      let d := <["classifier_" +:+ pretty i := MLinear c]> d in
      init_branches block layers dilate classes fix_planes (i + 1) n' d
  end.

(** The body of [ResNet.__init__] after [self.inplanes], [self.dilation],
    [self.groups] and [self.base_width] are set. Parameter initialisation
    (the two loops over [self.modules()]) changes values only, which the
    parameter handles do not record. *)
Definition ResNet_body (block : block_class) (layers : list Z) (nets classes : Z)
    (replace_stride_with_dilation : option (list bool)) : M ResNet :=
  let rswd := default [false; false; false] replace_stride_with_dilation in
  if bool_decide (length rswd ≠ 3%nat) then
    raise (ValueError "replace_stride_with_dilation should be None or a 3-element tuple")
  else
    self ← get;
    c1 ← nn_Conv2d 3 (inplanes self) 3 1 1 1 1;
    b1 ← norm_layer (inplanes self);
    n0 ← index layers 0;
    l1 ← _make_layer block 16 n0 1 false;
    n1 ← index layers 1;
    d1 ← index rswd 1;
    l2 ← _make_layer block 32 n1 2 d1;
    self ← get;
    let fix_planes := inplanes self in
    d2 ← index rswd 2;
    d ← init_branches block layers d2 classes fix_planes 0 (Z.to_nat nets) ∅;
    q ← nn_Linear (64 * expansion block) ((64 * expansion block) `div` 8) false;
    k ← nn_Linear (64 * expansion block) ((64 * expansion block) `div` 8) false;
    mret (mkResNet nets nets classes c1 b1 l1 l2 d q k).

(** [ResNet(block, layers, number_net, num_classes, groups=..,
    width_per_group=.., replace_stride_with_dilation=..)], with the
    parameter stream at [rng0]. *)
Definition ResNet_init (block : block_class) (layers : list Z) (nets classes : Z)
    (grp width_per_group : Z) (replace_stride_with_dilation : option (list bool))
    (rng0 : nat) : result ResNet :=
  match ResNet_body block layers nets classes replace_stride_with_dilation
          (mkSelf 16 1 grp width_per_group rng0) with
  | inl e => inl e
  | inr (net, _) => inr net
  end.

(** The two exported constructors; keyword arguments are passed on. *)
Definition okddip_resnet32 := ResNet_init BasicBlock [5; 5; 5].
Definition okddip_resnet110 := ResNet_init Bottleneck [12; 12; 12].

(** *** The forward pass

    Convolution, normalisation, the nonlinearity, the in-place addition
    and pooling are the tensor library's; the forward pass is defined over
    any interpretation of them. A feature tensor is the list of its batch
    elements. [weight] and [bias] read the current parameter tensors of a
    linear layer. *)

Section Forward.
Variable Sample : Type.
Variable conv2d : Conv2d -> list Sample -> list Sample.
Variable batch_norm : BatchNorm2d -> list Sample -> list Sample.
Variable relu : list Sample -> list Sample.
Variable add : list Sample -> list Sample -> list Sample.
Variable avgpool_flatten : list Sample -> mat.
Variable weight : Linear -> mat.
Variable bias : Linear -> vec.

(** [nn.Linear.forward]: [x @ W.T + b]. *)
Definition Linear_forward (l : Linear) (x : mat) : mat :=
  map (fun xrow =>
         let y := map (dot xrow) (weight l) in
         if has_bias l then zip_with Rplus y (bias l) else y) x.

Definition Downsample_forward (d : Downsample) (x : list Sample) : list Sample :=
  batch_norm (ds_norm d) (conv2d (ds_conv d) x).

(** [BasicBlock.forward]. *)
Definition BasicBlock_forward (b : BasicBlock_obj) (x : list Sample) : list Sample :=
  let identity := x in
  let out := conv2d (bb_conv1 b) x in
  let out := batch_norm (bb_bn1 b) out in
  let out := relu out in
  let out := conv2d (bb_conv2 b) out in
  let out := batch_norm (bb_bn2 b) out in
  let identity :=
    match bb_downsample b with
    | Some d => Downsample_forward d x
    | None => identity
    end in
  let out := add out identity in
  relu out.

(** [Bottleneck.forward]. *)
Definition Bottleneck_forward (b : Bottleneck_obj) (x : list Sample) : list Sample :=
  let identity := x in
  let out := conv2d (bn_conv1 b) x in
  let out := batch_norm (bn_bn1 b) out in
  let out := relu out in
  let out := conv2d (bn_conv2 b) out in
  let out := batch_norm (bn_bn2 b) out in
  let out := relu out in
  let out := conv2d (bn_conv3 b) out in
  let out := batch_norm (bn_bn3 b) out in
  let identity :=
    match bn_downsample b with
    | Some d => Downsample_forward d x
    | None => identity
    end in
  let out := add out identity in
  relu out.

Definition Block_forward (b : Block) (x : list Sample) : list Sample :=
  match b with
  | Basic b => BasicBlock_forward b x
  | Bottle b => Bottleneck_forward b x
  end.

Definition Sequential_forward (l : Sequential) (x : list Sample) : list Sample :=
  foldl (fun x b => Block_forward b x) x l.

(** [getattr(self, name)] used as a residual stage, and as a classifier. *)
Definition getattr_stage (self : ResNet) (name : string) : result Sequential :=
  match attrs self !! name with
  | Some (MSequential l) => inr l
  | Some (MLinear _) => inl (TypeError name)
  | None => inl (AttributeError name)
  end.

Definition getattr_linear (self : ResNet) (name : string) : result Linear :=
  match attrs self !! name with
  | Some (MLinear l) => inr l
  | Some (MSequential _) => inl (TypeError name)
  | None => inl (AttributeError name)
  end.

(** [layer3_i], [avgpool] and [view(x.size(0), -1)] on the trunk output. *)
Definition tail (self : ResNet) (i : Z) (input : list Sample) : result mat :=
  l ← getattr_stage self ("layer3_" +:+ pretty i);
  mret (avgpool_flatten (Sequential_forward l input)).

(** Branch [i] alone: its tail, then [classifier_i]. *)
Definition branch_logit (self : ResNet) (i : Z) (input : list Sample) : result mat :=
  x ← tail self i input;
  c ← getattr_linear self ("classifier_" +:+ pretty i);
  mret (Linear_forward c x).

(** The local variables [pro], [proj_q] and [proj_k]. *)
Record stacks := mkStacks { pro : tensor3; proj_q : tensor3; proj_k : tensor3 }.

(** The loop [for i in range(1, self.number_net - 1)], at index [i] with
    [n] iterations left. *)
Fixpoint stack_loop (self : ResNet) (input : list Sample) (i : Z) (n : nat)
    (st : stacks) : result stacks :=
  match n with
  | O => mret st
  | S n' =>
      temp ← tail self i input;
      let temp_q := none_axis1 (Linear_forward (query_weight self) temp) in
      let temp_k := none_axis1 (Linear_forward (key_weight self) temp) in
      c ← getattr_linear self ("classifier_" +:+ pretty i);
      let temp_1 := unsqueeze_last (Linear_forward c temp) in
      stack_loop self input (i + 1) n'
        (mkStacks (cat_last (pro st) temp_1)
                  (cat_axis1 (proj_q st) temp_q)
                  (cat_axis1 (proj_k st) temp_k))
  end.

(** The shared trunk: stem, [layer1], [layer2]. *)
Definition trunk (self : ResNet) (input : list Sample) : list Sample :=
  let x := conv2d (conv1 self) input in
  let x := batch_norm (bn1 self) x in
  let x := relu x in
  let x := Sequential_forward (layer1 self) x in
  Sequential_forward (layer2 self) x.

(** Lines 196 to 225 of [_forward]: branch 0, then the loop. *)
Definition stack_branches (self : ResNet) (input : list Sample) : result stacks :=
  x_3 ← tail self 0 input;
  let q := none_axis1 (Linear_forward (query_weight self) x_3) in
  let k := none_axis1 (Linear_forward (key_weight self) x_3) in
  c ← getattr_linear self "classifier_0";
  let x_3_1 := Linear_forward c x_3 in
  stack_loop self input 1 (Z.to_nat (number_net self - 1 - 1))
    (mkStacks (unsqueeze_last x_3_1) q k).

(** Everything [_forward] computes, by the name of the local variable. *)
Record locals := mkLocals {
  l_stacks : stacks;
  energy : tensor3;
  attention : tensor3;
  x_m : tensor3;
  temp_out : mat
}.

Definition _forward_locals (self : ResNet) (input : list Sample) : result locals :=
  let input := trunk self input in
  st ← stack_branches self input;
  let energy := bmm (proj_q st) (permute_021 (proj_k st)) in
  let attention := softmax_last energy in
  let x_m := bmm (pro st) (permute_021 attention) in
  temp_out ← branch_logit self (num_branches self - 1) input;
  mret (mkLocals st energy attention x_m temp_out).

(** [ResNet._forward]: the triple [pro, x_m, temp_out]. *)
Definition _forward (self : ResNet) (input : list Sample)
    : result (tensor3 * tensor3 * mat) :=
  l ← _forward_locals self input;
  mret (pro (l_stacks l), x_m l, temp_out l).

End Forward.

Arguments Linear_forward weight bias l x : assert.
Arguments Downsample_forward {Sample}.
Arguments BasicBlock_forward {Sample}.
Arguments Bottleneck_forward {Sample}.
Arguments Block_forward {Sample}.
Arguments Sequential_forward {Sample}.
Arguments tail {Sample}.
Arguments branch_logit {Sample}.
Arguments stack_loop {Sample}.
Arguments trunk {Sample}.
Arguments stack_branches {Sample}.
Arguments _forward_locals {Sample}.
Arguments _forward {Sample}.

End Net.

(** ** The training script ([main_cifar_baseline.py]) *)

Module Train.
Import Py.

(** The parsed command line ([args]); the fields the code below reads. *)
Record Args := mkArgs {
  init_lr : R;
  lr_type : string;
  milestones : list Z;
  sgdr_t : Z;
  epochs : Z;
  resume : bool;
  evaluate : bool
}.

(** [bisect.bisect_right(a, x)]: the loop [while lo < hi] with
    [mid = (lo + hi) // 2]; [mid] is always a valid index of [a]. *)
Equations? bisect_loop (a : list Z) (x : Z) (lo hi : nat) : nat by wf (hi - lo)%nat lt :=
  bisect_loop a x lo hi with decide (lo < hi)%nat => {
    | left _ with decide (x < nth ((lo + hi) / 2)%nat a 0)%Z => {
        | left _ := bisect_loop a x lo ((lo + hi) / 2)%nat;
        | right _ := bisect_loop a x ((lo + hi) / 2 + 1)%nat hi };
    | right _ := lo }.
Proof.
  all: change (Nat.divmod (lo + hi) 1 0 1).1 with ((lo + hi) / 2)%nat;
    pose proof (Nat.div_mod_eq (lo + hi) 2);
    pose proof (Nat.mod_upper_bound (lo + hi) 2 ltac:(lia)); lia.
Qed.

Definition bisect_right (a : list Z) (x : Z) : nat := bisect_loop a x 0 (length a).

(** [int(x)] on a float: truncation towards zero. *)
Definition py_int (x : R) : Z :=
  if Rle_dec 0 x then Int_part x else (- Int_part (- x))%Z.

(** One parameter group of the SGD optimizer. *)
Record param_group := mkGroup {
  lr : R;
  momentum : R;
  weight_decay : R;
  nesterov : bool
}.

Definition set_lr (cur_lr : R) (g : param_group) : param_group :=
  mkGroup cur_lr (momentum g) (weight_decay g) (nesterov g).

Section Script.
(** The network's parameters and the optimizer's momentum buffers. *)
Variable Weights : Type.
Variable Buffers : Type.

Record Optimizer := mkOptimizer {
  param_groups : list param_group;
  buffers : Buffers
}.

(** [adjust_lr(optimizer, epoch, eta_max, eta_min)]: the optimizer with
    every group's rate set, and the returned [cur_lr]. *)
Definition adjust_lr (args : Args) (optimizer : Optimizer) (epoch : Z)
    (eta_max eta_min : R) : result (Optimizer * R) :=
  cur_lr ←
    (if decide (lr_type args = "SGDR") then
       if decide (sgdr_t args = 0%Z) then inl ZeroDivisionError
       else
         let x := IZR epoch / IZR (sgdr_t args) + 1 in
         if Rle_dec x 0 then inl (ValueError "math domain error")
         else
           let i := py_int (ln x / ln 2) in
           let T_cur := IZR epoch - IZR (sgdr_t args) * (powerRZ 2 i - 1) in
           let T_i := IZR (sgdr_t args) * powerRZ 2 i in
           inr (eta_min + 0.5 * (eta_max - eta_min) * (1 + cos (PI * T_cur / T_i)))
     else if decide (lr_type args = "multistep") then
       inr (init_lr args * 0.1 ^ bisect_right (milestones args) epoch)
     else inr 0);
  mret (mkOptimizer (map (set_lr cur_lr) (param_groups optimizer)) (buffers optimizer),
        cur_lr).

(** The loop over [trainloader] (forward, loss, backward, optimizer step)
    and the pass over [testloader] are the tensor library's work. *)
Variable run_batches : Z -> Weights -> Optimizer -> Weights * Optimizer.
Variable test : Z -> Weights -> Q.

(** [lr = adjust_lr(optimizer, epoch)] as [train] calls it, with the
    defaults [eta_max=0.1] and [eta_min=0.]. *)
Definition train_lr (args : Args) (optimizer : Optimizer) (epoch : Z)
    : result (Optimizer * R) :=
  adjust_lr args optimizer epoch 0.1 0.

(** [train(epoch, criterion_list, optimizer)]. *)
Definition train (args : Args) (epoch : Z) (net : Weights) (optimizer : Optimizer)
    : result (Weights * Optimizer) :=
  r ← train_lr args optimizer epoch;
  mret (run_batches epoch net r.1).

(** The dictionary [state] that [torch.save] writes. *)
Record checkpoint := mkCheckpoint {
  ck_net : Weights;
  ck_acc : Q;
  ck_epoch : Z;
  ck_optimizer : Optimizer
}.

(** The globals [net], [best_acc] and [start_epoch], and the file system. *)
Record world := mkWorld {
  net : Weights;
  best_acc : Q;
  start_epoch : Z;
  files : gmap string checkpoint;
  dirs : gset string
}.

(** The name of the architecture function, [model.__name__]. *)
Variable model_name : string.

Definition ckpt_path : string := "./checkpoint/" +:+ model_name +:+ ".pth.tar".
Definition best_path : string := "./checkpoint/" +:+ model_name +:+ "_best.pth.tar".

(** [torch.load(path)]. *)
Definition load (w : world) (path : string) : result checkpoint :=
  match files w !! path with
  | Some c => inr c
  | None => inl (FileNotFoundError path)
  end.

(** [shutil.copyfile(src, dst)]. *)
Definition copyfile (src dst : string) (fs : gmap string checkpoint)
    : result (gmap string checkpoint) :=
  match fs !! src with
  | Some c => inr (<[dst := c]> fs)
  | None => inl (FileNotFoundError src)
  end.

(** The body of [for epoch in range(start_epoch, args.epochs)]. *)
Definition epoch_body (args : Args) (epoch : Z) (st : world * Optimizer)
    : result (world * Optimizer) :=
  let w := st.1 in
  r ← train args epoch (net w) st.2;
  let acc := test epoch r.1 in
  let state := mkCheckpoint r.1 acc epoch r.2 in
  let dirs' := if decide ("checkpoint" ∈ dirs w) then dirs w
               else dirs w ∪ {["checkpoint"]} in
  let fs := <[ckpt_path := state]> (files w) in
  let is_best := if Qlt_le_dec (best_acc w) acc then true else false in
  let best := if is_best then acc else best_acc w in
  fs ← (if is_best then copyfile ckpt_path best_path fs else inr fs);
  mret (mkWorld r.1 best (start_epoch w) fs dirs', r.2).

(** The loop itself, at [epoch] with [n] iterations left. *)
Fixpoint epoch_loop (args : Args) (epoch : Z) (n : nat) (st : world * Optimizer)
    : result (world * Optimizer) :=
  match n with
  | O => mret st
  | S n' =>
      st' ← epoch_body args epoch st;
      epoch_loop args (epoch + 1) n' st'
  end.

(** The momentum buffers of a new optimizer. *)
Variable no_buffers : Buffers.

(** [main()]. *)
Definition main (args : Args) (w : world) : result world :=
  if evaluate args then
    c ← load w best_path;
    mret (mkWorld (ck_net c) (ck_acc c) (ck_epoch c + 1) (files w) (dirs w))
  else
    let optimizer := mkOptimizer [mkGroup 0.1 0.9 0.0005 true] no_buffers in
    st ← (if resume args then
            c ← load w ckpt_path;
            mret (mkWorld (ck_net c) (ck_acc c) (ck_epoch c) (files w) (dirs w),
                  ck_optimizer c)
          else mret (w, optimizer));
    st' ← epoch_loop args (start_epoch st.1)
            (Z.to_nat (epochs args - start_epoch st.1)) st;
    mret st'.1.

End Script.

Arguments mkOptimizer {Buffers}.
Arguments param_groups {Buffers}.
Arguments buffers {Buffers}.
Arguments adjust_lr {Buffers}.
Arguments train_lr {Buffers}.
Arguments train {Weights Buffers}.
Arguments mkCheckpoint {Weights Buffers}.
Arguments ck_net {Weights Buffers}.
Arguments ck_acc {Weights Buffers}.
Arguments ck_epoch {Weights Buffers}.
Arguments ck_optimizer {Weights Buffers}.
Arguments mkWorld {Weights Buffers}.
Arguments net {Weights Buffers}.
Arguments best_acc {Weights Buffers}.
Arguments start_epoch {Weights Buffers}.
Arguments files {Weights Buffers}.
Arguments dirs {Weights Buffers}.
Arguments load {Weights Buffers}.
Arguments copyfile {Weights Buffers}.
Arguments epoch_body {Weights Buffers}.
Arguments epoch_loop {Weights Buffers}.
Arguments main {Weights Buffers}.

End Train.

(** ** The milestones given on the command line *)

Module CommandLine.
Import Py.

(** The values a parsed [args.milestones] holds: the integers of the
    default, or the one-character strings of a given argument. *)
Inductive py_value := PyInt (z : Z) | PyStr (s : string).

(** [parser.add_argument('--milestones', default=[150, 225], type=list)]:
    without the option the default is taken as it is; with it, [list] is
    applied to the argument string. *)
Definition parse_milestones (arg : option string) : list py_value :=
  match arg with
  | None => [PyInt 150; PyInt 225]
  | Some s => map (fun c => PyStr (String c EmptyString)) (String.list_ascii_of_string s)
  end.

(** [x < v] for an integer [x]. *)
Definition int_lt (x : Z) (v : py_value) : result bool :=
  match v with
  | PyInt z => inr (bool_decide (x < z)%Z)
  | PyStr _ => inl (TypeError "'<' not supported between instances of 'int' and 'str'")
  end.

(** [bisect.bisect_right(a, x)] on such a list. *)
Equations? bisect_values (a : list py_value) (x : Z) (lo hi : nat) : result nat
    by wf (hi - lo)%nat lt :=
  bisect_values a x lo hi with decide (lo < hi)%nat => {
    | left _ with int_lt x (nth ((lo + hi) / 2)%nat a (PyInt 0)) => {
        | inl e := inl e;
        | inr true := bisect_values a x lo ((lo + hi) / 2)%nat;
        | inr false := bisect_values a x ((lo + hi) / 2 + 1)%nat hi };
    | right _ := inr lo }.
Proof.
  all: change (Nat.divmod (lo + hi) 1 0 1).1 with ((lo + hi) / 2)%nat;
    pose proof (Nat.div_mod_eq (lo + hi) 2);
    pose proof (Nat.mod_upper_bound (lo + hi) 2 ltac:(lia)); lia.
Qed.

Definition bisect_right_values (a : list py_value) (x : Z) : result nat :=
  bisect_values a x 0 (length a).

(** The multistep branch of [adjust_lr] on the parsed milestones. *)
Definition multistep_lr (lr0 : R) (ms : list py_value) (epoch : Z) : result R :=
  k ← bisect_right_values ms epoch; mret (lr0 * 0.1 ^ k).

End CommandLine.

(** ** Facts about tensors *)

Module TensorFacts.
Import Tensor.

Lemma sum_app (u v : vec) : sum (u ++ v) = sum u + sum v.
Proof. unfold sum. induction u as [|a u IH]; simpl; [lra|]. rewrite IH. lra. Qed.

Lemma sum_map_div (e : vec) (s : R) : sum (map (fun a => a / s) e) = sum e / s.
Proof.
  unfold sum. induction e as [|a e IH]; simpl.
  - unfold Rdiv. lra.
  - rewrite IH. unfold Rdiv. lra.
Qed.

Lemma sum_exp_pos (v : vec) : v ≠ [] -> 0 < sum (map exp v).
Proof.
  assert (Hnn : forall u : vec, 0 <= sum (map exp u)).
  { unfold sum. induction u as [|a u IH]; simpl; [lra|].
    pose proof (exp_pos a). lra. }
  destruct v as [|a v]; [congruence|]. intros _.
  unfold sum. simpl. pose proof (exp_pos a). pose proof (Hnn v). unfold sum in *. lra.
Qed.

(** Softmax of a vector with at least one entry is a probability
    distribution. *)
Lemma softmax_length (v : vec) : length (softmax v) = length v.
Proof. unfold softmax. rewrite !length_map. reflexivity. Qed.

Lemma softmax_sum (v : vec) : v ≠ [] -> sum (softmax v) = 1.
Proof.
  intros Hv. unfold softmax. rewrite sum_map_div.
  pose proof (sum_exp_pos v Hv). field. lra.
Qed.

Lemma softmax_pos (v : vec) : v ≠ [] -> Forall (fun a => 0 < a) (softmax v).
Proof.
  intros Hv. unfold softmax. pose proof (sum_exp_pos v Hv) as Hs.
  apply Forall_forall. intros a Ha.
  apply list_elem_of_fmap in Ha as (e & -> & He).
  apply list_elem_of_fmap in He as (x & -> & _).
  apply Rdiv_lt_0_compat; [apply exp_pos | exact Hs].
Qed.

(** The dot product as the sum over the index. *)
Lemma dot_comm (u v : vec) : dot u v = dot v u.
Proof.
  unfold dot. revert v. induction u as [|a u IH]; intros [|b v]; simpl; try reflexivity.
  unfold sum in *. simpl. rewrite IH. lra.
Qed.

Lemma dot_as_sum (u v : vec) (k : nat) :
  length u = k -> length v = k ->
  dot u v = sum (map (fun j => nth j u 0 * nth j v 0) (seq 0 k)).
Proof.
  revert v k. induction u as [|a u IH]; intros [|b v] k Hu Hv; simpl in *; subst k;
    try discriminate; [reflexivity|].
  unfold dot, sum. simpl. f_equal.
  rewrite <- seq_shift, map_map. apply (IH v (length u)); [reflexivity | lia].
Qed.

(** Reading a list back entry by entry. *)
Lemma map_nth_seq {A} (l : list A) (d : A) :
  map (fun j => nth j l d) (seq 0 (length l)) = l.
Proof.
  induction l as [|a l IH]; simpl; [reflexivity|].
  f_equal. rewrite <- seq_shift, map_map. exact IH.
Qed.

(** The transpose of an [r] x [c] matrix, with [r] and [c] positive, is a
    [c] x [r] matrix, and transposing twice gives the matrix back. *)
Lemma column_length (m : mat) (j : nat) : length (column m j) = length m.
Proof. unfold column. apply length_map. Qed.

Lemma transpose_shape (m : mat) (r c : nat) :
  has_shape2 m r c -> (0 < r)%nat -> has_shape2 (transpose m) c r.
Proof.
  intros [Hr Hc] Hpos. destruct m as [|row m]; simpl in *; [lia|].
  apply Forall_cons in Hc as [Hrow Hc]. rewrite Hrow. split.
  - rewrite length_map, length_seq. reflexivity.
  - apply Forall_forall. intros col Hcol.
    apply list_elem_of_fmap in Hcol as (j & -> & _).
    rewrite column_length. simpl. exact Hr.
Qed.

Lemma transpose_transpose (m : mat) (r c : nat) :
  has_shape2 m r c -> (0 < r)%nat -> (0 < c)%nat -> transpose (transpose m) = m.
Proof.
  intros Hm Hr Hc.
  pose proof (transpose_shape m r c Hm Hr) as [Hlen Hrows].
  destruct Hm as [Hmr Hmc].
  destruct (transpose m) as [|col0 cols] eqn:Ht; simpl in Hlen; [lia|].
  unfold transpose at 1.
  apply Forall_cons in Hrows as [Hcol0 _]. rewrite Hcol0, <- Hmr.
  rewrite <- (map_nth_seq m []) at 2.
  apply map_ext_in. intros i Hi. apply in_seq in Hi.
  unfold column. rewrite <- Ht.
  destruct m as [|row m]; [simpl in *; lia|].
  assert (Hrowi : length (nth i (row :: m) []) = c).
  { rewrite Forall_forall in Hmc. apply Hmc, list_elem_of_In, nth_In. lia. }
  assert (Hrow : length row = c) by (apply Forall_cons in Hmc as [? _]; assumption).
  unfold transpose. rewrite Hrow, map_map.
  etransitivity; [|apply (map_nth_seq _ 0)]. rewrite Hrowi.
  apply map_ext. intros j. unfold column.
  rewrite (nth_indep _ 0 ((fun rw : vec => nth j rw 0) []))
    by (rewrite length_map; simpl in *; lia).
  apply (map_nth (fun rw : vec => nth j rw 0)).
Qed.

(** *** Shapes *)

Lemma has_shape3_cols (t : tensor3) (b r c c' : nat) :
  has_shape3 t b r c -> has_shape3 t b r c' -> (0 < b)%nat -> (0 < r)%nat -> c = c'.
Proof.
  intros [Hb Ht] [_ Ht'] Hbpos Hrpos.
  destruct t as [|m t]; simpl in *; [lia|].
  apply Forall_cons in Ht as [[Hr Hm] _]. apply Forall_cons in Ht' as [[_ Hm'] _].
  destruct m as [|row m]; simpl in *; [lia|].
  apply Forall_cons in Hm as [H1 _]. apply Forall_cons in Hm' as [H2 _]. congruence.
Qed.

Lemma unsqueeze_last_shape (x : mat) (b c : nat) :
  has_shape2 x b c -> has_shape3 (unsqueeze_last x) b c 1.
Proof.
  intros [Hb Hc]. unfold unsqueeze_last. split; [rewrite length_map; exact Hb|].
  apply Forall_fmap. eapply Forall_impl; [exact Hc|].
  intros row Hrow. split; [rewrite length_map; exact Hrow|].
  apply Forall_fmap. apply Forall_forall. reflexivity.
Qed.

Lemma none_axis1_shape (x : mat) (b d : nat) :
  has_shape2 x b d -> has_shape3 (none_axis1 x) b 1 d.
Proof.
  intros [Hb Hd]. unfold none_axis1. split; [rewrite length_map; exact Hb|].
  apply Forall_fmap. eapply Forall_impl; [exact Hd|].
  intros row Hrow. split; [reflexivity|]. constructor; [exact Hrow|constructor].
Qed.

(** Appending one slice along the last axis. *)
Lemma snoc_row_shape (m : mat) (xs : vec) (c k : nat) :
  has_shape2 m c k -> length xs = c ->
  has_shape2 (zip_with app m (map (fun a => [a]) xs)) c (k + 1).
Proof.
  intros [Hc Hk] Hx. split.
  - rewrite length_zip_with, length_map. lia.
  - clear Hc Hx. revert xs. induction Hk as [|v m Hv _ IH]; intros [|a xs]; simpl;
      constructor; [rewrite length_app; simpl; lia | apply IH].
Qed.

Lemma cat_last_unsqueeze_shape (t : tensor3) (x : mat) (b c k : nat) :
  has_shape3 t b c k -> has_shape2 x b c ->
  has_shape3 (cat_last t (unsqueeze_last x)) b c (k + 1).
Proof.
  intros [Hb Ht] [Hxb Hxc]. unfold cat_last, unsqueeze_last. split.
  - rewrite length_zip_with, length_map. lia.
  - clear Hb Hxb. revert x Hxc.
    induction Ht as [|m t Hm _ IH]; intros [|xs x] Hxc; simpl; constructor.
    + apply Forall_cons in Hxc as [Hx _]. apply snoc_row_shape; assumption.
    + apply Forall_cons in Hxc as [_ Hxc]. apply IH, Hxc.
Qed.

Lemma cat_axis1_none_shape (t : tensor3) (x : mat) (b k d : nat) :
  has_shape3 t b k d -> has_shape2 x b d ->
  has_shape3 (cat_axis1 t (none_axis1 x)) b (k + 1) d.
Proof.
  intros [Hb Ht] [Hxb Hxd]. unfold cat_axis1, none_axis1. split.
  - rewrite length_zip_with, length_map. lia.
  - clear Hb Hxb. revert x Hxd.
    induction Ht as [|m t Hm _ IH]; intros [|xs x] Hxd; simpl; constructor.
    + apply Forall_cons in Hxd as [Hx _]. destruct Hm as [Hk Hd]. split.
      * rewrite length_app. simpl. lia.
      * apply Forall_app. split; [exact Hd|]. constructor; [exact Hx|constructor].
    + apply Forall_cons in Hxd as [_ Hxd]. apply IH, Hxd.
Qed.

(** *** Slices *)

Lemma slice_row_old (m : mat) (xs : vec) (k j : nat) :
  Forall (fun v => length v = k) m -> length xs = length m -> (j < k)%nat ->
  mapM (fun v : vec => v !! j) (zip_with app m (map (fun a => [a]) xs))
  = mapM (fun v : vec => v !! j) m.
Proof.
  intros Hm. revert xs. induction Hm as [|v m Hv _ IH]; intros [|a xs] Hlen Hj;
    simpl in *; try discriminate; [reflexivity|].
  rewrite lookup_app_l by lia. rewrite IH by lia. reflexivity.
Qed.

Lemma slice_row_new (m : mat) (xs : vec) (k : nat) :
  Forall (fun v => length v = k) m -> length xs = length m ->
  mapM (fun v : vec => v !! k) (zip_with app m (map (fun a => [a]) xs)) = Some xs.
Proof.
  intros Hm. revert xs. induction Hm as [|v m Hv _ IH]; intros [|a xs] Hlen;
    simpl in *; try discriminate; [reflexivity|].
  rewrite lookup_app_r by lia. rewrite Hv, Nat.sub_diag. simpl.
  rewrite IH by lia. reflexivity.
Qed.

Lemma slice_last_unsqueeze (x : mat) : slice_last (unsqueeze_last x) 0 = Some x.
Proof.
  unfold slice_last, unsqueeze_last. apply mapM_fmap_Some. intros row.
  apply mapM_fmap_Some. reflexivity.
Qed.

Lemma slice_last_snoc_old (t : tensor3) (x : mat) (b c k j : nat) :
  has_shape3 t b c k -> has_shape2 x b c -> (j < k)%nat ->
  slice_last (cat_last t (unsqueeze_last x)) j = slice_last t j.
Proof.
  intros [Hb Ht] [Hxb Hxc] Hj. unfold slice_last, cat_last, unsqueeze_last.
  assert (Hlen : length x = length t) by lia. clear Hb Hxb. revert x Hxc Hlen.
  induction Ht as [|m t [Hmc Hmk] _ IH]; intros [|xs x] Hxc Hlen; simpl in *;
    try discriminate; [reflexivity|].
  apply Forall_cons in Hxc as [Hx Hxc].
  rewrite (slice_row_old m xs k j) by (assumption || lia).
  rewrite IH by (assumption || lia). reflexivity.
Qed.

Lemma slice_last_snoc_new (t : tensor3) (x : mat) (b c k : nat) :
  has_shape3 t b c k -> has_shape2 x b c ->
  slice_last (cat_last t (unsqueeze_last x)) k = Some x.
Proof.
  intros [Hb Ht] [Hxb Hxc]. unfold slice_last, cat_last, unsqueeze_last.
  assert (Hlen : length x = length t) by lia. clear Hb Hxb. revert x Hxc Hlen.
  induction Ht as [|m t [Hmc Hmk] _ IH]; intros [|xs x] Hxc Hlen; simpl in *;
    try discriminate; [reflexivity|].
  apply Forall_cons in Hxc as [Hx Hxc].
  rewrite (slice_row_new m xs k) by (assumption || lia). simpl.
  rewrite IH by (assumption || lia). reflexivity.
Qed.

(** A tensor with at least one entry has no slice at or beyond its last
    extent. *)
Lemma slice_last_beyond (t : tensor3) (b c k j : nat) :
  has_shape3 t b c k -> (0 < b)%nat -> (0 < c)%nat -> (k <= j)%nat ->
  slice_last t j = None.
Proof.
  intros [Hb Ht] Hbpos Hcpos Hj. unfold slice_last.
  destruct t as [|m t]; simpl in *; [lia|].
  apply Forall_cons in Ht as [[Hc Hk] _].
  destruct m as [|v m]; simpl in *; [lia|].
  apply Forall_cons in Hk as [Hv _].
  rewrite (lookup_ge_None_2 v j) by lia. reflexivity.
Qed.

Lemma slice_axis1_none (x : mat) : slice_axis1 (none_axis1 x) 0 = Some x.
Proof. unfold slice_axis1, none_axis1. apply mapM_fmap_Some. reflexivity. Qed.

Lemma slice_axis1_snoc_old (t : tensor3) (x : mat) (b k d j : nat) :
  has_shape3 t b k d -> length x = b -> (j < k)%nat ->
  slice_axis1 (cat_axis1 t (none_axis1 x)) j = slice_axis1 t j.
Proof.
  intros [Hb Ht] Hxb Hj. unfold slice_axis1, cat_axis1, none_axis1.
  assert (Hlen : length x = length t) by lia. clear Hb Hxb. revert x Hlen.
  induction Ht as [|m t [Hmk Hmd] _ IH]; intros [|xs x] Hlen; simpl in *;
    try discriminate; [reflexivity|].
  rewrite lookup_app_l by lia. rewrite IH by lia. reflexivity.
Qed.

Lemma slice_axis1_snoc_new (t : tensor3) (x : mat) (b k d : nat) :
  has_shape3 t b k d -> length x = b ->
  slice_axis1 (cat_axis1 t (none_axis1 x)) k = Some x.
Proof.
  intros [Hb Ht] Hxb. unfold slice_axis1, cat_axis1, none_axis1.
  assert (Hlen : length x = length t) by lia. clear Hb Hxb. revert x Hlen.
  induction Ht as [|m t [Hmk Hmd] _ IH]; intros [|xs x] Hlen; simpl in *;
    try discriminate; [reflexivity|].
  rewrite lookup_app_r by lia. rewrite Hmk, Nat.sub_diag. simpl.
  rewrite IH by lia. reflexivity.
Qed.

(** *** Products against a transposed tensor *)

(** Row [i] of [a] against row [j] of [b], for all [i] and [j]. *)
Definition rows_against (a b : mat) : mat :=
  map (fun arow => map (dot arow) b) a.

Lemma matmul_transpose (a b : mat) (r c : nat) :
  has_shape2 b r c -> (0 < r)%nat -> (0 < c)%nat ->
  matmul a (transpose b) = rows_against a b.
Proof.
  intros Hb Hr Hc. unfold matmul, rows_against.
  rewrite (transpose_transpose b r c) by assumption. reflexivity.
Qed.

Lemma bmm_permute (a b : tensor3) (r c : nat) :
  Forall (fun m => has_shape2 m r c) b -> (0 < r)%nat -> (0 < c)%nat ->
  bmm a (permute_021 b) = zip_with rows_against a b.
Proof.
  intros Hb Hr Hc. unfold bmm, permute_021.
  change (map transpose b) with (transpose <$> b). rewrite zip_with_fmap_r.
  apply Forall_zip_with_ext_r; [reflexivity|].
  eapply Forall_impl; [exact Hb|]. intros m Hm am.
  apply (matmul_transpose am m r c); assumption.
Qed.

Lemma rows_against_shape (a b : mat) (r k d : nat) :
  length a = r -> length b = k -> has_shape2 (rows_against a b) r k.
Proof.
  intros Ha Hb. unfold rows_against. split; [rewrite length_map; exact Ha|].
  apply Forall_fmap, Forall_forall. intros arow _. simpl.
  rewrite length_map. exact Hb.
Qed.

Lemma zip_rows_against_shape (a b : tensor3) (n r k d d' : nat) :
  has_shape3 a n r d -> has_shape3 b n k d' ->
  has_shape3 (zip_with rows_against a b) n r k.
Proof.
  intros [Han Ha] [Hbn Hb]. split; [rewrite length_zip_with; lia|].
  clear Han Hbn. revert b Hb.
  induction Ha as [|am a [Hr _] _ IH]; intros [|bm b] Hb; simpl; constructor.
  - apply Forall_cons in Hb as [[Hk _] _]. apply (rows_against_shape am bm r k d); assumption.
  - apply Forall_cons in Hb as [_ Hb]. apply IH, Hb.
Qed.

Lemma softmax_last_shape (t : tensor3) (n r k : nat) :
  has_shape3 t n r k -> has_shape3 (softmax_last t) n r k.
Proof.
  intros [Hn Ht]. unfold softmax_last. split; [rewrite length_map; exact Hn|].
  apply Forall_fmap. eapply Forall_impl; [exact Ht|].
  intros m [Hr Hk]. simpl. split; [rewrite length_map; exact Hr|].
  apply Forall_fmap. eapply Forall_impl; [exact Hk|].
  intros v Hv. simpl. rewrite softmax_length. exact Hv.
Qed.

(** A probability distribution: positive entries that sum to 1. *)
Definition distribution (v : vec) : Prop :=
  sum v = 1 /\ Forall (fun a => 0 < a) v.

Lemma softmax_last_rows (t : tensor3) (n r k : nat) :
  has_shape3 t n r k -> (0 < k)%nat ->
  Forall (Forall distribution) (softmax_last t).
Proof.
  intros [_ Ht] Hk. unfold softmax_last.
  apply Forall_fmap. eapply Forall_impl; [exact Ht|].
  intros m [_ Hm]. simpl. apply Forall_fmap. eapply Forall_impl; [exact Hm|].
  intros v Hv. simpl.
  assert (v ≠ []) by (destruct v; simpl in *; [lia | discriminate]).
  split; [apply softmax_sum | apply softmax_pos]; assumption.
Qed.

(** One entry of a batch of matrices. *)
Definition entry (t : tensor3) (b c i : nat) : option R :=
  m ← t !! b; row ← m !! c; row !! i.

Lemma zip_rows_against_entry (a b : tensor3) (n c i : nat) (am bm : mat) (arow brow : vec) :
  a !! n = Some am -> am !! c = Some arow ->
  b !! n = Some bm -> bm !! i = Some brow ->
  entry (zip_with rows_against a b) n c i = Some (dot arow brow).
Proof.
  intros Ha Harow Hb Hbrow. unfold entry.
  rewrite lookup_zip_with, Ha, Hb. simpl.
  unfold rows_against. rewrite list_lookup_fmap, Harow. simpl.
  rewrite list_lookup_fmap, Hbrow. reflexivity.
Qed.

End TensorFacts.

(** ** Facts about network construction *)

Module NetFacts.
Import Tensor Py Net.

#[local] Open Scope Z_scope.

(** Running a construction step to its result. *)
Ltac run_M :=
  repeat (unfold mbind, M_bind, mret, M_ret, raise, get, fresh, set_inplanes,
            set_dilation, nn_Conv2d, norm_layer, nn_Linear, conv3x3, conv1x1, index in *;
          simpl in *).

(** What a block remembers of its constructor's arguments, and what its
    constructor leaves of the state. *)
Lemma block_init_inv block inpl planes stride ds grp bw dil s b s' :
  block_init block inpl planes stride ds grp bw dil s = inr (b, s') ->
  block_downsample b = ds /\ block_stride b = stride /\ block_inplanes b = inpl /\
  inplanes s' = inplanes s /\ dilation s' = dilation s /\
  groups s' = groups s /\ base_width s' = base_width s.
Proof.
  destruct block; unfold block_init, BasicBlock_init, Bottleneck_init.
  - destruct (bool_decide _); [run_M; discriminate|].
    destruct (bool_decide _); [run_M; discriminate|].
    run_M. intros [= <- <-]. simpl. tauto.
  - run_M. intros [= <- <-]. simpl. tauto.
Qed.

(** A further block of a stage has no shortcut projection, stride 1 and
    [planes * expansion] input channels, which is the state's [inplanes]. *)
Definition plain_block (inpl : Z) (b : Block) : Prop :=
  block_downsample b = None /\ block_stride b = 1 /\ block_inplanes b = inpl.

Lemma more_blocks_inv block planes (n : nat) layers s layer s' :
  more_blocks block planes n layers s = inr (layer, s') ->
  exists rest,
    layer = layers ++ rest /\ length rest = n /\
    Forall (plain_block (inplanes s)) rest /\
    inplanes s' = inplanes s /\ dilation s' = dilation s.
Proof.
  revert layers s. induction n as [|n IH]; intros layers s; simpl.
  - run_M. intros [= <- <-]. exists []. rewrite app_nil_r. repeat split; constructor.
  - unfold mbind at 1, M_bind at 1, get at 1. simpl.
    unfold mbind at 1, M_bind at 1.
    destruct (block_init block (inplanes s) planes 1 None (groups s) (base_width s)
                (dilation s) s) as [e|[b s1]] eqn:Hb; [discriminate|].
    intros Hrest. apply block_init_inv in Hb as (Hd & Hs & Hi & Hin & Hdil & _).
    apply IH in Hrest as (rest & -> & Hlen & Hall & Hin' & Hdil').
    exists (b :: rest). rewrite <- app_assoc. simpl.
    split; [reflexivity|]. split; [lia|]. split; [|split; congruence].
    constructor; [split; [|split]; assumption|].
    rewrite <- Hin. exact Hall.
Qed.

(** What [_make_layer] builds: a first block with the stride in effect and
    the incoming channel count, carrying a shortcut projection exactly when
    one of the two differs from the stage's own; then plain blocks. *)
Lemma make_layer_inv block planes blocks stride (dilate : bool) s layer s' :
  _make_layer block planes blocks stride dilate s = inr (layer, s') ->
  exists first rest,
    layer = first :: rest /\
    length rest = Z.to_nat (blocks - 1) /\
    block_stride first = (if dilate then 1 else stride) /\
    block_inplanes first = inplanes s /\
    (is_Some (block_downsample first) <->
     block_stride first ≠ 1 \/ block_inplanes first ≠ planes * expansion block) /\
    (forall d, block_downsample first = Some d ->
       ds_conv d = mkConv2d (block_inplanes first) (planes * expansion block) 1
                     (block_stride first) 0 1 1 (conv_param (ds_conv d)) /\
       num_features (ds_norm d) = planes * expansion block) /\
    Forall (plain_block (planes * expansion block)) rest /\
    inplanes s' = planes * expansion block /\
    dilation s' = (if dilate then dilation s * stride else dilation s).
Proof.
  unfold _make_layer.
  unfold mbind at 1, M_bind at 1, get at 1. simpl.
  set (stride' := if dilate then 1 else stride).
  set (s1 := if dilate
             then mkSelf (inplanes s) (dilation s * stride) (groups s) (base_width s) (rng s)
             else s).
  assert (Hstep : (if dilate
                   then set_dilation (dilation s * stride) ≫= (fun _ : () => mret 1)
                   else mret stride) s = inr (stride', s1)).
  { subst stride' s1. destruct dilate; reflexivity. }
  unfold mbind at 1, M_bind at 1. rewrite Hstep.
  assert (Hin1 : inplanes s1 = inplanes s) by (subst s1; destruct dilate; reflexivity).
  assert (Hdil1 : dilation s1 = if dilate then dilation s * stride else dilation s)
    by (subst s1; destruct dilate; reflexivity).
  clearbody s1 stride'. clear Hstep.
  unfold mbind at 1, M_bind at 1, get at 1. simpl.
  unfold mbind at 1, M_bind at 1.
  destruct (bool_decide (stride' ≠ 1 ∨ inplanes s1 ≠ planes * expansion block)) eqn:Hcond.
  - apply bool_decide_eq_true in Hcond. run_M.
    destruct (block_init _ _ _ _ _ _ _ _ _) as [e|[b s2]] eqn:Hb; [discriminate|].
    apply block_init_inv in Hb as (Hd & Hs & Hi & Hin & Hdil & _). simpl in *.
    intros Hrest. apply more_blocks_inv in Hrest as (rest & Hl & Hlen & Hall & Hin' & Hdil').
    simpl in *. exists b, rest. rewrite Hs, Hi, Hd, Hin1.
    split; [exact Hl|]. split; [exact Hlen|]. split; [reflexivity|]. split; [reflexivity|].
    split; [split; [intros _; rewrite <- Hin1; exact Hcond | intros _; eexists; reflexivity]|].
    split; [intros d [= <-]; simpl; split; reflexivity|].
    split; [exact Hall|]. split; [exact Hin'|]. congruence.
  - apply bool_decide_eq_false in Hcond. run_M.
    destruct (block_init _ _ _ _ _ _ _ _ _) as [e|[b s2]] eqn:Hb; [discriminate|].
    apply block_init_inv in Hb as (Hd & Hs & Hi & Hin & Hdil & _). simpl in *.
    intros Hrest. apply more_blocks_inv in Hrest as (rest & Hl & Hlen & Hall & Hin' & Hdil').
    simpl in *. exists b, rest. rewrite Hs, Hi, Hd, Hin1.
    split; [exact Hl|]. split; [exact Hlen|]. split; [reflexivity|]. split; [reflexivity|].
    split; [split; [intros [x Hx]; discriminate Hx | intros H; rewrite <- Hin1 in H; contradiction]|].
    split; [intros d Hd'; discriminate Hd'|].
    split; [exact Hall|]. split; [exact Hin'|]. congruence.
Qed.

(** C6: a [BasicBlock] with [groups != 1] or [base_width != 64] raises
    [ValueError], one with [dilation > 1] raises (and [NotImplementedError]
    when the first check passes), and the network with a
    [replace_stride_with_dilation] of a length other than 3 raises
    [ValueError]: the constructors return no object, so no forward pass can
    run on one. The network's constructor with [BasicBlock] and such
    [groups] or [width_per_group] raises the block's [ValueError]. *)
Theorem invalid_configurations_rejected :
  (forall inpl planes stride ds grp bw dil s,
     grp ≠ 1 \/ bw ≠ 64 ->
     BasicBlock_init inpl planes stride ds grp bw dil s
     = inl (ValueError "BasicBlock only supports groups=1 and base_width=64")) /\
  (forall inpl planes stride ds grp bw dil s,
     dil > 1 ->
     exists e, BasicBlock_init inpl planes stride ds grp bw dil s = inl e /\
       (grp = 1 -> bw = 64 ->
        e = NotImplementedError "Dilation > 1 not supported in BasicBlock")) /\
  (forall block layers nets classes grp wpg rswd rng0,
     length rswd ≠ 3%nat ->
     ResNet_init block layers nets classes grp wpg (Some rswd) rng0
     = inl (ValueError "replace_stride_with_dilation should be None or a 3-element tuple")) /\
  (forall n0 layers nets classes grp wpg rng0,
     grp ≠ 1 \/ wpg ≠ 64 ->
     ResNet_init BasicBlock (n0 :: layers) nets classes grp wpg None rng0
     = inl (ValueError "BasicBlock only supports groups=1 and base_width=64")).
Proof.
  split; [|split; [|split]].
  - intros inpl planes stride ds grp bw dil s H. unfold BasicBlock_init.
    rewrite bool_decide_eq_true_2 by exact H. reflexivity.
  - intros inpl planes stride ds grp bw dil s H. unfold BasicBlock_init.
    destruct (bool_decide (grp ≠ 1 ∨ bw ≠ 64)) eqn:Hg.
    + eexists. split; [reflexivity|]. intros -> ->.
      apply bool_decide_eq_true in Hg. destruct Hg as [Hg|Hg]; contradiction.
    + rewrite bool_decide_eq_true_2 by exact H. eexists. split; reflexivity.
  - intros block layers nets classes grp wpg rswd rng0 H.
    unfold ResNet_init, ResNet_body. simpl.
    rewrite bool_decide_eq_true_2 by exact H. reflexivity.
  - intros n0 layers nets classes grp wpg rng0 H.
    unfold ResNet_init, ResNet_body. simpl.
    unfold _make_layer, block_init, BasicBlock_init. run_M.
    rewrite bool_decide_eq_true_2 by exact H. reflexivity.
Qed.

Lemma invalid_configurations_rejected_witness :
  BasicBlock_init 16 16 1 None 2 64 1 (mkSelf 16 1 2 64 0)
  = inl (ValueError "BasicBlock only supports groups=1 and base_width=64") /\
  (exists e, BasicBlock_init 16 16 1 None 1 64 2 (mkSelf 16 2 1 64 0) = inl e) /\
  okddip_resnet32 4 100 1 64 (Some [false; false]) 0%nat
  = inl (ValueError "replace_stride_with_dilation should be None or a 3-element tuple") /\
  okddip_resnet32 4 100 2 64 None 0%nat
  = inl (ValueError "BasicBlock only supports groups=1 and base_width=64").
Proof.
  destruct invalid_configurations_rejected as (Hgroups & Hdil & Hlen & Hnet).
  split; [apply Hgroups; left; lia|].
  split; [destruct (Hdil 16 16 1 None 1 64 2 (mkSelf 16 2 1 64 0) ltac:(lia)) as (e & He & _);
          exists e; exact He|].
  split; [apply Hlen; simpl; lia|].
  apply Hnet. left; lia.
Defined.

Section BlockForward.
Context {Sample : Type}.
Context (conv2d : Conv2d -> list Sample -> list Sample).
Context (batch_norm : BatchNorm2d -> list Sample -> list Sample).
Context (relu : list Sample -> list Sample).
Context (add : list Sample -> list Sample -> list Sample).

(** The convolutional path of a block, without shortcut and final
    nonlinearity: the residual function of the block. *)
Definition transform (b : Block) (x : list Sample) : list Sample :=
  match b with
  | Basic b =>
      batch_norm (bb_bn2 b) (conv2d (bb_conv2 b)
        (relu (batch_norm (bb_bn1 b) (conv2d (bb_conv1 b) x))))
  | Bottle b =>
      batch_norm (bn_bn3 b) (conv2d (bn_conv3 b)
        (relu (batch_norm (bn_bn2 b) (conv2d (bn_conv2 b)
          (relu (batch_norm (bn_bn1 b) (conv2d (bn_conv1 b) x)))))))
  end.

(** The shortcut a block adds: the projection when it has one, and
    otherwise its input as it is. *)
Definition shortcut (b : Block) (x : list Sample) : list Sample :=
  match block_downsample b with
  | Some d => Downsample_forward conv2d batch_norm d x
  | None => x
  end.

Lemma Block_forward_shortcut (b : Block) (x : list Sample) :
  Block_forward conv2d batch_norm relu add b x
  = relu (add (transform b x) (shortcut b x)).
Proof.
  destruct b as [b|b]; unfold shortcut; simpl;
    unfold BasicBlock_forward, Bottleneck_forward;
    [destruct (bb_downsample b) | destruct (bn_downsample b)]; reflexivity.
Qed.

(** C5: in a stage built by [_make_layer], a block carries the 1x1
    convolution and normalisation of the shortcut projection if and only if
    its stride is not 1 or its input channel count is not
    [planes * expansion]; a block without one adds its unmodified input to
    the convolutional path before the final nonlinearity, and a block with
    one adds the projected input. The first block has the stride in effect
    (1 when the stride is replaced by dilation) and the incoming channel
    count. *)
Theorem make_layer_shortcut block planes blocks stride (dilate : bool) s layer s' :
  _make_layer block planes blocks stride dilate s = inr (layer, s') ->
  (exists first rest,
     layer = first :: rest /\
     block_stride first = (if dilate then 1 else stride) /\
     block_inplanes first = inplanes s) /\
  Forall (fun b =>
            (is_Some (block_downsample b) <->
             block_stride b ≠ 1 \/ block_inplanes b ≠ planes * expansion block) /\
            (forall d, block_downsample b = Some d ->
               ds_conv d = mkConv2d (block_inplanes b) (planes * expansion block) 1
                             (block_stride b) 0 1 1 (conv_param (ds_conv d)) /\
               num_features (ds_norm d) = planes * expansion block) /\
            (forall x, block_downsample b = None ->
               Block_forward conv2d batch_norm relu add b x
               = relu (add (transform b x) x)) /\
            (forall x d, block_downsample b = Some d ->
               Block_forward conv2d batch_norm relu add b x
               = relu (add (transform b x)
                        (batch_norm (ds_norm d) (conv2d (ds_conv d) x)))))
         layer.
Proof.
  intros Hmk.
  apply make_layer_inv in Hmk
    as (first & rest & -> & _ & Hs & Hi & Hiff & Hproj & Hrest & _).
  split; [exists first, rest; auto|].
  constructor.
  - split; [exact Hiff|]. split; [exact Hproj|]. split.
    + intros x Hd. rewrite Block_forward_shortcut. unfold shortcut. rewrite Hd. reflexivity.
    + intros x d Hd. rewrite Block_forward_shortcut. unfold shortcut. rewrite Hd. reflexivity.
  - eapply Forall_impl; [exact Hrest|].
    intros b (Hd & Hst & Hin). split; [|split; [|split]].
    + rewrite Hd, Hst, Hin. split; [intros [d Hd']; discriminate Hd' | intros [H|H]; contradiction].
    + intros d Hd'. rewrite Hd in Hd'. discriminate Hd'.
    + intros x _. rewrite Block_forward_shortcut. unfold shortcut. rewrite Hd. reflexivity.
    + intros x d Hd'. rewrite Hd in Hd'. discriminate Hd'.
Qed.

End BlockForward.

End NetFacts.

(** ** Facts about the forward pass *)

Module ForwardFacts.
Import Tensor Py Net TensorFacts NetFacts.

#[local] Open Scope Z_scope.

(** The attribute names of branch [i]. *)
Definition layer3_name (i : Z) : string := "layer3_" +:+ pretty i.
Definition classifier_name (i : Z) : string := "classifier_" +:+ pretty i.

Lemma layer3_name_inj (i j : Z) : layer3_name i = layer3_name j -> i = j.
Proof.
  unfold layer3_name. intros H.
  apply (inj (String.append _)) in H. apply (inj pretty) in H. exact H.
Qed.

Lemma classifier_name_inj (i j : Z) : classifier_name i = classifier_name j -> i = j.
Proof.
  unfold classifier_name. intros H.
  apply (inj (String.append _)) in H. apply (inj pretty) in H. exact H.
Qed.

Lemma layer3_ne_classifier (i j : Z) : layer3_name i ≠ classifier_name j.
Proof. unfold layer3_name, classifier_name. simpl. discriminate. Qed.

(** What [ResNet.__init__] establishes and the forward pass relies on: at
    least one branch, and for every branch index a tail stage and a
    classifier with [num_classes] outputs under their names. *)
Record well_formed (self : ResNet) : Prop := {
  wf_nets : 1 <= number_net self;
  wf_branches : num_branches self = number_net self;
  wf_attrs : forall i, 0 <= i < number_net self ->
    exists l c,
      attrs self !! layer3_name i = Some (MSequential l) /\
      attrs self !! classifier_name i = Some (MLinear c) /\
      out_features c = num_classes self /\ has_bias c = true;
  wf_query : 0 < out_features (query_weight self);
  wf_key : 0 < out_features (key_weight self)
}.

Lemma M_bind_inv {A B} (m : M A) (k : A -> M B) s r :
  (m ≫= k) s = inr r -> exists a s1, m s = inr (a, s1) /\ k a s1 = inr r.
Proof.
  unfold mbind, M_bind. destruct (m s) as [e|[a s1]]; [discriminate|].
  intros H. exists a, s1. split; [reflexivity | exact H].
Qed.

Lemma init_branches_inv block layers (dilate : bool) classes fix_planes
    (n : nat) (i : Z) d s d' s' :
  init_branches block layers dilate classes fix_planes i n d s = inr (d', s') ->
  (forall j, i <= j < i + Z.of_nat n ->
     exists l c,
       d' !! layer3_name j = Some (MSequential l) /\
       d' !! classifier_name j = Some (MLinear c) /\
       out_features c = classes /\ has_bias c = true) /\
  (forall name, (forall j, i <= j -> name ≠ layer3_name j /\ name ≠ classifier_name j) ->
     d' !! name = d !! name).
Proof.
  revert i d s. induction n as [|n IH]; intros i d s; simpl.
  - intros [= <- <-]. split; [intros j Hj; lia | reflexivity].
  - intros H.
    apply M_bind_inv in H as ([] & s1 & _ & H).
    apply M_bind_inv in H as (blocks & s2 & _ & H).
    apply M_bind_inv in H as (l & s3 & _ & H).
    apply M_bind_inv in H as (c & s4 & Hc & H).
    apply IH in H as [Hnew Hold].
    assert (Hcf : out_features c = classes /\ has_bias c = true).
    { run_M. injection Hc as <- _. split; reflexivity. }
    fold (layer3_name i) in Hold. fold (classifier_name i) in Hold.
    split.
    + intros j Hj. destruct (decide (j = i)) as [->|Hne].
      * exists l, c.
        rewrite !Hold.
        -- rewrite lookup_insert_ne by (apply not_eq_sym, layer3_ne_classifier).
           rewrite !lookup_insert_eq. tauto.
        -- intros j Hj'. split; [apply not_eq_sym, layer3_ne_classifier|].
           intros Heq. apply classifier_name_inj in Heq. lia.
        -- intros j Hj'. split; [|apply layer3_ne_classifier].
           intros Heq. apply layer3_name_inj in Heq. lia.
      * apply Hnew. lia.
    + intros name Hname. rewrite Hold.
      * destruct (Hname i ltac:(lia)) as [H1 H2].
        rewrite !lookup_insert_ne by (apply not_eq_sym; assumption). reflexivity.
      * intros j Hj. apply Hname. lia.
Qed.

(** The constructor builds well-formed networks. *)
Lemma ResNet_init_well_formed block layers nets classes grp wpg rswd rng0 self :
  ResNet_init block layers nets classes grp wpg rswd rng0 = inr self ->
  1 <= nets -> well_formed self.
Proof.
  unfold ResNet_init.
  destruct (ResNet_body _ _ _ _ _ _) as [e|[net s]] eqn:Hbody; [discriminate|].
  intros [= ->] Hnets. unfold ResNet_body in Hbody.
  destruct (bool_decide _); [discriminate|].
  apply M_bind_inv in Hbody as (? & ? & _ & H).
  apply M_bind_inv in H as (c1 & ? & _ & H).
  apply M_bind_inv in H as (b1 & ? & _ & H).
  apply M_bind_inv in H as (n0 & ? & _ & H).
  apply M_bind_inv in H as (l1 & ? & _ & H).
  apply M_bind_inv in H as (n1 & ? & _ & H).
  apply M_bind_inv in H as (d1 & ? & _ & H).
  apply M_bind_inv in H as (l2 & ? & _ & H).
  apply M_bind_inv in H as (? & ? & _ & H).
  apply M_bind_inv in H as (d2 & ? & _ & H).
  apply M_bind_inv in H as (d & ? & Hd & H).
  apply M_bind_inv in H as (q & ? & Hq & H).
  apply M_bind_inv in H as (k & ? & Hk & H).
  injection H as <- _.
  apply init_branches_inv in Hd as [Hd _].
  run_M. injection Hq as <- _. injection Hk as <- _.
  constructor; simpl; try lia.
  - intros i Hi. apply Hd. lia.
  - destruct block; reflexivity.
  - destruct block; reflexivity.
Qed.

Lemma ResNet_init_fields block layers nets classes grp wpg rswd rng0 self :
  ResNet_init block layers nets classes grp wpg rswd rng0 = inr self ->
  number_net self = nets /\ num_branches self = nets /\ num_classes self = classes.
Proof.
  unfold ResNet_init.
  destruct (ResNet_body _ _ _ _ _ _) as [e|[net s]] eqn:Hbody; [discriminate|].
  intros [= ->]. unfold ResNet_body in Hbody.
  destruct (bool_decide _); [discriminate|].
  do 13 (apply M_bind_inv in Hbody as (? & ? & _ & Hbody)).
  injection Hbody as <- _. simpl. tauto.
Qed.

Lemma classifier_name_0 : classifier_name 0 = "classifier_0".
Proof. reflexivity. Qed.

Section Forward.
Context {Sample : Type}.
Context (conv2d : Conv2d -> list Sample -> list Sample).
Context (batch_norm : BatchNorm2d -> list Sample -> list Sample).
Context (relu : list Sample -> list Sample).
Context (add : list Sample -> list Sample -> list Sample).
Context (avgpool_flatten : list Sample -> mat).
Context (weight : Linear -> mat).
Context (bias : Linear -> vec).

(** The tensor library's operations keep the batch extent, and a linear
    layer's parameters have the shape it was declared with. *)
Hypothesis conv2d_batch : forall c x, length (conv2d c x) = length x.
Hypothesis batch_norm_batch : forall n x, length (batch_norm n x) = length x.
Hypothesis relu_batch : forall x, length (relu x) = length x.
Hypothesis add_batch : forall x y, length y = length x -> length (add x y) = length x.
Hypothesis avgpool_batch : forall x, length (avgpool_flatten x) = length x.
Hypothesis weight_rows : forall l, length (weight l) = Z.to_nat (out_features l).
Hypothesis bias_length :
  forall l, has_bias l = true -> length (bias l) = Z.to_nat (out_features l).

Local Abbreviation stage := (Sequential_forward conv2d batch_norm relu add).
Local Abbreviation tail_of := (tail conv2d batch_norm relu add avgpool_flatten).
Local Abbreviation logit_of :=
  (branch_logit conv2d batch_norm relu add avgpool_flatten weight bias).
Local Abbreviation lin := (Linear_forward weight bias).
Local Abbreviation trunk_of := (trunk conv2d batch_norm relu add).
Local Abbreviation loop_of :=
  (stack_loop conv2d batch_norm relu add avgpool_flatten weight bias).
Local Abbreviation stack_of :=
  (stack_branches conv2d batch_norm relu add avgpool_flatten weight bias).
Local Abbreviation locals_of :=
  (_forward_locals conv2d batch_norm relu add avgpool_flatten weight bias).
Local Abbreviation forward_of :=
  (_forward conv2d batch_norm relu add avgpool_flatten weight bias).

Lemma Block_forward_batch (b : Block) (x : list Sample) :
  length (Block_forward conv2d batch_norm relu add b x) = length x.
Proof.
  rewrite Block_forward_shortcut, relu_batch.
  assert (Ht : length (transform conv2d batch_norm relu b x) = length x).
  { destruct b as [b|b]; simpl;
      repeat (rewrite ?conv2d_batch, ?batch_norm_batch, ?relu_batch); reflexivity. }
  rewrite add_batch; [exact Ht|]. rewrite Ht. unfold shortcut.
  destruct (block_downsample b); [|reflexivity].
  unfold Downsample_forward. rewrite batch_norm_batch, conv2d_batch. reflexivity.
Qed.

Lemma Sequential_forward_batch (l : Sequential) (x : list Sample) :
  length (stage l x) = length x.
Proof.
  unfold Sequential_forward. revert x.
  induction l as [|b l IH]; intros x; simpl; [reflexivity|].
  rewrite IH. apply Block_forward_batch.
Qed.

Lemma trunk_batch (self : ResNet) (x : list Sample) :
  length (trunk_of self x) = length x.
Proof.
  unfold trunk. rewrite !Sequential_forward_batch, relu_batch, batch_norm_batch.
  apply conv2d_batch.
Qed.

Lemma Linear_forward_shape (l : Linear) (x : mat) :
  has_shape2 (lin l x) (length x) (Z.to_nat (out_features l)).
Proof.
  unfold Linear_forward. split; [apply length_map|].
  apply Forall_fmap, Forall_forall. intros xrow _. simpl.
  destruct (has_bias l) eqn:Hb.
  - rewrite length_zip_with, length_map, weight_rows, (bias_length l Hb). lia.
  - rewrite length_map. apply weight_rows.
Qed.

(** *** The stacking loop *)

Lemma getattr_stage_ok (self : ResNet) (i : Z) :
  well_formed self -> 0 <= i < number_net self ->
  exists l, getattr_stage self (layer3_name i) = inr l.
Proof.
  intros Hwf Hi. destruct (wf_attrs self Hwf i Hi) as (l & c & Hl & _).
  exists l. unfold getattr_stage. rewrite Hl. reflexivity.
Qed.

Lemma getattr_linear_ok (self : ResNet) (i : Z) :
  well_formed self -> 0 <= i < number_net self ->
  exists c, getattr_linear self (classifier_name i) = inr c /\
            out_features c = num_classes self.
Proof.
  intros Hwf Hi. destruct (wf_attrs self Hwf i Hi) as (l & c & _ & Hc & Hout & _).
  exists c. unfold getattr_linear. rewrite Hc. split; [reflexivity | exact Hout].
Qed.

(** A branch's tail returns pooled features, one row per batch element. *)
Lemma tail_ok (self : ResNet) (i : Z) (x : list Sample) :
  well_formed self -> 0 <= i < number_net self ->
  exists feat, tail_of self i x = inr feat /\ length feat = length x.
Proof.
  intros Hwf Hi. destruct (getattr_stage_ok self i Hwf Hi) as (l & Hl).
  unfold tail. fold (layer3_name i). rewrite Hl. simpl.
  eexists. split; [reflexivity|].
  rewrite avgpool_batch. apply Sequential_forward_batch.
Qed.

(** A branch alone returns its logits, batch x num_classes. *)
Lemma branch_logit_ok (self : ResNet) (i : Z) (x : list Sample) :
  well_formed self -> 0 <= i < number_net self ->
  exists feat c,
    tail_of self i x = inr feat /\
    getattr_linear self (classifier_name i) = inr c /\
    logit_of self i x = inr (lin c feat) /\
    has_shape2 (lin c feat) (length x) (Z.to_nat (num_classes self)).
Proof.
  intros Hwf Hi.
  destruct (tail_ok self i x Hwf Hi) as (feat & Hfeat & Hlen).
  destruct (getattr_linear_ok self i Hwf Hi) as (c & Hc & Hout).
  exists feat, c. split; [exact Hfeat|]. split; [exact Hc|]. split.
  - unfold branch_logit. rewrite Hfeat. simpl.
    fold (classifier_name i). rewrite Hc. reflexivity.
  - rewrite <- Hlen, <- Hout. apply Linear_forward_shape.
Qed.

(** The state of the loop after [k] branches: the three stacks have [k]
    slices, and slice [j] holds what branch [j] computes. *)
Definition stacked (self : ResNet) (x : list Sample) (k : nat) (st : stacks) : Prop :=
  has_shape3 (pro st) (length x) (Z.to_nat (num_classes self)) k /\
  has_shape3 (proj_q st) (length x) k (Z.to_nat (out_features (query_weight self))) /\
  has_shape3 (proj_k st) (length x) k (Z.to_nat (out_features (key_weight self))) /\
  forall j, (j < k)%nat ->
    exists feat logits,
      tail_of self (Z.of_nat j) x = inr feat /\
      logit_of self (Z.of_nat j) x = inr logits /\
      slice_last (pro st) j = Some logits /\
      slice_axis1 (proj_q st) j = Some (lin (query_weight self) feat) /\
      slice_axis1 (proj_k st) j = Some (lin (key_weight self) feat).

Lemma stack_loop_stacked (self : ResNet) (x : list Sample) (n k : nat) (st : stacks) :
  well_formed self ->
  Z.of_nat (k + n) <= number_net self ->
  stacked self x k st ->
  exists st', loop_of self x (Z.of_nat k) n st = inr st' /\ stacked self x (k + n) st'.
Proof.
  intros Hwf. revert k st. induction n as [|n IH]; intros k st Hk Hst.
  - exists st. split; [reflexivity|]. rewrite Nat.add_0_r. exact Hst.
  - destruct (branch_logit_ok self (Z.of_nat k) x Hwf ltac:(lia))
      as (feat & c & Hfeat & Hc & Hlogit & Hshape).
    destruct (tail_ok self (Z.of_nat k) x Hwf ltac:(lia)) as (feat' & Hfeat' & Hlen).
    rewrite Hfeat in Hfeat'. injection Hfeat' as <-.
    simpl. rewrite Hfeat. simpl. fold (classifier_name (Z.of_nat k)). rewrite Hc. simpl.
    replace (Z.of_nat k + 1) with (Z.of_nat (S k)) by lia.
    replace (k + S n)%nat with (S k + n)%nat by lia.
    apply IH; [lia|].
    destruct Hst as (Hpro & Hq & Hkk & Hslices).
    pose proof (Linear_forward_shape (query_weight self) feat) as Hqs.
    pose proof (Linear_forward_shape (key_weight self) feat) as Hks.
    rewrite Hlen in Hqs, Hks.
    unfold stacked. simpl. replace (S k) with (k + 1)%nat by lia.
    split; [apply cat_last_unsqueeze_shape; assumption|].
    split; [apply cat_axis1_none_shape; assumption|].
    split; [apply cat_axis1_none_shape; assumption|].
    intros j Hj. destruct (decide (j = k)) as [->|Hne].
    + exists feat, (lin c feat).
      split; [exact Hfeat|]. split; [exact Hlogit|].
      split; [eapply slice_last_snoc_new; eassumption|].
      split; eapply slice_axis1_snoc_new; try eassumption; apply Hqs || apply Hks.
    + destruct (Hslices j ltac:(lia)) as (fj & lj & H1 & H2 & H3 & H4 & H5).
      exists fj, lj. split; [exact H1|]. split; [exact H2|].
      split; [erewrite slice_last_snoc_old; [exact H3 | eassumption | eassumption | lia]|].
      split; (erewrite slice_axis1_snoc_old; [eassumption | eassumption | apply Hqs || apply Hks | lia]).
Qed.

(** The number of branches the loop stacks: branch 0, then branches
    [1 .. number_net - 2]. *)
Definition stacked_count (self : ResNet) : nat :=
  (1 + Z.to_nat (number_net self - 1 - 1))%nat.

Lemma stacked_count_ge_2 (self : ResNet) :
  2 <= number_net self -> Z.of_nat (stacked_count self) = number_net self - 1.
Proof. unfold stacked_count. lia. Qed.

Lemma stacked_count_1 (self : ResNet) :
  number_net self = 1 -> stacked_count self = 1%nat.
Proof. unfold stacked_count. intros ->. reflexivity. Qed.

Lemma stack_branches_stacked (self : ResNet) (x : list Sample) :
  well_formed self ->
  exists st, stack_of self x = inr st /\ stacked self x (stacked_count self) st.
Proof.
  intros Hwf. pose proof (wf_nets self Hwf) as Hn.
  destruct (branch_logit_ok self 0 x Hwf ltac:(lia))
    as (feat & c & Hfeat & Hc & Hlogit & Hshape).
  destruct (tail_ok self 0 x Hwf ltac:(lia)) as (feat' & Hfeat' & Hlen).
  rewrite Hfeat in Hfeat'. injection Hfeat' as <-.
  unfold stack_branches. rewrite Hfeat. simpl.
  rewrite classifier_name_0 in Hc. rewrite Hc. simpl.
  apply (stack_loop_stacked self x _ 1); [exact Hwf | lia |].
  pose proof (Linear_forward_shape (query_weight self) feat) as Hqs.
  pose proof (Linear_forward_shape (key_weight self) feat) as Hks.
  rewrite Hlen in Hqs, Hks.
  unfold stacked. simpl.
  split; [apply unsqueeze_last_shape; assumption|].
  split; [apply none_axis1_shape; assumption|].
  split; [apply none_axis1_shape; assumption|].
  intros j Hj. assert (j = 0%nat) as -> by lia.
  exists feat, (lin c feat). split; [exact Hfeat|]. split; [exact Hlogit|].
  split; [apply slice_last_unsqueeze|]. split; apply slice_axis1_none.
Qed.

(** *** The whole forward pass *)

(** What [_forward] computes on a well-formed network: it returns; the
    stacks hold the first [stacked_count] branches; energy, attention and
    fused output are products of rows; the third value is the last
    branch alone. *)
Lemma forward_locals_ok (self : ResNet) (input : list Sample) :
  well_formed self ->
  let x := trunk_of self input in
  let b := length input in
  let c := Z.to_nat (num_classes self) in
  let k := stacked_count self in
  exists l,
    locals_of self input = inr l /\
    forward_of self input = inr (pro (l_stacks l), x_m l, temp_out l) /\
    stacked self x k (l_stacks l) /\
    has_shape3 (pro (l_stacks l)) b c k /\
    energy l = zip_with rows_against (proj_q (l_stacks l)) (proj_k (l_stacks l)) /\
    attention l = softmax_last (energy l) /\
    x_m l = zip_with rows_against (pro (l_stacks l)) (attention l) /\
    has_shape3 (energy l) b k k /\
    has_shape3 (attention l) b k k /\
    has_shape3 (x_m l) b c k /\
    logit_of self (number_net self - 1) x = inr (temp_out l) /\
    has_shape2 (temp_out l) b c.
Proof.
  intros Hwf x b c k. pose proof (wf_nets self Hwf) as Hn.
  assert (Hb : length x = b) by apply trunk_batch.
  destruct (stack_branches_stacked self x Hwf) as (st & Hst & Hinv).
  destruct (branch_logit_ok self (number_net self - 1) x Hwf ltac:(lia))
    as (feat & cl & _ & _ & Hlast & Hlshape).
  fold k in Hinv. pose proof Hinv as Hinv0. destruct Hinv as (Hpro & Hq & Hk & Hslices).
  rewrite Hb in Hpro, Hq, Hk, Hlshape. fold c in Hpro, Hlshape.
  assert (Hkpos : (0 < k)%nat) by (unfold k, stacked_count; lia).
  assert (Henergy : bmm (proj_q st) (permute_021 (proj_k st))
                    = zip_with rows_against (proj_q st) (proj_k st)).
  { eapply bmm_permute; [apply Hk | exact Hkpos |].
    pose proof (wf_key self Hwf). lia. }
  assert (Heshape : has_shape3 (zip_with rows_against (proj_q st) (proj_k st)) b k k)
    by (eapply zip_rows_against_shape; eassumption).
  pose proof (softmax_last_shape _ _ _ _ Heshape) as Hashape.
  assert (Hxm : bmm (pro st) (permute_021 (softmax_last
                  (zip_with rows_against (proj_q st) (proj_k st))))
                = zip_with rows_against (pro st)
                    (softmax_last (zip_with rows_against (proj_q st) (proj_k st)))).
  { eapply bmm_permute; [apply Hashape | exact Hkpos | exact Hkpos]. }
  eexists (mkLocals st _ _ _ _).
  assert (Hloc : locals_of self input
                 = inr (mkLocals st
                          (zip_with rows_against (proj_q st) (proj_k st))
                          (softmax_last (zip_with rows_against (proj_q st) (proj_k st)))
                          (zip_with rows_against (pro st)
                             (softmax_last (zip_with rows_against (proj_q st) (proj_k st))))
                          (lin cl feat))).
  { unfold _forward_locals. fold x. rewrite Hst. simpl.
    rewrite (wf_branches self Hwf). rewrite Hlast. simpl.
    rewrite Henergy, Hxm. reflexivity. }
  split; [exact Hloc|].
  split; [unfold _forward; rewrite Hloc; reflexivity|]. simpl.
  split; [exact Hinv0|]. split; [exact Hpro|].
  split; [reflexivity|]. split; [reflexivity|]. split; [reflexivity|].
  split; [exact Heshape|]. split; [exact Hashape|].
  split; [eapply zip_rows_against_shape; eassumption|].
  split; [exact Hlast | exact Hlshape].
Qed.

(** C1, amended: with [N >= 2] branches the forward pass returns, and
    [pro] and [x_m] both have shape batch x num_classes x (N - 1): the
    stack holds branches [0 .. N - 2]. Slice [i] of [pro], for [i < N - 1],
    is branch [i]'s classifier output on its own tail and the trunk's
    output; there is no slice [N - 1]. *)
Theorem forward_stack_shapes (self : ResNet) (input : list Sample) :
  well_formed self -> 2 <= number_net self ->
  exists pro x_m out,
    forward_of self input = inr (pro, x_m, out) /\
    has_shape3 pro (length input) (Z.to_nat (num_classes self))
      (Z.to_nat (number_net self - 1)) /\
    has_shape3 x_m (length input) (Z.to_nat (num_classes self))
      (Z.to_nat (number_net self - 1)) /\
    (forall i, 0 <= i < number_net self - 1 ->
       exists logits,
         logit_of self i (trunk_of self input) = inr logits /\
         slice_last pro (Z.to_nat i) = Some logits) /\
    ((0 < length input)%nat -> 0 < num_classes self ->
     slice_last pro (Z.to_nat (number_net self - 1)) = None).
Proof.
  intros Hwf Hn.
  destruct (forward_locals_ok self input Hwf)
    as (l & _ & Hfwd & Hst & _ & _ & _ & _ & _ & _ & Hxm & _ & _).
  assert (Hk : stacked_count self = Z.to_nat (number_net self - 1))
    by (pose proof (stacked_count_ge_2 self Hn); lia).
  rewrite Hk in Hst, Hxm. destruct Hst as (Hpro & _ & _ & Hslices).
  rewrite trunk_batch in Hpro.
  exists (pro (l_stacks l)), (x_m l), (temp_out l).
  split; [exact Hfwd|]. split; [exact Hpro|]. split; [exact Hxm|]. split.
  - intros i Hi. destruct (Hslices (Z.to_nat i) ltac:(lia)) as (feat & logits & _ & Hl & Hs & _).
    rewrite Z2Nat.id in Hl by lia. exists logits. split; assumption.
  - intros Hb Hc. eapply slice_last_beyond; [exact Hpro | exact Hb | lia | lia].
Qed.

(** C2, amended: the third returned value is the classifier output of the
    last branch, index [N - 1], on its own tail and the trunk's output.
    With [N >= 2] the stack [pro] has no slice [N - 1], so the value is
    nowhere in it; with a single branch it is slice 0 of [pro]. *)
Theorem peer_output_last_branch (self : ResNet) (input : list Sample) :
  well_formed self ->
  exists pro x_m out,
    forward_of self input = inr (pro, x_m, out) /\
    logit_of self (number_net self - 1) (trunk_of self input) = inr out /\
    has_shape2 out (length input) (Z.to_nat (num_classes self)) /\
    (2 <= number_net self -> (0 < length input)%nat -> 0 < num_classes self ->
     slice_last pro (Z.to_nat (number_net self - 1)) = None) /\
    (number_net self = 1 -> slice_last pro 0 = Some out).
Proof.
  intros Hwf.
  destruct (forward_locals_ok self input Hwf)
    as (l & _ & Hfwd & Hst & _ & _ & _ & _ & _ & _ & _ & Hout & Hoshape).
  destruct Hst as (Hpro & _ & _ & Hslices). rewrite trunk_batch in Hpro.
  exists (pro (l_stacks l)), (x_m l), (temp_out l).
  split; [exact Hfwd|]. split; [exact Hout|]. split; [exact Hoshape|]. split.
  - intros Hn Hb Hc. eapply slice_last_beyond; [exact Hpro | exact Hb | lia |].
    pose proof (stacked_count_ge_2 self Hn). lia.
  - intros H1. rewrite H1 in Hout. change (1 - 1) with 0 in Hout.
    destruct (Hslices 0%nat ltac:(unfold stacked_count; lia))
      as (feat & logits & _ & Hl & Hs & _).
    change (Z.of_nat 0) with 0 in Hl. rewrite Hl in Hout. injection Hout as <-. exact Hs.
Qed.

(** C3: the forward pass computes the attention matrix as the softmax,
    along the last axis, of the query-key energy; it is batch x K x K for
    the K stacked branches, and every row of it, for every batch element,
    has positive entries that sum to 1. *)
Theorem attention_rows_sum_to_one (self : ResNet) (input : list Sample) :
  well_formed self ->
  exists l,
    locals_of self input = inr l /\
    energy l = bmm (proj_q (l_stacks l)) (permute_021 (proj_k (l_stacks l))) /\
    attention l = softmax_last (energy l) /\
    has_shape3 (attention l) (length input) (stacked_count self) (stacked_count self) /\
    forall b i (m : mat) (row : vec),
      attention l !! b = Some m -> m !! i = Some row ->
      sum row = 1%R /\ Forall (fun a => (0 < a)%R) row.
Proof.
  intros Hwf.
  destruct (forward_locals_ok self input Hwf)
    as (l & Hloc & _ & _ & _ & _ & Hatt & _ & Heshape & Hashape & _).
  exists l. split; [exact Hloc|]. split.
  { unfold _forward_locals in Hloc.
    destruct (stack_of self (trunk_of self input)) as [e|st]; [discriminate|].
    simpl in Hloc. destruct (logit_of _ _ _) as [e|out]; [discriminate|].
    injection Hloc as <-. reflexivity. }
  split; [exact Hatt|]. split; [exact Hashape|].
  intros b i m row Hm Hrow.
  assert (Hrows : Forall (Forall distribution) (attention l)).
  { rewrite Hatt. eapply softmax_last_rows; [exact Heshape|].
    unfold stacked_count. lia. }
  rewrite Forall_lookup in Hrows. specialize (Hrows b m Hm).
  rewrite Forall_lookup in Hrows. exact (Hrows i row Hrow).
Qed.

(** C4: the fused output is the batched product of [pro] with the
    transposed attention matrix, and entry [(b, c, i)] of it is the sum
    over the stacked branches [j] of [attention[b, i, j] * pro[b, c, j]],
    a combination whose weights, row [i] of the attention matrix, are
    positive and sum to 1. *)
Theorem fused_output_weighted_sum (self : ResNet) (input : list Sample) :
  well_formed self ->
  exists l,
    locals_of self input = inr l /\
    forward_of self input = inr (pro (l_stacks l), x_m l, temp_out l) /\
    x_m l = bmm (pro (l_stacks l)) (permute_021 (attention l)) /\
    forall b c i (pm am : mat) (prow arow : vec),
      pro (l_stacks l) !! b = Some pm -> pm !! c = Some prow ->
      attention l !! b = Some am -> am !! i = Some arow ->
      entry (x_m l) b c i
      = Some (sum (map (fun j => (nth j arow 0 * nth j prow 0)%R)
                     (seq 0 (stacked_count self)))) /\
      sum arow = 1%R /\ Forall (fun a => (0 < a)%R) arow.
Proof.
  intros Hwf.
  destruct (forward_locals_ok self input Hwf)
    as (l & Hloc & Hfwd & Hst & _ & _ & Hatt & Hxm & Heshape & Hashape & _).
  assert (Hkpos : (0 < stacked_count self)%nat) by (unfold stacked_count; lia).
  exists l. split; [exact Hloc|]. split; [exact Hfwd|]. split.
  { rewrite Hxm. symmetry. eapply bmm_permute; [apply Hashape | exact Hkpos | exact Hkpos]. }
  intros b c i pm am prow arow Hpm Hprow Ham Harow.
  assert (Hrows : Forall (Forall distribution) (attention l)).
  { rewrite Hatt. eapply softmax_last_rows; [exact Heshape | exact Hkpos]. }
  rewrite Forall_lookup in Hrows. specialize (Hrows b am Ham).
  rewrite Forall_lookup in Hrows. specialize (Hrows i arow Harow).
  split; [|exact Hrows].
  rewrite Hxm, (zip_rows_against_entry _ _ b c i pm am prow arow) by assumption.
  f_equal. rewrite dot_comm. apply dot_as_sum.
  - destruct Hashape as [_ Ha]. rewrite Forall_lookup in Ha.
    destruct (Ha b am Ham) as [_ Hr]. rewrite Forall_lookup in Hr. exact (Hr i arow Harow).
  - destruct Hst as ([_ Hp] & _). rewrite Forall_lookup in Hp.
    destruct (Hp b pm Hpm) as [_ Hr]. rewrite Forall_lookup in Hr. exact (Hr c prow Hprow).
Qed.

(** C9: every stacked branch's query embedding is the one linear layer
    [query_weight] applied to that branch's pooled features, and its key
    embedding the one linear layer [key_weight] applied to them: slice [j]
    of [proj_q] and of [proj_k], for each of the K stacked branches. *)
Theorem shared_projections (self : ResNet) (input : list Sample) :
  well_formed self ->
  exists l,
    locals_of self input = inr l /\
    has_shape3 (proj_q (l_stacks l)) (length input) (stacked_count self)
      (Z.to_nat (out_features (query_weight self))) /\
    has_shape3 (proj_k (l_stacks l)) (length input) (stacked_count self)
      (Z.to_nat (out_features (key_weight self))) /\
    forall j, (j < stacked_count self)%nat ->
      exists feat,
        tail_of self (Z.of_nat j) (trunk_of self input) = inr feat /\
        slice_axis1 (proj_q (l_stacks l)) j = Some (lin (query_weight self) feat) /\
        slice_axis1 (proj_k (l_stacks l)) j = Some (lin (key_weight self) feat).
Proof.
  intros Hwf.
  destruct (forward_locals_ok self input Hwf) as (l & Hloc & _ & Hst & _).
  destruct Hst as (_ & Hq & Hk & Hslices). rewrite trunk_batch in Hq, Hk.
  exists l. split; [exact Hloc|]. split; [exact Hq|]. split; [exact Hk|].
  intros j Hj. destruct (Hslices j Hj) as (feat & logits & Hf & _ & _ & H4 & H5).
  exists feat. split; [exact Hf|]. split; assumption.
Qed.

End Forward.

End ForwardFacts.

(** ** The default network on a toy interpretation *)

Module ForwardExamples.
Import Tensor Py Net TensorFacts NetFacts ForwardFacts.

#[local] Open Scope Z_scope.

(** A feature tensor of one number per batch element; convolution,
    normalisation and nonlinearity leave it alone, the addition keeps its
    first argument, pooling makes the number a one-entry feature row. A
    linear layer's weight rows hold its parameter handle, its bias is 0. *)
Definition toy_conv2d (c : Conv2d) (x : list R) : list R := x.
Definition toy_batch_norm (n : BatchNorm2d) (x : list R) : list R := x.
Definition toy_relu (x : list R) : list R := x.
Definition toy_add (x y : list R) : list R := x.
Definition toy_pool (x : list R) : mat := map (fun a => [a]) x.
Definition toy_weight (l : Linear) : mat :=
  replicate (Z.to_nat (out_features l)) [INR (lin_param l)].
Definition toy_bias (l : Linear) : vec := replicate (Z.to_nat (out_features l)) 0%R.

Definition toy_locals : ResNet -> list R -> result locals :=
  _forward_locals toy_conv2d toy_batch_norm toy_relu toy_add toy_pool toy_weight toy_bias.

Definition toy_forward : ResNet -> list R -> result (tensor3 * tensor3 * mat) :=
  _forward toy_conv2d toy_batch_norm toy_relu toy_add toy_pool toy_weight toy_bias.

Definition toy_logit : ResNet -> Z -> list R -> result mat :=
  branch_logit toy_conv2d toy_batch_norm toy_relu toy_add toy_pool toy_weight toy_bias.

Lemma toy_conv2d_batch (c : Conv2d) (x : list R) : length (toy_conv2d c x) = length x.
Proof. reflexivity. Qed.

Lemma toy_batch_norm_batch (n : BatchNorm2d) (x : list R) :
  length (toy_batch_norm n x) = length x.
Proof. reflexivity. Qed.

Lemma toy_relu_batch (x : list R) : length (toy_relu x) = length x.
Proof. reflexivity. Qed.

Lemma toy_add_batch (x y : list R) : length y = length x -> length (toy_add x y) = length x.
Proof. reflexivity. Qed.

Lemma toy_pool_batch (x : list R) : length (toy_pool x) = length x.
Proof. apply length_map. Qed.

Lemma toy_weight_rows (l : Linear) : length (toy_weight l) = Z.to_nat (out_features l).
Proof. apply length_replicate. Qed.

Lemma toy_bias_length (l : Linear) :
  has_bias l = true -> length (toy_bias l) = Z.to_nat (out_features l).
Proof. intros _. apply length_replicate. Qed.

(** A fact about the forward pass, at the toy interpretation. *)
Local Notation "'at_toy' thm" :=
  (thm toy_conv2d toy_batch_norm toy_relu toy_add toy_pool toy_weight toy_bias
     toy_conv2d_batch toy_batch_norm_batch toy_relu_batch toy_add_batch
     toy_pool_batch toy_weight_rows toy_bias_length)
  (at level 10, thm at level 9, only parsing).

Lemma okddip_resnet32_unfold nets classes grp wpg rswd rng0 :
  okddip_resnet32 nets classes grp wpg rswd rng0
  = ResNet_init BasicBlock [5; 5; 5] nets classes grp wpg rswd rng0.
Proof. reflexivity. Qed.

(** [okddip_resnet32()] with its defaults: four branches, 100 classes. *)
Lemma default_network_builds :
  exists self,
    okddip_resnet32 4 100 1 64 None 0%nat = inr self /\
    well_formed self /\ number_net self = 4 /\ num_classes self = 100.
Proof.
  assert (Hex : exists self, okddip_resnet32 4 100 1 64 None 0%nat = inr self).
  { vm_compute. eexists. reflexivity. }
  destruct Hex as (self & H). exists self. split; [exact H|].
  rewrite okddip_resnet32_unfold in H.
  split; [eapply ResNet_init_well_formed; [exact H | lia]|].
  pose proof (ResNet_init_fields _ _ _ _ _ _ _ _ _ H) as (H1 & H2 & H3).
  split; assumption.
Qed.

(** C1, as stated, fails: the default network has [N = 4] branches and its
    [pro] and [x_m] have 3 slices, not 4. *)
Lemma default_network_stacks_three :
  exists self pro x_m out,
    okddip_resnet32 4 100 1 64 None 0%nat = inr self /\
    number_net self = 4 /\
    toy_forward self [1%R] = inr (pro, x_m, out) /\
    has_shape3 pro 1 100 3 /\ has_shape3 x_m 1 100 3 /\
    ~ has_shape3 pro 1 100 4 /\ ~ has_shape3 x_m 1 100 4.
Proof.
  destruct default_network_builds as (self & Hself & Hwf & Hn & Hc).
  pose proof ((at_toy forward_locals_ok) self [1%R] Hwf) as Hok. cbv zeta in Hok.
  destruct Hok as (l & _ & Hfwd & _ & Hpro & _ & _ & _ & _ & _ & Hxm & _).
  assert (Hk : stacked_count self = 3%nat)
    by (unfold stacked_count; rewrite Hn; reflexivity).
  rewrite Hk, Hc in Hpro, Hxm.
  change (Z.to_nat 100) with 100%nat in Hpro, Hxm.
  change (length [1%R]) with 1%nat in Hpro, Hxm.
  exists self, (pro (l_stacks l)), (x_m l), (temp_out l).
  split; [exact Hself|]. split; [exact Hn|]. split; [exact Hfwd|].
  split; [exact Hpro|]. split; [exact Hxm|]. split.
  - intros H4. pose proof (has_shape3_cols _ _ _ _ _ Hpro H4 ltac:(lia) ltac:(lia)). lia.
  - intros H4. pose proof (has_shape3_cols _ _ _ _ _ Hxm H4 ltac:(lia) ltac:(lia)). lia.
Qed.

Lemma forward_stack_shapes_witness :
  exists self pro x_m out,
    okddip_resnet32 4 100 1 64 None 0%nat = inr self /\
    toy_forward self [1%R; 2%R] = inr (pro, x_m, out) /\
    has_shape3 pro 2 100 3 /\ has_shape3 x_m 2 100 3.
Proof.
  destruct default_network_builds as (self & Hself & Hwf & Hn & Hc).
  destruct ((at_toy forward_stack_shapes) self [1%R; 2%R] Hwf ltac:(lia))
    as (pro & x_m & out & Hfwd & Hpro & Hxm & _).
  rewrite Hn, Hc in Hpro, Hxm.
  exists self, pro, x_m, out.
  split; [exact Hself|]. split; [exact Hfwd|]. split; [exact Hpro | exact Hxm].
Defined.

(** With the toy interpretation every stage is the identity, and a
    classifier's logits show its parameter handle. *)
Lemma toy_stage_id (l : Sequential) (x : list R) :
  Sequential_forward toy_conv2d toy_batch_norm toy_relu toy_add l x = x.
Proof.
  unfold Sequential_forward. revert x. induction l as [|b l IH]; intros x; simpl;
    [reflexivity|].
  rewrite IH. destruct b; reflexivity.
Qed.

Lemma toy_trunk_id (self : ResNet) (x : list R) :
  trunk toy_conv2d toy_batch_norm toy_relu toy_add self x = x.
Proof. unfold trunk. rewrite !toy_stage_id. reflexivity. Qed.

Lemma toy_logit_inv (self : ResNet) (i : Z) (x : list R) (logits : mat) :
  toy_logit self i x = inr logits ->
  exists c,
    attrs self !! classifier_name i = Some (MLinear c) /\
    logits = Linear_forward toy_weight toy_bias c (toy_pool x).
Proof.
  unfold toy_logit, branch_logit, tail. fold (layer3_name i) (classifier_name i).
  destruct (getattr_stage self (layer3_name i)) as [e|l]; [discriminate|]. simpl.
  unfold getattr_linear.
  destruct (attrs self !! classifier_name i) as [[l'|c]|]; try discriminate. simpl.
  intros [= <-]. exists c. rewrite toy_stage_id. split; reflexivity.
Qed.

Lemma toy_logit_entry (c : Linear) (a : R) :
  0 < out_features c -> has_bias c = true ->
  nth 0 (nth 0 (Linear_forward toy_weight toy_bias c (toy_pool [a])) []) 0%R
  = (a * INR (lin_param c))%R.
Proof.
  intros Hout Hb. unfold Linear_forward, toy_pool, toy_weight, toy_bias. simpl.
  rewrite Hb. destruct (Z.to_nat (out_features c)) as [|n] eqn:Hn; [lia|].
  simpl. unfold dot, sum. simpl. lra.
Qed.

(** The classifiers of two branches of a network have different
    parameters. *)
Definition distinct_classifiers (r : result ResNet) (i j : Z) : bool :=
  match r with
  | inr self =>
      match attrs self !! classifier_name i, attrs self !! classifier_name j with
      | Some (MLinear ci), Some (MLinear cj) =>
          negb (Nat.eqb (lin_param ci) (lin_param cj))
      | _, _ => false
      end
  | inl _ => false
  end.

Lemma default_classifiers_distinct :
  distinct_classifiers (okddip_resnet32 4 100 1 64 None 0%nat) 2 3 = true.
Proof. vm_compute. reflexivity. Qed.

(** C2, as stated, fails: on the default network ([N = 4]) [pro] has no
    slice 3; its last slice, slice 2, is branch 2's output, and the third
    returned value, branch 3's output, differs from it. *)
Lemma default_network_peer_not_stacked :
  exists self pro x_m out last,
    okddip_resnet32 4 100 1 64 None 0%nat = inr self /\
    number_net self = 4 /\
    toy_forward self [1%R] = inr (pro, x_m, out) /\
    slice_last pro 3 = None /\
    slice_last pro 2 = Some last /\
    last <> out.
Proof.
  destruct default_network_builds as (self & Hself & Hwf & Hn & Hc).
  pose proof ((at_toy forward_locals_ok) self [1%R] Hwf) as Hok. cbv zeta in Hok.
  destruct Hok as (l & _ & Hfwd & Hst & Hpro & _ & _ & _ & _ & _ & _ & Hout & _).
  assert (Hk : stacked_count self = 3%nat)
    by (unfold stacked_count; rewrite Hn; reflexivity).
  rewrite Hk, Hc in Hpro. rewrite Hk in Hst. rewrite Hn in Hout.
  destruct Hst as (_ & _ & _ & Hslices).
  destruct (Hslices 2%nat ltac:(lia)) as (feat & last & _ & Hlast & Hslice & _).
  rewrite toy_trunk_id in Hlast, Hout.
  apply toy_logit_inv in Hlast as (c2 & Hc2 & ->).
  apply toy_logit_inv in Hout as (c3 & Hc3 & Hout).
  exists self, (pro (l_stacks l)), (x_m l), (temp_out l),
    (Linear_forward toy_weight toy_bias c2 (toy_pool [1%R])).
  split; [exact Hself|]. split; [exact Hn|]. split; [exact Hfwd|].
  split; [eapply slice_last_beyond; [exact Hpro | simpl; lia | lia | lia]|].
  split; [exact Hslice|].
  rewrite Hout. intros Heq.
  pose proof default_classifiers_distinct as Hd. rewrite Hself in Hd.
  unfold distinct_classifiers in Hd.
  change (Z.of_nat 2) with 2 in Hc2. change (4 - 1) with 3 in Hc3.
  rewrite Hc2, Hc3 in Hd.
  destruct (wf_attrs self Hwf 2 ltac:(lia)) as (l2 & c2' & _ & Hc2' & Ho2 & Hb2).
  destruct (wf_attrs self Hwf 3 ltac:(lia)) as (l3 & c3' & _ & Hc3' & Ho3 & Hb3).
  rewrite Hc2 in Hc2'. injection Hc2' as <-. rewrite Hc3 in Hc3'. injection Hc3' as <-.
  pose proof (toy_logit_entry c2 1 ltac:(lia) Hb2) as He2.
  pose proof (toy_logit_entry c3 1 ltac:(lia) Hb3) as He3.
  rewrite Heq, He3 in He2.
  assert (Hp : lin_param c3 = lin_param c2) by (apply INR_eq; lra).
  rewrite Hp, Nat.eqb_refl in Hd. discriminate Hd.
Qed.

Lemma peer_output_last_branch_witness :
  exists self pro x_m out,
    okddip_resnet32 4 100 1 64 None 0%nat = inr self /\
    toy_forward self [1%R] = inr (pro, x_m, out) /\
    toy_logit self 3 (trunk toy_conv2d toy_batch_norm toy_relu toy_add self [1%R]) = inr out /\
    slice_last pro 3 = None.
Proof.
  destruct default_network_builds as (self & Hself & Hwf & Hn & Hc).
  destruct ((at_toy peer_output_last_branch) self [1%R] Hwf)
    as (pro & x_m & out & Hfwd & Hout & _ & Hnone & _).
  rewrite Hn in Hout, Hnone.
  exists self, pro, x_m, out.
  split; [exact Hself|]. split; [exact Hfwd|]. split; [exact Hout|].
  apply Hnone; [lia | simpl; lia | lia].
Defined.

Lemma attention_rows_sum_to_one_witness :
  exists self l,
    okddip_resnet32 4 100 1 64 None 0%nat = inr self /\
    toy_locals self [1%R; 2%R] = inr l /\
    has_shape3 (attention l) 2 3 3 /\
    forall b i m row, attention l !! b = Some m -> m !! i = Some row -> sum row = 1%R.
Proof.
  destruct default_network_builds as (self & Hself & Hwf & Hn & Hc).
  destruct ((at_toy attention_rows_sum_to_one) self [1%R; 2%R] Hwf)
    as (l & Hloc & _ & _ & Hshape & Hrows).
  assert (Hk : stacked_count self = 3%nat)
    by (unfold stacked_count; rewrite Hn; reflexivity).
  rewrite Hk in Hshape.
  exists self, l. split; [exact Hself|]. split; [exact Hloc|]. split; [exact Hshape|].
  intros b i m row Hm Hrow. exact (proj1 (Hrows b i m row Hm Hrow)).
Defined.

Lemma fused_output_weighted_sum_witness :
  exists self l,
    okddip_resnet32 4 100 1 64 None 0%nat = inr self /\
    toy_locals self [1%R; 2%R] = inr l /\
    x_m l = bmm (pro (l_stacks l)) (permute_021 (attention l)).
Proof.
  destruct default_network_builds as (self & Hself & Hwf & Hn & Hc).
  destruct ((at_toy fused_output_weighted_sum) self [1%R; 2%R] Hwf)
    as (l & Hloc & _ & Hxm & _).
  exists self, l. split; [exact Hself|]. split; [exact Hloc | exact Hxm].
Defined.

Lemma shared_projections_witness :
  exists self l feat,
    okddip_resnet32 4 100 1 64 None 0%nat = inr self /\
    toy_locals self [1%R; 2%R] = inr l /\
    tail toy_conv2d toy_batch_norm toy_relu toy_add toy_pool self 2
      (trunk toy_conv2d toy_batch_norm toy_relu toy_add self [1%R; 2%R]) = inr feat /\
    slice_axis1 (proj_q (l_stacks l)) 2
    = Some (Linear_forward toy_weight toy_bias (query_weight self) feat) /\
    slice_axis1 (proj_k (l_stacks l)) 2
    = Some (Linear_forward toy_weight toy_bias (key_weight self) feat).
Proof.
  destruct default_network_builds as (self & Hself & Hwf & Hn & Hc).
  destruct ((at_toy shared_projections) self [1%R; 2%R] Hwf)
    as (l & Hloc & _ & _ & Hslices).
  destruct (Hslices 2%nat) as (feat & Hfeat & Hq & Hk).
  { unfold stacked_count. rewrite Hn. simpl. lia. }
  exists self, l, feat.
  split; [exact Hself|]. split; [exact Hloc|]. split; [exact Hfeat|].
  split; [exact Hq | exact Hk].
Defined.

(** The third stage of a branch of the default network: its first block
    halves the resolution and doubles the channels, so it alone carries a
    shortcut projection. *)
Lemma make_layer_shortcut_witness :
  exists layer s',
    _make_layer BasicBlock 64 5 2 false (mkSelf 32 1 1 64 0) = inr (layer, s') /\
    length layer = 5%nat /\
    Forall (fun b => is_Some (block_downsample b) <->
                     block_stride b ≠ 1 \/ block_inplanes b ≠ 64 * expansion BasicBlock)
      layer.
Proof.
  assert (Hex : exists layer s',
             _make_layer BasicBlock 64 5 2 false (mkSelf 32 1 1 64 0) = inr (layer, s')).
  { vm_compute. eexists. eexists. reflexivity. }
  destruct Hex as (layer & s' & Hmk). exists layer, s'. split; [exact Hmk|].
  split.
  - apply make_layer_inv in Hmk as (first & rest & -> & Hlen & _). simpl. rewrite Hlen.
    reflexivity.
  - destruct (make_layer_shortcut toy_conv2d toy_batch_norm toy_relu toy_add
                BasicBlock 64 5 2 false (mkSelf 32 1 1 64 0) layer s' Hmk) as [_ Hall].
    eapply Forall_impl; [exact Hall|]. intros b Hb. exact (proj1 Hb).
Defined.

End ForwardExamples.

(** ** Facts about the training script *)

Module TrainFacts.
Import Py Train.

(** The number of milestones at or below [epoch]. *)
Definition milestones_passed (ms : list Z) (epoch : Z) : nat :=
  length (filter (fun m => (m <= epoch)%Z) ms).

(** Sortedness, read by index. *)
Lemma sorted_nth (a : list Z) :
  Sorted Z.le a ->
  forall i j, (i <= j < length a)%nat -> (nth i a 0 <= nth j a 0)%Z.
Proof.
  intros Hs. apply Sorted_StronglySorted in Hs; [|intros x y z; lia].
  induction Hs as [|x l Hl IH Hx]; intros i j Hij; simpl in *; [lia|].
  destruct i as [|i], j as [|j]; try lia.
  - rewrite Forall_forall in Hx. apply Hx, list_elem_of_In, nth_In. lia.
  - apply IH. lia.
Qed.

(** The loop keeps "everything left of [lo] is at most [x], everything
    from [hi] on is above [x]" and ends where the two meet. *)
Lemma bisect_loop_split (a : list Z) (x : Z) (lo hi : nat) :
  Sorted Z.le a ->
  (lo <= hi <= length a)%nat ->
  (forall j, (j < lo)%nat -> (nth j a 0 <= x)%Z) ->
  (forall j, (hi <= j < length a)%nat -> (x < nth j a 0)%Z) ->
  let r := bisect_loop a x lo hi in
  (r <= length a)%nat /\
  (forall j, (j < r)%nat -> (nth j a 0 <= x)%Z) /\
  (forall j, (r <= j < length a)%nat -> (x < nth j a 0)%Z).
Proof.
  intros Hs. funelim (bisect_loop a x lo hi); intros Hb Hlo Hhi; simpl.
  - repeat split; [lia|auto|]. intros j Hj. apply Hhi. lia.
  - apply H; auto.
    + pose proof (Nat.div_mod_eq (lo + hi) 2);
        pose proof (Nat.mod_upper_bound (lo + hi) 2 ltac:(lia)); lia.
    + intros j Hj. destruct (decide (hi <= j)%nat); [apply Hhi; lia|].
      pose proof (sorted_nth a Hs ((lo + hi) / 2) j).
      pose proof (Nat.div_mod_eq (lo + hi) 2);
        pose proof (Nat.mod_upper_bound (lo + hi) 2 ltac:(lia)); lia.
  - apply H; auto.
    + pose proof (Nat.div_mod_eq (lo + hi) 2);
        pose proof (Nat.mod_upper_bound (lo + hi) 2 ltac:(lia)); lia.
    + intros j Hj. destruct (decide (j < lo)%nat); [apply Hlo; lia|].
      pose proof (sorted_nth a Hs j ((lo + hi) / 2)).
      pose proof (Nat.div_mod_eq (lo + hi) 2);
        pose proof (Nat.mod_upper_bound (lo + hi) 2 ltac:(lia)); lia.
Qed.

(** A list split at [r] into entries at most [x] and entries above [x]
    has exactly [r] entries at most [x]. *)
Lemma passed_of_split (a : list Z) (x : Z) (r : nat) :
  (r <= length a)%nat ->
  (forall j, (j < r)%nat -> (nth j a 0 <= x)%Z) ->
  (forall j, (r <= j < length a)%nat -> (x < nth j a 0)%Z) ->
  milestones_passed a x = r.
Proof.
  unfold milestones_passed. revert r.
  induction a as [|m a IH]; intros r Hr Hle Hgt; simpl in *; [lia|].
  destruct r as [|r].
  - pose proof (Hgt 0%nat ltac:(lia)) as H0. simpl in H0.
    rewrite filter_cons_False by lia.
    apply (IH 0%nat); [lia| intros; lia |].
    intros j Hj. apply (Hgt (S j)). lia.
  - pose proof (Hle 0%nat ltac:(lia)) as H0. simpl in H0.
    rewrite filter_cons_True by lia. simpl. f_equal.
    apply IH; [lia| |].
    + intros j Hj. apply (Hle (S j)). lia.
    + intros j Hj. apply (Hgt (S j)). lia.
Qed.

Lemma bisect_right_passed (a : list Z) (x : Z) :
  Sorted Z.le a -> bisect_right a x = milestones_passed a x.
Proof.
  intros Hs. symmetry. unfold bisect_right.
  destruct (bisect_loop_split a x 0 (length a) Hs) as (H1 & H2 & H3);
    [lia | intros; lia | intros; lia |].
  apply passed_of_split; auto.
Qed.


(** [int] of a non-negative float is its floor. *)
Lemma py_int_floor (r : R) (z : Z) :
  IZR z <= r < IZR z + 1 -> (0 <= z)%Z -> py_int r = z.
Proof.
  intros [Hl Hu] Hz. unfold py_int.
  assert (0 <= r) by (apply IZR_le in Hz; lra).
  destruct (Rle_dec 0 r); [|lra].
  symmetry. apply Int_part_spec. lra.
Qed.

Section ScriptFacts.
Context {Weights Buffers : Type}.
Context (run_batches : Z -> Weights -> Optimizer Buffers -> Weights * Optimizer Buffers).
Context (test : Z -> Weights -> Q).
Context (model_name : string).

Implicit Types (args : Args) (optimizer : Optimizer Buffers) (epoch : Z).

Lemma set_lr_all (cur_lr : R) (gs : list param_group) :
  Forall (fun g => lr g = cur_lr) (map (set_lr cur_lr) gs).
Proof. induction gs; simpl; constructor; auto. Qed.

(** C7: under the multistep schedule with milestones in ascending order,
    [adjust_lr] returns, and sets in every parameter group,
    [init_lr * 0.1 ^ k], where [k] is the number of milestones at or below
    the epoch. *)
Theorem adjust_lr_multistep args optimizer epoch (eta_max eta_min : R) :
  lr_type args = "multistep" ->
  Sorted Z.le (milestones args) ->
  exists optimizer',
    adjust_lr args optimizer epoch eta_max eta_min
      = inr (optimizer', init_lr args * 0.1 ^ milestones_passed (milestones args) epoch)
    /\ Forall (fun g => lr g = init_lr args * 0.1 ^ milestones_passed (milestones args) epoch)
         (param_groups optimizer')
    /\ length (param_groups optimizer') = length (param_groups optimizer).
Proof.
  intros Hty Hs. unfold adjust_lr. rewrite Hty.
  destruct (decide ("multistep" = "SGDR")) as [Hd|_]; [discriminate Hd|].
  destruct (decide ("multistep" = "multistep")) as [_|Hd]; [|contradiction].
  rewrite (bisect_right_passed _ _ Hs). simpl.
  eexists. split; [reflexivity|]. simpl. split.
  - apply set_lr_all.
  - apply length_map.
Qed.

(** The rate of the SGDR schedule in cycle [i]. *)
Definition sgdr_rate (t epoch i : Z) (eta_max eta_min : R) : R :=
  eta_min + 0.5 * (eta_max - eta_min) *
    (1 + cos (PI * (IZR epoch - IZR t * (powerRZ 2 i - 1)) / (IZR t * powerRZ 2 i))).

(** The cycle index [int(math.log2(epoch / sgdr_t + 1))]. *)
Definition sgdr_cycle (t epoch : Z) : Z :=
  py_int (ln (IZR epoch / IZR t + 1) / ln 2).

(** Under SGDR with a positive cycle length [adjust_lr] returns, and the
    rate is a function of the epoch, the cycle length and the two bounds. *)
Lemma adjust_lr_sgdr args epoch optimizer (eta_max eta_min : R) :
  lr_type args = "SGDR" ->
  (0 < sgdr_t args)%Z -> (0 <= epoch)%Z ->
  adjust_lr args optimizer epoch eta_max eta_min
  = inr (mkOptimizer
           (map (set_lr (sgdr_rate (sgdr_t args) epoch (sgdr_cycle (sgdr_t args) epoch)
                           eta_max eta_min))
                (param_groups optimizer))
           (buffers optimizer),
         sgdr_rate (sgdr_t args) epoch (sgdr_cycle (sgdr_t args) epoch) eta_max eta_min).
Proof.
  intros Hty Ht He. unfold adjust_lr. rewrite Hty.
  destruct (decide ("SGDR" = "SGDR")) as [_|Hd]; [|contradiction].
  destruct (decide (sgdr_t args = 0%Z)); [lia|].
  assert (0 <= IZR epoch / IZR (sgdr_t args)).
  { apply Rmult_le_pos; [apply IZR_le; lia|].
    apply Rlt_le, Rinv_0_lt_compat, IZR_lt; lia. }
  destruct (Rle_dec _ _); [lra|].
  reflexivity.
Qed.

(** Whatever it does, under SGDR [adjust_lr] reads of [args] only the
    cycle length. *)
Lemma adjust_lr_sgdr_reads args1 args2 epoch optimizer (eta_max eta_min : R) :
  lr_type args1 = "SGDR" -> lr_type args2 = "SGDR" ->
  sgdr_t args1 = sgdr_t args2 ->
  adjust_lr args1 optimizer epoch eta_max eta_min
  = adjust_lr args2 optimizer epoch eta_max eta_min.
Proof.
  intros H1 H2 Ht. unfold adjust_lr. rewrite H1, H2, Ht. reflexivity.
Qed.

(** The two runs of [train]'s call at epoch 150: cycle length 300 against
    cycle length 150. *)
Lemma log2_of_1_5 : 0 <= ln (IZR 150 / IZR 300 + 1) / ln 2 < 1.
Proof.
  assert (H2 : 0 < ln 2) by (pose proof ln_lt_2; lra).
  assert (Hx : IZR 150 / IZR 300 + 1 = 3 / 2) by lra.
  rewrite Hx.
  assert (0 < ln (3 / 2)) by (rewrite <- ln_1; apply ln_increasing; lra).
  assert (ln (3 / 2) < ln 2) by (apply ln_increasing; lra).
  split.
  - apply Rlt_le, Rdiv_lt_0_compat; lra.
  - apply Rmult_lt_reg_r with (ln 2); [lra|]. field_simplify; lra.
Qed.

Lemma log2_of_2 : ln (IZR 150 / IZR 150 + 1) / ln 2 = 1.
Proof.
  assert (H2 : 0 < ln 2) by (pose proof ln_lt_2; lra).
  replace (IZR 150 / IZR 150 + 1) with 2 by lra. field. lra.
Qed.

(** The two checkpoint files are different files. *)
Lemma best_path_ne : best_path model_name <> ckpt_path model_name.
Proof.
  unfold best_path, ckpt_path. intros H.
  apply (inj (String.append _)) in H.
  apply (inj (String.append _)) in H.
  discriminate H.
Qed.

(** One epoch: when [train] returns, so does the body; the checkpoint of
    this epoch is at the fixed path, and the best path and [best_acc]
    change exactly when the accuracy beat [best_acc]. *)
Lemma epoch_body_spec args epoch (w : world Weights Buffers) optimizer net' optimizer' :
  train run_batches args epoch (net w) optimizer = inr (net', optimizer') ->
  let acc := test epoch net' in
  let state := mkCheckpoint net' acc epoch optimizer' in
  exists w',
    epoch_body run_batches test model_name args epoch (w, optimizer) = inr (w', optimizer')
    /\ net w' = net'
    /\ files w' !! ckpt_path model_name = Some state
    /\ ((best_acc w < acc)%Q ->
        files w' !! best_path model_name = Some state /\ best_acc w' = acc)
    /\ (~ (best_acc w < acc)%Q ->
        files w' !! best_path model_name = files w !! best_path model_name
        /\ best_acc w' = best_acc w)
    /\ (best_acc w <= best_acc w')%Q.
Proof.
  intros Htrain acc state. unfold epoch_body. simpl. rewrite Htrain. simpl.
  fold acc. fold state.
  destruct (Qlt_le_dec (best_acc w) acc) as [Hlt|Hge].
  - unfold copyfile. rewrite lookup_insert_eq. simpl.
    eexists. split; [reflexivity|]. simpl.
    split; [reflexivity|]. split.
    { rewrite lookup_insert_ne by apply best_path_ne. apply lookup_insert_eq. }
    split; [intros _; split; [apply lookup_insert_eq | reflexivity]|].
    split; [intros Hn; contradiction|].
    apply Qlt_le_weak, Hlt.
  - simpl. eexists. split; [reflexivity|]. simpl.
    split; [reflexivity|]. split; [apply lookup_insert_eq|].
    split; [intros Hlt; exfalso; apply (Qlt_not_le _ _ Hlt), Hge|].
    split; [intros _; split; [|reflexivity]|apply Qle_refl].
    apply lookup_insert_ne. intros Heq. apply best_path_ne. symmetry. exact Heq.
Qed.

(** A raising [train] makes the body raise: no checkpoint is written. *)
Lemma epoch_body_raises args epoch (w : world Weights Buffers) optimizer e :
  train run_batches args epoch (net w) optimizer = inl e ->
  epoch_body run_batches test model_name args epoch (w, optimizer) = inl e.
Proof. intros H. unfold epoch_body. simpl. rewrite H. reflexivity. Qed.

Lemma epoch_body_inv args epoch (st st' : world Weights Buffers * Optimizer Buffers) :
  epoch_body run_batches test model_name args epoch st = inr st' ->
  train run_batches args epoch (net st.1) st.2 = inr (net st'.1, st'.2).
Proof.
  destruct st as [w o]. simpl. intros H.
  destruct (train run_batches args epoch (net w) o) as [e|[n' o']] eqn:Ht.
  - rewrite (epoch_body_raises _ _ _ _ _ Ht) in H. discriminate.
  - destruct (epoch_body_spec _ _ _ _ _ _ Ht) as (w' & Hb & Hn & _).
    rewrite Hb in H. injection H as <-. simpl. rewrite Hn. reflexivity.
Qed.

(** A loop of [n] epochs that returns ran its first [k] epochs, then the
    remaining ones. *)
Lemma epoch_loop_split args (n k : nat) start st st' :
  epoch_loop run_batches test model_name args start n st = inr st' ->
  (k <= n)%nat ->
  exists stk,
    epoch_loop run_batches test model_name args start k st = inr stk /\
    epoch_loop run_batches test model_name args (start + Z.of_nat k) (n - k) stk = inr st'.
Proof.
  revert n start st. induction k as [|k IH]; intros n start st Hloop Hk.
  - exists st. split; [reflexivity|].
    replace (start + Z.of_nat 0)%Z with start by lia.
    replace (n - 0)%nat with n by lia. exact Hloop.
  - destruct n as [|n]; [lia|]. simpl in Hloop.
    destruct (epoch_body run_batches test model_name args start st) as [e|st1] eqn:Hb;
      [discriminate|].
    simpl in Hloop. destruct (IH n (start + 1)%Z st1 Hloop ltac:(lia)) as (stk & H1 & H2).
    exists stk. split.
    + simpl. rewrite Hb. simpl. exact H1.
    + replace (start + Z.of_nat (S k))%Z with (start + 1 + Z.of_nat k)%Z by lia. exact H2.
Qed.

Lemma epoch_loop_best_acc args (n : nat) start st st' :
  epoch_loop run_batches test model_name args start n st = inr st' ->
  (best_acc st.1 <= best_acc st'.1)%Q.
Proof.
  revert start st. induction n as [|n IH]; intros start st Hloop; simpl in Hloop.
  - injection Hloop as <-. apply Qle_refl.
  - destruct (epoch_body run_batches test model_name args start st) as [e|st1] eqn:Hb;
      [discriminate|].
    simpl in Hloop. apply Qle_trans with (best_acc st1.1); [|eapply IH; eauto].
    destruct st as [w o]. pose proof (epoch_body_inv _ _ _ _ Hb) as Ht. simpl in Ht.
    destruct (epoch_body_spec _ _ _ _ _ _ Ht) as (w' & Hb' & _ & _ & _ & _ & Hle).
    rewrite Hb' in Hb. injection Hb as <-. exact Hle.
Qed.

(** Under the multistep schedule nothing in the loop raises. *)
Lemma train_multistep_returns args epoch (net0 : Weights) optimizer :
  lr_type args = "multistep" ->
  exists r, train run_batches args epoch net0 optimizer = inr r.
Proof.
  intros Hty. unfold train, train_lr, adjust_lr. rewrite Hty.
  destruct (decide ("multistep" = "SGDR")) as [Hd|_]; [discriminate Hd|].
  destruct (decide ("multistep" = "multistep")) as [_|Hd]; [|contradiction].
  simpl. eexists. reflexivity.
Qed.

Lemma epoch_loop_multistep_returns args (n : nat) start st :
  lr_type args = "multistep" ->
  exists st', epoch_loop run_batches test model_name args start n st = inr st'.
Proof.
  intros Hty. revert start st. induction n as [|n IH]; intros start [w o]; simpl.
  - eexists. reflexivity.
  - destruct (train_multistep_returns args start (net w) o Hty) as ([n' o'] & Ht).
    destruct (epoch_body_spec _ _ _ _ _ _ Ht) as (w' & Hb & _).
    rewrite Hb. simpl. apply IH.
Qed.

(** C8: in a run of the epoch loop, every epoch [start + k] trains, tests,
    writes the checkpoint [{net, acc, epoch, optimizer}] of that epoch to
    the fixed path, and copies it to the best path exactly when its
    accuracy is strictly above the best accuracy so far, which then becomes
    that accuracy and otherwise stays; the best accuracy never decreases. *)
Theorem epoch_loop_checkpoints args (n : nat) start st st' :
  epoch_loop run_batches test model_name args start n st = inr st' ->
  (best_acc st.1 <= best_acc st'.1)%Q /\
  forall k, (k < n)%nat ->
    let epoch := (start + Z.of_nat k)%Z in
    exists w optimizer net' optimizer' w',
      epoch_loop run_batches test model_name args start k st = inr (w, optimizer)
      /\ train run_batches args epoch (net w) optimizer = inr (net', optimizer')
      /\ epoch_body run_batches test model_name args epoch (w, optimizer)
         = inr (w', optimizer')
      /\ files w' !! ckpt_path model_name
         = Some (mkCheckpoint net' (test epoch net') epoch optimizer')
      /\ ((best_acc w < test epoch net')%Q ->
          files w' !! best_path model_name
          = Some (mkCheckpoint net' (test epoch net') epoch optimizer')
          /\ best_acc w' = test epoch net')
      /\ (~ (best_acc w < test epoch net')%Q ->
          files w' !! best_path model_name = files w !! best_path model_name
          /\ best_acc w' = best_acc w)
      /\ (best_acc st.1 <= best_acc w)%Q
      /\ (best_acc w <= best_acc w')%Q.
Proof.
  intros Hloop. split; [eapply epoch_loop_best_acc; eauto|].
  intros k Hk epoch.
  destruct (epoch_loop_split _ _ k _ _ _ Hloop ltac:(lia)) as ([w o] & Hk1 & Hk2).
  destruct (n - k)%nat as [|m] eqn:Hm; [lia|]. simpl in Hk2.
  fold epoch in Hk2.
  destruct (epoch_body run_batches test model_name args epoch (w, o)) as [e|[w' o']] eqn:Hb;
    [discriminate|].
  pose proof (epoch_body_inv _ _ _ _ Hb) as Ht. simpl in Ht.
  destruct (epoch_body_spec _ _ _ _ _ _ Ht) as (w2 & Hb2 & Hn & Hf & Hbest & Hkeep & Hle).
  rewrite Hb in Hb2. injection Hb2 as <-.
  exists w, o, (net w'), o', w'.
  split; [exact Hk1|]. split; [exact Ht|]. split; [exact Hb|].
  split; [exact Hf|]. split; [exact Hbest|]. split; [exact Hkeep|].
  split; [|exact Hle].
  apply (epoch_loop_best_acc _ _ _ _ _ Hk1).
Qed.

End ScriptFacts.

(** An SGD optimizer as [main] creates it, and two command lines. *)
Definition sgd : Optimizer unit := mkOptimizer [mkGroup 0.1 0.9 0.0005 true] tt.

Definition sgdr_args (t : Z) (lr0 : R) : Args :=
  mkArgs lr0 "SGDR" [150; 225]%Z t 300 false false.

Definition multistep_args (ms : list Z) (lr0 : R) : Args :=
  mkArgs lr0 "multistep" ms 300 300 false false.

Lemma cycle_150_of_300 : sgdr_cycle 300 150 = 0%Z.
Proof.
  unfold sgdr_cycle. apply py_int_floor; [|lia].
  pose proof log2_of_1_5. simpl. lra.
Qed.

Lemma cycle_150_of_150 : sgdr_cycle 150 150 = 1%Z.
Proof.
  unfold sgdr_cycle. rewrite log2_of_2. apply py_int_floor; [|lia].
  simpl. lra.
Qed.

Lemma rate_150_of_300 : sgdr_rate 300 150 0 0.1 0 = 0.05.
Proof.
  unfold sgdr_rate. simpl powerRZ.
  replace (PI * (IZR 150 - IZR 300 * (1 - 1)) / (IZR 300 * 1)) with (PI / 2) by lra.
  rewrite cos_PI2. lra.
Qed.

Lemma rate_150_of_150 : sgdr_rate 150 150 1 0.1 0 = 0.1.
Proof.
  unfold sgdr_rate. simpl powerRZ.
  replace (PI * (IZR 150 - IZR 150 * (2 * 1 - 1)) / (IZR 150 * (2 * 1))) with 0 by lra.
  rewrite cos_0. lra.
Qed.

(** C10, as stated, fails: with the same epoch, the same [init_lr] and the
    default bounds, [--sgdr-t 300] gives 0.05 at epoch 150 and
    [--sgdr-t 150] gives 0.1. *)
Lemma train_lr_depends_on_sgdr_t :
  (exists o, train_lr (sgdr_args 300 0.1) sgd 150 = inr (o, 0.05)) /\
  (exists o, train_lr (sgdr_args 150 0.1) sgd 150 = inr (o, 0.1)) /\
  0.05 <> 0.1.
Proof.
  split; [|split; [|lra]].
  - unfold train_lr. rewrite adjust_lr_sgdr by (simpl; (reflexivity || lia)).
    simpl sgdr_t. rewrite cycle_150_of_300, rate_150_of_300. eexists; reflexivity.
  - unfold train_lr. rewrite adjust_lr_sgdr by (simpl; (reflexivity || lia)).
    simpl sgdr_t. rewrite cycle_150_of_150, rate_150_of_150. eexists; reflexivity.
Qed.

(** C10, amended: under SGDR the rate [train] sets is that of [adjust_lr]
    at the defaults [eta_max = 0.1], [eta_min = 0]; it is the same for any
    two command lines with the same cycle length [sgdr_t], whatever their
    [init_lr] (and milestones); and for a positive cycle length and a
    non-negative epoch it is the cosine rate of that epoch's cycle. *)
Theorem train_lr_sgdr {Buffers : Type} (args1 args2 : Args)
    (optimizer : Optimizer Buffers) (epoch : Z) :
  lr_type args1 = "SGDR" -> lr_type args2 = "SGDR" ->
  sgdr_t args1 = sgdr_t args2 ->
  train_lr args1 optimizer epoch = train_lr args2 optimizer epoch /\
  train_lr args1 optimizer epoch = adjust_lr args1 optimizer epoch 0.1 0 /\
  ((0 < sgdr_t args1)%Z -> (0 <= epoch)%Z ->
   exists optimizer',
     train_lr args1 optimizer epoch
     = inr (optimizer',
            0.05 * (1 + cos (PI * (IZR epoch - IZR (sgdr_t args1) *
                                     (powerRZ 2 (sgdr_cycle (sgdr_t args1) epoch) - 1))
                             / (IZR (sgdr_t args1) *
                                  powerRZ 2 (sgdr_cycle (sgdr_t args1) epoch))))) /\
     Forall (fun g => lr g =
            0.05 * (1 + cos (PI * (IZR epoch - IZR (sgdr_t args1) *
                                     (powerRZ 2 (sgdr_cycle (sgdr_t args1) epoch) - 1))
                             / (IZR (sgdr_t args1) *
                                  powerRZ 2 (sgdr_cycle (sgdr_t args1) epoch)))))
       (param_groups optimizer')).
Proof.
  intros H1 H2 Ht. split; [|split].
  - unfold train_lr. apply adjust_lr_sgdr_reads; assumption.
  - reflexivity.
  - intros Hpos He. unfold train_lr. rewrite adjust_lr_sgdr by assumption.
    set (t := sgdr_t args1). set (i := sgdr_cycle t epoch).
    assert (Hr : sgdr_rate t epoch i 0.1 0
                 = 0.05 * (1 + cos (PI * (IZR epoch - IZR t * (powerRZ 2 i - 1))
                                    / (IZR t * powerRZ 2 i)))).
    { unfold sgdr_rate. lra. }
    rewrite Hr. eexists. split; [reflexivity|]. simpl. apply set_lr_all.
Qed.

Lemma train_lr_sgdr_witness :
  train_lr (sgdr_args 300 0.1) sgd 7 = train_lr (sgdr_args 300 0.01) sgd 7 /\
  exists optimizer',
    train_lr (sgdr_args 300 0.1) sgd 7
    = inr (optimizer',
           0.05 * (1 + cos (PI * (IZR 7 - IZR 300 * (powerRZ 2 (sgdr_cycle 300 7) - 1))
                            / (IZR 300 * powerRZ 2 (sgdr_cycle 300 7))))).
Proof.
  destruct (train_lr_sgdr (sgdr_args 300 0.1) (sgdr_args 300 0.01) sgd 7
              eq_refl eq_refl eq_refl) as (Hsame & _ & Hrate).
  split; [exact Hsame|].
  destruct Hrate as (o & Ho & _); [reflexivity | discriminate |].
  exists o. exact Ho.
Defined.

Lemma adjust_lr_multistep_witness :
  exists optimizer',
    adjust_lr (multistep_args [150; 225]%Z 0.1) sgd 200 0.1 0
    = inr (optimizer', 0.1 * 0.1 ^ 1) /\
    Forall (fun g => lr g = 0.1 * 0.1 ^ 1) (param_groups optimizer') /\
    length (param_groups optimizer') = length (param_groups sgd).
Proof.
  apply (adjust_lr_multistep (multistep_args [150; 225]%Z 0.1) sgd 200 0.1 0 eq_refl).
  repeat (constructor; try lia).
Defined.

(** A run of two epochs in which a training epoch adds one to the
    "weights" and the accuracy is a tenth of them. *)
Definition toy_batches (epoch : Z) (w : nat) (o : Optimizer unit) : nat * Optimizer unit :=
  (S w, o).

Definition toy_test (epoch : Z) (w : nat) : Q := (Z.of_nat w # 10)%Q.

Definition toy_world : world nat unit := mkWorld 0%nat 0%Q 0%Z ∅ ∅.

Lemma epoch_loop_checkpoints_witness :
  exists st',
    epoch_loop toy_batches toy_test "okddip_resnet32"
      (multistep_args [150; 225]%Z 0.1) 0 2 (toy_world, sgd) = inr st' /\
    (0 <= best_acc st'.1)%Q.
Proof.
  destruct (epoch_loop_multistep_returns toy_batches toy_test "okddip_resnet32"
              (multistep_args [150; 225]%Z 0.1) 2 0%Z (toy_world, sgd) eq_refl)
    as (st' & Hrun).
  exists st'. split; [exact Hrun|].
  exact (proj1 (epoch_loop_checkpoints toy_batches toy_test "okddip_resnet32"
                  (multistep_args [150; 225]%Z 0.1) 2 0%Z (toy_world, sgd) st' Hrun)).
Defined.

(** The ascending order is what makes the binary search count: on
    [[225, 150]], with one milestone at or below epoch 160, [bisect_right]
    answers 2. No command line produces such a list: the parser's default
    is [[150, 225]], and [type=list] splits a given argument into its
    characters. *)
Remark bisect_right_unsorted :
  bisect_right [225; 150]%Z 160 = 2%nat /\
  milestones_passed [225; 150]%Z 160 = 1%nat.
Proof. split; reflexivity. Qed.

End TrainFacts.

(** ** More on the learning-rate schedules *)

Module ScheduleFacts.
Import Py Train TrainFacts.

(** The search stays between its two bounds, on any list. *)
Lemma bisect_loop_bounds (a : list Z) (x : Z) (lo hi : nat) :
  (lo <= hi)%nat -> (lo <= bisect_loop a x lo hi <= hi)%nat.
Proof.
  funelim (bisect_loop a x lo hi); intros Hb.
  - lia.
  - pose proof (Nat.div_mod_eq (lo + hi) 2);
      pose proof (Nat.mod_upper_bound (lo + hi) 2 ltac:(lia)).
    specialize (H ltac:(lia)). lia.
  - pose proof (Nat.div_mod_eq (lo + hi) 2);
      pose proof (Nat.mod_upper_bound (lo + hi) 2 ltac:(lia)).
    specialize (H ltac:(lia)). lia.
Qed.

Lemma bisect_right_le_length (a : list Z) (x : Z) :
  (bisect_right a x <= length a)%nat.
Proof. unfold bisect_right. pose proof (bisect_loop_bounds a x 0 (length a)). lia. Qed.

Lemma milestones_passed_mono (ms : list Z) (e1 e2 : Z) :
  (e1 <= e2)%Z -> (milestones_passed ms e1 <= milestones_passed ms e2)%nat.
Proof.
  intros He. unfold milestones_passed.
  induction ms as [|m ms IH]; simpl; [lia|].
  destruct (decide (m <= e1)%Z).
  - rewrite !filter_cons_True by lia. simpl. lia.
  - rewrite (filter_cons_False (fun m => (m <= e1)%Z)) by lia.
    destruct (decide (m <= e2)%Z).
    + rewrite filter_cons_True by lia. simpl. lia.
    + rewrite filter_cons_False by lia. lia.
Qed.

Lemma milestones_passed_none (ms : list Z) (e : Z) :
  Forall (fun m => (e < m)%Z) ms -> milestones_passed ms e = 0%nat.
Proof.
  unfold milestones_passed. induction 1 as [|m ms Hm _ IH]; [reflexivity|].
  rewrite filter_cons_False by lia. exact IH.
Qed.

Lemma pow_tenth_antitone (j k : nat) : (j <= k)%nat -> 0.1 ^ k <= 0.1 ^ j.
Proof.
  intros H. replace k with (j + (k - j))%nat by lia. rewrite pow_add.
  assert (0 <= 0.1 ^ j) by (apply pow_le; lra).
  assert (0.1 ^ (k - j) <= 1).
  { rewrite <- (pow1 (k - j)). apply pow_incr. lra. }
  nra.
Qed.

(** The cycle index of an epoch: the epoch lies in cycle [i], which starts
    at [t * (2^i - 1)] and is [t * 2^i] epochs long. *)
Lemma sgdr_cycle_bounds (t epoch : Z) :
  (0 < t)%Z -> (0 <= epoch)%Z ->
  let i := sgdr_cycle t epoch in
  (0 <= i)%Z /\
  powerRZ 2 i <= IZR epoch / IZR t + 1 < powerRZ 2 (i + 1).
Proof.
  intros Ht He i.
  assert (Htr : 0 < IZR t) by (apply IZR_lt; lia).
  assert (Her : 0 <= IZR epoch) by (apply IZR_le; lia).
  assert (H2 : 0 < ln 2) by (rewrite <- ln_1; apply ln_increasing; lra).
  set (x := IZR epoch / IZR t + 1).
  assert (Hx : 1 <= x).
  { unfold x. assert (0 <= IZR epoch / IZR t); [|lra].
    apply Rmult_le_pos; [lra|]. apply Rlt_le, Rinv_0_lt_compat. lra. }
  assert (Hlx : 0 <= ln x).
  { rewrite <- ln_1. destruct (Req_dec x 1) as [->|]; [lra|].
    apply Rlt_le, ln_increasing; lra. }
  set (y := ln x / ln 2).
  assert (Hy : 0 <= y).
  { unfold y. apply Rmult_le_pos; [lra|]. apply Rlt_le, Rinv_0_lt_compat. lra. }
  assert (Hi : i = Int_part y).
  { unfold i, sgdr_cycle, py_int. fold x. fold y.
    destruct (Rle_dec 0 y); [reflexivity|lra]. }
  destruct (base_Int_part y) as [Hlo Hhi]. rewrite <- Hi in Hlo, Hhi.
  assert (Hi0 : (0 <= i)%Z).
  { apply Z.lt_succ_r. apply lt_IZR. rewrite succ_IZR. lra. }
  split; [exact Hi0|].
  assert (Hyl : y * ln 2 = ln x) by (unfold y; field; lra).
  rewrite !powerRZ_Rpower by lra. unfold Rpower.
  pose proof (exp_ln x ltac:(lra)) as Hex. rewrite plus_IZR. split.
  - rewrite <- Hex. destruct (Req_dec (IZR i) y) as [Heq|Hne].
    + rewrite Heq, Hyl. lra.
    + apply Rlt_le, exp_increasing. nra.
  - rewrite <- Hex. apply exp_increasing. nra.
Qed.

Section Schedules.
Context {Buffers : Type}.
Implicit Types (args : Args) (optimizer : Optimizer Buffers) (epoch : Z).

(** X1: whatever the schedule, a call of [adjust_lr] that returns changes
    nothing of the optimizer but the [lr] entries: there are as many
    parameter groups as before, each with the returned rate and with its
    momentum, weight decay and Nesterov flag as they were, and the momentum
    buffers are untouched. *)
Theorem adjust_lr_only_sets_lr args optimizer epoch (eta_max eta_min : R)
    optimizer' cur_lr :
  adjust_lr args optimizer epoch eta_max eta_min = inr (optimizer', cur_lr) ->
  buffers optimizer' = buffers optimizer /\
  Forall2 (fun g g' => lr g' = cur_lr /\ momentum g' = momentum g /\
                       weight_decay g' = weight_decay g /\ nesterov g' = nesterov g)
    (param_groups optimizer) (param_groups optimizer').
Proof.
  unfold adjust_lr. intros H.
  match type of H with (mbind _ ?c = _) => destruct c as [e|r]; [discriminate|] end.
  simpl in H. injection H as <- <-. simpl. split; [reflexivity|].
  induction (param_groups optimizer) as [|g gs IH]; simpl; constructor; auto.
Qed.

(** X2: a schedule name other than ['SGDR'] and ['multistep'] is not
    rejected: [adjust_lr] returns 0 and sets the rate of every parameter
    group to 0. *)
Theorem adjust_lr_unknown_type args optimizer epoch (eta_max eta_min : R) :
  lr_type args <> "SGDR" -> lr_type args <> "multistep" ->
  exists optimizer',
    adjust_lr args optimizer epoch eta_max eta_min = inr (optimizer', 0) /\
    Forall (fun g => lr g = 0) (param_groups optimizer') /\
    length (param_groups optimizer') = length (param_groups optimizer).
Proof.
  intros H1 H2. unfold adjust_lr.
  destruct (decide (lr_type args = "SGDR")); [contradiction|].
  destruct (decide (lr_type args = "multistep")); [contradiction|].
  simpl. eexists. split; [reflexivity|]. simpl. split.
  - apply set_lr_all.
  - apply length_map.
Qed.

(** X3: under SGDR, from epoch 0 on, [adjust_lr] raises exactly when the
    cycle length is 0 ([ZeroDivisionError], from [epoch / sgdr_t]) or is
    negative with [-sgdr_t <= epoch] ([ValueError], from [math.log2] of a
    number that is not positive); the optimizer is then left as it was. *)
Theorem adjust_lr_sgdr_raises args optimizer epoch (eta_max eta_min : R) :
  lr_type args = "SGDR" -> (0 <= epoch)%Z ->
  (sgdr_t args = 0%Z ->
   adjust_lr args optimizer epoch eta_max eta_min = inl ZeroDivisionError) /\
  ((sgdr_t args < 0)%Z -> (- sgdr_t args <= epoch)%Z ->
   adjust_lr args optimizer epoch eta_max eta_min = inl (ValueError "math domain error")) /\
  ((0 < sgdr_t args)%Z \/ ((sgdr_t args < 0)%Z /\ (epoch < - sgdr_t args)%Z) ->
   exists r, adjust_lr args optimizer epoch eta_max eta_min = inr r).
Proof.
  intros Hty He. unfold adjust_lr. rewrite Hty.
  destruct (decide ("SGDR" = "SGDR")) as [_|Hd]; [|contradiction].
  split; [|split].
  - intros ->. reflexivity.
  - intros Ht Hle. destruct (decide (sgdr_t args = 0%Z)); [lia|].
    assert (Htr : IZR (sgdr_t args) < 0) by (apply IZR_lt; lia).
    assert (Hle' : - IZR (sgdr_t args) <= IZR epoch)
      by (rewrite <- opp_IZR; apply IZR_le; lia).
    assert (IZR epoch / IZR (sgdr_t args) + 1 <= 0).
    { assert (Hq : IZR epoch / IZR (sgdr_t args) <= -1); [|lra].
      apply Rmult_le_reg_r with (- IZR (sgdr_t args)); [lra|].
      replace (IZR epoch / IZR (sgdr_t args) * - IZR (sgdr_t args))
        with (- IZR epoch) by (field; lra). lra. }
    destruct (Rle_dec _ _); [reflexivity|lra].
  - intros Hcase. destruct (decide (sgdr_t args = 0%Z)); [lia|].
    assert (0 < IZR epoch / IZR (sgdr_t args) + 1).
    { destruct Hcase as [Ht|[Ht Hlt]].
      - assert (0 < IZR (sgdr_t args)) by (apply IZR_lt; lia).
        assert (0 <= IZR epoch) by (apply IZR_le; lia).
        assert (0 <= IZR epoch / IZR (sgdr_t args)); [|lra].
        apply Rmult_le_pos; [lra|]. apply Rlt_le, Rinv_0_lt_compat. lra.
      - assert (Htr : IZR (sgdr_t args) < 0) by (apply IZR_lt; lia).
        assert (Hlt' : IZR epoch < - IZR (sgdr_t args))
          by (rewrite <- opp_IZR; apply IZR_lt; lia).
        assert (Hq : -1 < IZR epoch / IZR (sgdr_t args)); [|lra].
        apply Rmult_lt_reg_r with (- IZR (sgdr_t args)); [lra|].
        replace (IZR epoch / IZR (sgdr_t args) * - IZR (sgdr_t args))
          with (- IZR epoch) by (field; lra). lra. }
    destruct (Rle_dec _ _); [lra|]. simpl. eexists. reflexivity.
Qed.

(** X4: warm restarts. With a positive cycle length [t], the epochs
    [t * (2^n - 1)] (0, t, 3t, 7t, ...) are the first of their cycle, and
    there [adjust_lr] sets the rate to [eta_max]. *)
Theorem adjust_lr_sgdr_restart args optimizer (n : nat) (eta_max eta_min : R) :
  lr_type args = "SGDR" -> (0 < sgdr_t args)%Z ->
  let epoch := (sgdr_t args * (2 ^ Z.of_nat n - 1))%Z in
  sgdr_cycle (sgdr_t args) epoch = Z.of_nat n /\
  exists optimizer',
    adjust_lr args optimizer epoch eta_max eta_min = inr (optimizer', eta_max) /\
    Forall (fun g => lr g = eta_max) (param_groups optimizer').
Proof.
  intros Hty Ht epoch.
  assert (Htr : 0 < IZR (sgdr_t args)) by (apply IZR_lt; lia).
  assert (Hp : (0 < 2 ^ Z.of_nat n)%Z) by (apply Z.pow_pos_nonneg; lia).
  assert (He : (0 <= epoch)%Z) by (unfold epoch; nia).
  assert (Hx : IZR epoch / IZR (sgdr_t args) + 1 = 2 ^ n).
  { unfold epoch. rewrite mult_IZR, minus_IZR, <- pow_IZR. field. lra. }
  assert (H2 : 0 < ln 2) by (rewrite <- ln_1; apply ln_increasing; lra).
  assert (Hc : sgdr_cycle (sgdr_t args) epoch = Z.of_nat n).
  { unfold sgdr_cycle. rewrite Hx, ln_pow by lra.
    replace (INR n * ln 2 / ln 2) with (INR n) by (field; lra).
    rewrite INR_IZR_INZ. apply py_int_floor; [lra|lia]. }
  split; [exact Hc|].
  rewrite adjust_lr_sgdr by assumption. rewrite Hc.
  assert (Hr : sgdr_rate (sgdr_t args) epoch (Z.of_nat n) eta_max eta_min = eta_max).
  { unfold sgdr_rate. rewrite <- pow_powerRZ.
    assert (Hz : IZR epoch - IZR (sgdr_t args) * (2 ^ n - 1) = 0).
    { unfold epoch. rewrite mult_IZR, minus_IZR, <- pow_IZR. lra. }
    rewrite Hz. replace (PI * 0 / (IZR (sgdr_t args) * 2 ^ n)) with 0.
    - rewrite cos_0. lra.
    - unfold Rdiv. rewrite Rmult_0_r, Rmult_0_l. reflexivity. }
  rewrite Hr. eexists. split; [reflexivity|]. simpl. apply set_lr_all.
Qed.

(** X5: the range of the SGDR rate. With a positive cycle length and
    [eta_min <= eta_max], the epoch lies in the cycle the code computes
    ([0 <= T_cur < T_i]) and the rate [adjust_lr] sets lies in
    [[eta_min, eta_max]]; when [eta_min < eta_max] it stays strictly above
    [eta_min]: the cosine never reaches its end point before the restart. *)
Theorem adjust_lr_sgdr_range args optimizer epoch (eta_max eta_min : R) :
  lr_type args = "SGDR" -> (0 < sgdr_t args)%Z -> (0 <= epoch)%Z ->
  eta_min <= eta_max ->
  let t := sgdr_t args in
  let i := sgdr_cycle t epoch in
  (0 <= i)%Z /\
  (t * (2 ^ i - 1) <= epoch < t * (2 ^ (i + 1) - 1))%Z /\
  exists optimizer' cur_lr,
    adjust_lr args optimizer epoch eta_max eta_min = inr (optimizer', cur_lr) /\
    Forall (fun g => lr g = cur_lr) (param_groups optimizer') /\
    eta_min <= cur_lr <= eta_max /\
    (eta_min < eta_max -> eta_min < cur_lr).
Proof.
  intros Hty Ht He Heta t i.
  destruct (sgdr_cycle_bounds t epoch Ht He) as (Hi & Hlo & Hhi). fold i in Hi, Hlo, Hhi.
  assert (Htr : 0 < IZR t) by (apply IZR_lt; lia).
  assert (Hpi : powerRZ 2 i = IZR (2 ^ i)).
  { rewrite <- (Z2Nat.id i) by lia. rewrite <- pow_powerRZ, pow_IZR. reflexivity. }
  assert (Hpi1 : powerRZ 2 (i + 1) = IZR (2 ^ (i + 1))).
  { rewrite <- (Z2Nat.id (i + 1)) by lia. rewrite <- pow_powerRZ, pow_IZR. reflexivity. }
  assert (Hpos : 0 < powerRZ 2 i) by (apply powerRZ_lt; lra).
  assert (Hdouble : powerRZ 2 (i + 1) = 2 * powerRZ 2 i).
  { rewrite powerRZ_add by lra. simpl. lra. }
  assert (Hepoch : IZR epoch = IZR t * (IZR epoch / IZR t)) by (field; lra).
  revert Hlo Hhi Hepoch. generalize (IZR epoch / IZR t). intros q Hlo Hhi Hepoch.
  split; [exact Hi|]. split.
  { split.
    - apply le_IZR. rewrite mult_IZR, minus_IZR, <- Hpi.
      rewrite Hepoch. apply Rmult_le_compat_l; lra.
    - apply lt_IZR. rewrite mult_IZR, minus_IZR, <- Hpi1.
      rewrite Hepoch at 1. apply Rmult_lt_compat_l; lra. }
  rewrite adjust_lr_sgdr by assumption. fold t. fold i.
  eexists _, _. split; [reflexivity|]. simpl. split; [apply set_lr_all|].
  unfold sgdr_rate.
  set (T_cur := IZR epoch - IZR t * (powerRZ 2 i - 1)).
  set (T_i := IZR t * powerRZ 2 i).
  assert (HTi : 0 < T_i) by (unfold T_i; apply Rmult_lt_0_compat; lra).
  assert (HTc : T_cur = IZR t * (q + 1 - powerRZ 2 i)).
  { unfold T_cur. rewrite Hepoch at 1. ring. }
  assert (HT0 : 0 <= T_cur) by (rewrite HTc; apply Rmult_le_pos; lra).
  assert (HT1 : T_cur < T_i).
  { rewrite HTc. unfold T_i. apply Rmult_lt_compat_l; lra. }
  pose proof (COS_bound (PI * T_cur / T_i)) as [Hc1 Hc2].
  pose proof PI_RGT_0 as Hpi0.
  assert (Hth0 : 0 <= PI * T_cur / T_i).
  { apply Rmult_le_pos; [nra|]. apply Rlt_le, Rinv_0_lt_compat. lra. }
  assert (Hth1 : PI * T_cur / T_i < PI).
  { apply Rmult_lt_reg_r with T_i; [lra|].
    replace (PI * T_cur / T_i * T_i) with (PI * T_cur) by (field; lra). nra. }
  split; [split; nra|].
  intros Hlt.
  pose proof (cos_decreasing_1 (PI * T_cur / T_i) PI Hth0 ltac:(lra) ltac:(lra)
                (Rle_refl PI) Hth1) as Hcos.
  rewrite cos_PI in Hcos. nra.
Qed.

Lemma adjust_lr_multistep_eq args optimizer epoch (eta_max eta_min : R) :
  lr_type args = "multistep" ->
  adjust_lr args optimizer epoch eta_max eta_min
  = inr (mkOptimizer
           (map (set_lr (init_lr args * 0.1 ^ bisect_right (milestones args) epoch))
                (param_groups optimizer))
           (buffers optimizer),
         init_lr args * 0.1 ^ bisect_right (milestones args) epoch).
Proof.
  intros Hty. unfold adjust_lr. rewrite Hty.
  destruct (decide ("multistep" = "SGDR")) as [Hd|_]; [discriminate Hd|].
  destruct (decide ("multistep" = "multistep")) as [_|Hd]; [|contradiction].
  reflexivity.
Qed.

(** X6: the multistep rate is bounded on any milestone list, in order or
    not: with [0 <= init_lr] it lies between
    [init_lr * 0.1 ^ len(milestones)] and [init_lr]. *)
Theorem adjust_lr_multistep_bounds args optimizer epoch (eta_max eta_min : R) :
  lr_type args = "multistep" -> 0 <= init_lr args ->
  exists optimizer' cur_lr,
    adjust_lr args optimizer epoch eta_max eta_min = inr (optimizer', cur_lr) /\
    Forall (fun g => lr g = cur_lr) (param_groups optimizer') /\
    init_lr args * 0.1 ^ length (milestones args) <= cur_lr <= init_lr args.
Proof.
  intros Hty Hlr. rewrite adjust_lr_multistep_eq by assumption.
  eexists _, _. split; [reflexivity|]. simpl. split; [apply set_lr_all|].
  pose proof (bisect_right_le_length (milestones args) epoch) as Hb.
  pose proof (pow_tenth_antitone _ _ Hb).
  pose proof (pow_tenth_antitone 0 (bisect_right (milestones args) epoch) ltac:(lia)) as H0.
  simpl in H0. split; nra.
Qed.

(** X7: with milestones in ascending order and [0 <= init_lr], the
    multistep rate never increases from one epoch to a later one, and it is
    [init_lr] itself as long as the epoch is below every milestone. *)
Theorem adjust_lr_multistep_decreasing args optimizer (epoch1 epoch2 : Z)
    (eta_max eta_min : R) :
  lr_type args = "multistep" -> Sorted Z.le (milestones args) ->
  0 <= init_lr args -> (epoch1 <= epoch2)%Z ->
  exists o1 o2 lr1 lr2,
    adjust_lr args optimizer epoch1 eta_max eta_min = inr (o1, lr1) /\
    adjust_lr args optimizer epoch2 eta_max eta_min = inr (o2, lr2) /\
    lr2 <= lr1 /\
    (Forall (fun m => (epoch1 < m)%Z) (milestones args) -> lr1 = init_lr args).
Proof.
  intros Hty Hs Hlr He.
  rewrite !adjust_lr_multistep_eq by assumption.
  rewrite !(bisect_right_passed _ _ Hs).
  eexists _, _, _, _. split; [reflexivity|]. split; [reflexivity|]. split.
  - pose proof (pow_tenth_antitone _ _ (milestones_passed_mono (milestones args) _ _ He)).
    nra.
  - intros Hall. replace (milestones_passed (milestones args) epoch1) with 0%nat.
    + simpl. lra.
    + symmetry. apply milestones_passed_none, Hall.
Qed.

End Schedules.

End ScheduleFacts.

(** ** More on the checkpoints of the epoch loop *)

Module CheckpointFacts.
Import Py Train TrainFacts.

Section Checkpoints.
Context {Weights Buffers : Type}.
Context (run_batches : Z -> Weights -> Optimizer Buffers -> Weights * Optimizer Buffers).
Context (test : Z -> Weights -> Q).
Context (model_name : string).
Context (no_buffers : Buffers).

Implicit Types (args : Args) (st : world Weights Buffers * Optimizer Buffers).

Local Abbreviation body := (epoch_body run_batches test model_name).
Local Abbreviation loop := (epoch_loop run_batches test model_name).
Local Abbreviation ckpt := (ckpt_path model_name).
Local Abbreviation best := (best_path model_name).

(** The checkpoint that epoch [epoch] writes when it ends in [st]. *)
Definition checkpoint_of (epoch : Z) st : checkpoint Weights Buffers :=
  mkCheckpoint (net st.1) (test epoch (net st.1)) epoch st.2.

(** What one epoch leaves alone. *)
Lemma epoch_body_frame args epoch st st' :
  body args epoch st = inr st' ->
  start_epoch st'.1 = start_epoch st.1 /\
  dirs st'.1 = dirs st.1 ∪ {["checkpoint"]} /\
  (forall p, p <> ckpt -> p <> best -> files st'.1 !! p = files st.1 !! p).
Proof.
  destruct st as [w o]. unfold epoch_body. simpl.
  destruct (train run_batches args epoch (net w) o) as [e|[n' o']]; [discriminate|].
  simpl.
  assert (Hd : (if decide ("checkpoint" ∈ dirs w) then dirs w
                else dirs w ∪ {["checkpoint"]}) = dirs w ∪ {["checkpoint"]}).
  { destruct (decide _) as [Hin|_]; [|reflexivity]. apply leibniz_equiv. intros d.
    rewrite elem_of_union, elem_of_singleton. split; [auto|]. intros [?| ->]; auto. }
  rewrite Hd.
  destruct (Qlt_le_dec _ _).
  - unfold copyfile. rewrite lookup_insert_eq. simpl. intros [= <-]. simpl.
    split; [reflexivity|]. split; [reflexivity|].
    intros p Hc Hb. rewrite !lookup_insert_ne by congruence. reflexivity.
  - simpl. intros [= <-]. simpl.
    split; [reflexivity|]. split; [reflexivity|].
    intros p Hc Hb. rewrite lookup_insert_ne by congruence. reflexivity.
Qed.

(** What one epoch writes, read off the state it ends in. *)
Lemma epoch_body_writes args epoch st st' :
  body args epoch st = inr st' ->
  let acc := test epoch (net st'.1) in
  files st'.1 !! ckpt = Some (checkpoint_of epoch st') /\
  ((best_acc st.1 < acc)%Q ->
   files st'.1 !! best = Some (checkpoint_of epoch st') /\ best_acc st'.1 = acc) /\
  (~ (best_acc st.1 < acc)%Q ->
   files st'.1 !! best = files st.1 !! best /\ best_acc st'.1 = best_acc st.1).
Proof.
  intros Hb acc. pose proof (epoch_body_inv _ _ _ _ _ _ _ Hb) as Ht.
  destruct st as [w o], st' as [w' o']. simpl in *.
  destruct (epoch_body_spec run_batches test model_name _ _ _ _ _ _ Ht)
    as (w2 & Hb2 & Hn & Hf & Hbest & Hkeep & _).
  rewrite Hb in Hb2. injection Hb2 as <-.
  unfold checkpoint_of. simpl. auto.
Qed.

(** The loop, read from its last epoch. *)
Lemma epoch_loop_snoc args (n : nat) start st :
  loop args start (S n) st
  = (stn ← loop args start n st; body args (start + Z.of_nat n) stn).
Proof.
  revert start st. induction n as [|n IH]; intros start st.
  - replace (start + Z.of_nat 0)%Z with start by lia. simpl.
    destruct (body args start st); reflexivity.
  - change (loop args start (S (S n)) st)
      with (st1 ← body args start st; loop args (start + 1) (S n) st1).
    change (loop args start (S n) st)
      with (st1 ← body args start st; loop args (start + 1) n st1).
    destruct (body args start st) as [e|st1]; [reflexivity|].
    change (loop args (start + 1) (S n) st1
            = (stn ← loop args (start + 1) n st1; body args (start + Z.of_nat (S n)) stn)).
    rewrite IH.
    replace (start + 1 + Z.of_nat n)%Z with (start + Z.of_nat (S n))%Z by lia.
    reflexivity.
Qed.

Lemma epoch_loop_last args (n : nat) start st st' :
  loop args start (S n) st = inr st' ->
  exists stn, loop args start n st = inr stn /\
              body args (start + Z.of_nat n) stn = inr st'.
Proof.
  rewrite epoch_loop_snoc. destruct (loop args start n st) as [e|stn]; [discriminate|].
  simpl. intros H. exists stn. auto.
Qed.


Lemma epoch_loop_ends_saved args (n : nat) start st st' :
  (0 < n)%nat ->
  loop args start n st = inr st' ->
  "checkpoint" ∈ dirs st'.1 /\
  files st'.1 !! ckpt = Some (checkpoint_of (start + Z.of_nat n - 1) st').
Proof.
  intros Hn Hloop. destruct n as [|n]; [lia|].
  destruct (epoch_loop_last _ _ _ _ _ Hloop) as (stn & _ & Hb).
  replace (start + Z.of_nat (S n) - 1)%Z with (start + Z.of_nat n)%Z by lia.
  destruct (epoch_body_frame _ _ _ _ Hb) as (_ & Hd & _).
  destruct (epoch_body_writes _ _ _ _ Hb) as (Hf & _).
  split; [|exact Hf].
  rewrite Hd. apply elem_of_union. right. apply elem_of_singleton. reflexivity.
Qed.

(** X9: when the loop has run at least one epoch, the directory
    [checkpoint] exists and the file at the checkpoint path holds the
    state the loop ended in: the final network and optimizer, the number
    of the last epoch and its test accuracy. *)
Theorem epoch_loop_last_checkpoint args (n : nat) start st st' :
  (0 < n)%nat ->
  epoch_loop run_batches test model_name args start n st = inr st' ->
  "checkpoint" ∈ dirs st'.1 /\
  files st'.1 !! ckpt_path model_name
  = Some (checkpoint_of (start + Z.of_nat n - 1) st').
Proof. apply epoch_loop_ends_saved. Qed.

Lemma epoch_loop_best_spec args (n : nat) start st st' :
  loop args start n st = inr st' ->
  (forall k stk, (k < n)%nat -> loop args start (S k) st = inr stk ->
     (test (start + Z.of_nat k) (net stk.1) <= best_acc st'.1)%Q) /\
  ((best_acc st'.1 = best_acc st.1 /\ files st'.1 !! best = files st.1 !! best) \/
   exists k stk,
     (k < n)%nat /\ loop args start (S k) st = inr stk /\
     (best_acc st.1 < test (start + Z.of_nat k) (net stk.1))%Q /\
     best_acc st'.1 = test (start + Z.of_nat k) (net stk.1) /\
     files st'.1 !! best = Some (checkpoint_of (start + Z.of_nat k) stk) /\
     forall j stj, (j < k)%nat -> loop args start (S j) st = inr stj ->
       (test (start + Z.of_nat j) (net stj.1) < test (start + Z.of_nat k) (net stk.1))%Q).
Proof.
  revert st'. induction n as [|n IH]; intros st' Hloop.
  - simpl in Hloop. injection Hloop as <-. split; [intros; lia|]. left. auto.
  - destruct (epoch_loop_last _ _ _ _ _ Hloop) as (stn & Hn & Hb).
    destruct (IH _ Hn) as (Hmax & Hfile).
    pose proof (epoch_loop_best_acc _ _ _ _ _ _ _ _ Hn) as Hmono.
    destruct (epoch_body_writes _ _ _ _ Hb) as (_ & Hup & Hkeep).
    set (acc := test (start + Z.of_nat n) (net st'.1)) in *.
    destruct (Qlt_le_dec (best_acc stn.1) acc) as [Hlt|Hge].
    + destruct (Hup Hlt) as (Hf & Hbest). split.
      * intros k stk Hk Hrun. destruct (decide (k = n)) as [->|Hne].
        -- rewrite Hloop in Hrun. injection Hrun as <-. fold acc. rewrite Hbest.
           apply Qle_refl.
        -- rewrite Hbest. apply Qle_trans with (best_acc stn.1).
           ++ apply Hmax; [lia|exact Hrun].
           ++ apply Qlt_le_weak, Hlt.
      * right. exists n, st'. fold acc.
        split; [lia|]. split; [exact Hloop|].
        split; [eapply Qle_lt_trans; eauto|].
        split; [exact Hbest|]. split; [exact Hf|].
        intros j stj Hj Hrun. eapply Qle_lt_trans; [|exact Hlt]. apply Hmax; auto.
    + assert (Hnlt : ~ (best_acc stn.1 < acc)%Q) by (apply Qle_not_lt, Hge).
      destruct (Hkeep Hnlt) as (Hf & Hbest). split.
      * intros k stk Hk Hrun. destruct (decide (k = n)) as [->|Hne].
        -- rewrite Hloop in Hrun. injection Hrun as <-. fold acc. rewrite Hbest.
           exact Hge.
        -- rewrite Hbest. apply Hmax; [lia|exact Hrun].
      * rewrite Hbest, Hf. destruct Hfile as [[H1 H2]|(k & stk & Hk & Hrest)].
        -- left. auto.
        -- right. exists k, stk. split; [lia|exact Hrest].
Qed.

(** X10: the best accuracy after the loop is the maximum of the best
    accuracy before it and the test accuracies of its epochs, and the file
    at the best path belongs to it: either no epoch beat the accuracy the
    loop started from, and the file is as it was; or the file holds the
    checkpoint of the first epoch that reached the maximum (a later epoch
    with the same accuracy does not replace it). *)
Theorem best_checkpoint_is_first_maximum args (n : nat) start st st' :
  epoch_loop run_batches test model_name args start n st = inr st' ->
  (forall k stk, (k < n)%nat ->
     epoch_loop run_batches test model_name args start (S k) st = inr stk ->
     (test (start + Z.of_nat k) (net stk.1) <= best_acc st'.1)%Q) /\
  ((best_acc st'.1 = best_acc st.1 /\
    files st'.1 !! best_path model_name = files st.1 !! best_path model_name) \/
   exists k stk,
     (k < n)%nat /\
     epoch_loop run_batches test model_name args start (S k) st = inr stk /\
     (best_acc st.1 < test (start + Z.of_nat k) (net stk.1))%Q /\
     best_acc st'.1 = test (start + Z.of_nat k) (net stk.1) /\
     files st'.1 !! best_path model_name = Some (checkpoint_of (start + Z.of_nat k) stk) /\
     forall j stj, (j < k)%nat ->
       epoch_loop run_batches test model_name args start (S j) st = inr stj ->
       (test (start + Z.of_nat j) (net stj.1) < test (start + Z.of_nat k) (net stk.1))%Q).
Proof. apply epoch_loop_best_spec. Qed.


(** X12: save, then resume. [main] with [--resume] on the files the loop
    left restores the network and the optimizer the loop ended with, takes
    up the loop at the number of the last epoch already run (which is
    therefore run again, not the one after it), and starts from the test
    accuracy of that epoch as [best_acc], which may be below the best
    accuracy the loop had reached. *)
Theorem resume_after_training args args' (n : nat) start st st' :
  (0 < n)%nat ->
  epoch_loop run_batches test model_name args start n st = inr st' ->
  evaluate args' = false -> resume args' = true ->
  let last := (start + Z.of_nat n - 1)%Z in
  main run_batches test model_name no_buffers args' st'.1
  = (st'' ← epoch_loop run_batches test model_name args' last
              (Z.to_nat (epochs args' - last))
              (mkWorld (net st'.1) (test last (net st'.1)) last
                       (files st'.1) (dirs st'.1), st'.2);
     mret st''.1) /\
  (test last (net st'.1) <= best_acc st'.1)%Q.
Proof.
  intros Hn Hloop Hev Hres last.
  destruct (epoch_loop_ends_saved _ _ _ _ _ Hn Hloop) as (_ & Hf).
  fold last in Hf. split.
  - unfold main. rewrite Hev, Hres. unfold load. rewrite Hf. reflexivity.
  - destruct (epoch_loop_best_spec _ _ _ _ _ Hloop) as (Hmax & _).
    destruct n as [|n]; [lia|].
    replace last with (start + Z.of_nat n)%Z by (unfold last; lia).
    apply Hmax; [lia|exact Hloop].
Qed.

(** X13: a missing checkpoint. [main] with [--evaluate] raises
    [FileNotFoundError] when there is no file at the best path, and without
    [--evaluate] but with [--resume] when there is none at the checkpoint
    path; the other file is not looked at. *)
Theorem main_missing_checkpoint args (w : world Weights Buffers) :
  (evaluate args = true -> files w !! best_path model_name = None ->
   main run_batches test model_name no_buffers args w
   = inl (FileNotFoundError (best_path model_name))) /\
  (evaluate args = false -> resume args = true -> files w !! ckpt_path model_name = None ->
   main run_batches test model_name no_buffers args w
   = inl (FileNotFoundError (ckpt_path model_name))).
Proof.
  split.
  - intros Hev Hf. unfold main, load. rewrite Hev, Hf. reflexivity.
  - intros Hev Hres Hf. unfold main, load. rewrite Hev, Hres, Hf. reflexivity.
Qed.





End Checkpoints.

End CheckpointFacts.

(** ** Runs of the schedules and of the loop *)

Module TrainExamples.
Import Py Train TrainFacts ScheduleFacts CheckpointFacts.

Definition unknown_args : Args :=
  mkArgs 0.1 "cosine" [150; 225]%Z 300 300 false false.

Lemma adjust_lr_only_sets_lr_witness :
  exists optimizer' cur_lr,
    adjust_lr (multistep_args [150; 225]%Z 0.1) sgd 200 0.1 0 = inr (optimizer', cur_lr) /\
    buffers optimizer' = buffers sgd /\
    Forall2 (fun g g' => lr g' = cur_lr /\ momentum g' = momentum g /\
                         weight_decay g' = weight_decay g /\ nesterov g' = nesterov g)
      (param_groups sgd) (param_groups optimizer').
Proof.
  eexists _, _. split; [apply adjust_lr_multistep_eq; reflexivity|].
  apply (adjust_lr_only_sets_lr (multistep_args [150; 225]%Z 0.1) sgd 200 0.1 0).
  apply adjust_lr_multistep_eq. reflexivity.
Defined.

Lemma adjust_lr_unknown_type_witness :
  exists optimizer',
    adjust_lr unknown_args sgd 7 0.1 0 = inr (optimizer', 0) /\
    Forall (fun g => lr g = 0) (param_groups optimizer') /\
    length (param_groups optimizer') = length (param_groups sgd).
Proof.
  apply (adjust_lr_unknown_type unknown_args sgd 7 0.1 0); discriminate.
Defined.

Lemma adjust_lr_sgdr_raises_witness :
  adjust_lr (sgdr_args 0 0.1) sgd 5 0.1 0 = inl ZeroDivisionError /\
  adjust_lr (sgdr_args (-10) 0.1) sgd 10 0.1 0 = inl (ValueError "math domain error") /\
  exists r, adjust_lr (sgdr_args (-10) 0.1) sgd 9 0.1 0 = inr r.
Proof.
  split; [|split].
  - apply (adjust_lr_sgdr_raises (sgdr_args 0 0.1) sgd 5 0.1 0 eq_refl); [lia|reflexivity].
  - apply (adjust_lr_sgdr_raises (sgdr_args (-10) 0.1) sgd 10 0.1 0 eq_refl);
      simpl; lia.
  - apply (adjust_lr_sgdr_raises (sgdr_args (-10) 0.1) sgd 9 0.1 0 eq_refl); simpl; lia.
Defined.

Lemma adjust_lr_sgdr_restart_witness :
  sgdr_cycle 300 900 = 2%Z /\
  exists optimizer',
    adjust_lr (sgdr_args 300 0.1) sgd 900 0.1 0 = inr (optimizer', 0.1) /\
    Forall (fun g => lr g = 0.1) (param_groups optimizer').
Proof.
  apply (adjust_lr_sgdr_restart (sgdr_args 300 0.1) sgd 2 0.1 0 eq_refl). simpl. lia.
Defined.

Lemma adjust_lr_sgdr_range_witness :
  exists optimizer' cur_lr,
    adjust_lr (sgdr_args 300 0.1) sgd 7 0.1 0 = inr (optimizer', cur_lr) /\
    Forall (fun g => lr g = cur_lr) (param_groups optimizer') /\
    0 <= cur_lr <= 0.1 /\ (0 < 0.1 -> 0 < cur_lr).
Proof.
  apply (adjust_lr_sgdr_range (sgdr_args 300 0.1) sgd 7 0.1 0 eq_refl);
    simpl; (lia || lra).
Defined.

Lemma adjust_lr_multistep_bounds_witness :
  exists optimizer' cur_lr,
    adjust_lr (multistep_args [225; 150]%Z 0.1) sgd 160 0.1 0 = inr (optimizer', cur_lr) /\
    Forall (fun g => lr g = cur_lr) (param_groups optimizer') /\
    0.1 * 0.1 ^ 2 <= cur_lr <= 0.1.
Proof.
  apply (adjust_lr_multistep_bounds (multistep_args [225; 150]%Z 0.1) sgd 160 0.1 0 eq_refl).
  simpl. lra.
Defined.

Lemma adjust_lr_multistep_decreasing_witness :
  exists o1 o2 lr1 lr2,
    adjust_lr (multistep_args [150; 225]%Z 0.1) sgd 100 0.1 0 = inr (o1, lr1) /\
    adjust_lr (multistep_args [150; 225]%Z 0.1) sgd 200 0.1 0 = inr (o2, lr2) /\
    lr2 <= lr1 /\
    (Forall (fun m => (100 < m)%Z) [150; 225]%Z -> lr1 = 0.1).
Proof.
  apply (adjust_lr_multistep_decreasing (multistep_args [150; 225]%Z 0.1) sgd 100 200 0.1 0
           eq_refl).
  - repeat (constructor; try lia).
  - simpl. lra.
  - lia.
Defined.

(** The toy run of [TrainFacts], for two epochs from nothing. *)
Local Abbreviation toy_args := (multistep_args [150; 225]%Z 0.1).
Local Abbreviation toy_loop := (epoch_loop toy_batches toy_test "okddip_resnet32" toy_args).

Lemma toy_run (n : nat) (start : Z) :
  exists st', toy_loop start n (toy_world, sgd) = inr st'.
Proof. apply epoch_loop_multistep_returns. reflexivity. Qed.



Lemma epoch_loop_last_checkpoint_witness :
  exists st',
    toy_loop 0 2 (toy_world, sgd) = inr st' /\
    "checkpoint" ∈ dirs st'.1 /\
    files st'.1 !! ckpt_path "okddip_resnet32" = Some (checkpoint_of toy_test 1 st').
Proof.
  destruct (toy_run 2 0) as (st' & Hrun). exists st'. split; [exact Hrun|].
  apply (epoch_loop_last_checkpoint toy_batches toy_test "okddip_resnet32" toy_args 2 0%Z
           (toy_world, sgd) st'); [lia|exact Hrun].
Defined.

Lemma best_checkpoint_is_first_maximum_witness :
  exists st',
    toy_loop 0 2 (toy_world, sgd) = inr st' /\
    forall k stk, (k < 2)%nat -> toy_loop 0 (S k) (toy_world, sgd) = inr stk ->
      (toy_test (0 + Z.of_nat k) (net stk.1) <= best_acc st'.1)%Q.
Proof.
  destruct (toy_run 2 0) as (st' & Hrun). exists st'. split; [exact Hrun|].
  exact (proj1 (best_checkpoint_is_first_maximum toy_batches toy_test "okddip_resnet32"
                  toy_args 2 0%Z (toy_world, sgd) st' Hrun)).
Defined.



Lemma resume_after_training_witness :
  exists st',
    toy_loop 0 2 (toy_world, sgd) = inr st' /\
    main toy_batches toy_test "okddip_resnet32" tt
      (mkArgs 0.1 "multistep" [150; 225]%Z 300 300 true false) st'.1
    = (st'' ← epoch_loop toy_batches toy_test "okddip_resnet32"
                (mkArgs 0.1 "multistep" [150; 225]%Z 300 300 true false) 1 299
                (mkWorld (net st'.1) (toy_test 1 (net st'.1)) 1
                         (files st'.1) (dirs st'.1), st'.2);
       mret st''.1) /\
    (toy_test 1 (net st'.1) <= best_acc st'.1)%Q.
Proof.
  destruct (toy_run 2 0) as (st' & Hrun). exists st'. split; [exact Hrun|].
  apply (resume_after_training toy_batches toy_test "okddip_resnet32" tt toy_args
           (mkArgs 0.1 "multistep" [150; 225]%Z 300 300 true false)
           2 0%Z (toy_world, sgd) st'); [lia | exact Hrun | reflexivity | reflexivity].
Defined.

Lemma main_missing_checkpoint_witness :
  main toy_batches toy_test "okddip_resnet32" tt
    (mkArgs 0.1 "multistep" [150; 225]%Z 300 300 false true) toy_world
  = inl (FileNotFoundError (best_path "okddip_resnet32")) /\
  main toy_batches toy_test "okddip_resnet32" tt
    (mkArgs 0.1 "multistep" [150; 225]%Z 300 300 true false) toy_world
  = inl (FileNotFoundError (ckpt_path "okddip_resnet32")).
Proof.
  split.
  - apply (main_missing_checkpoint toy_batches toy_test "okddip_resnet32" tt
             (mkArgs 0.1 "multistep" [150; 225]%Z 300 300 false true) toy_world);
      reflexivity.
  - apply (main_missing_checkpoint toy_batches toy_test "okddip_resnet32" tt
             (mkArgs 0.1 "multistep" [150; 225]%Z 300 300 true false) toy_world);
      reflexivity.
Defined.


End TrainExamples.

(** ** Facts about the milestones option *)

Module CommandLineFacts.
Import Py Train TrainFacts CommandLine.

(** On integers the search is the one of [Train]. *)
Lemma bisect_values_ints (a : list Z) (x : Z) (lo hi : nat) :
  (hi <= length a)%nat ->
  bisect_values (map PyInt a) x lo hi = inr (bisect_loop a x lo hi).
Proof.
  funelim (bisect_loop a x lo hi); intros Hhi.
  - rewrite bisect_values_equation_1. destruct (decide (lo < hi)%nat); [lia|]. reflexivity.
  - rewrite bisect_values_equation_1. destruct (decide (lo < hi)%nat); [|lia]. simpl.
    change (PyInt 0) with (PyInt 0%Z). rewrite (map_nth PyInt a 0%Z). simpl.
    rewrite bool_decide_eq_true_2 by assumption. simpl. apply H.
    pose proof (Nat.div_mod_eq (lo + hi) 2);
      pose proof (Nat.mod_upper_bound (lo + hi) 2 ltac:(lia)); lia.
  - rewrite bisect_values_equation_1. destruct (decide (lo < hi)%nat); [|lia]. simpl.
    change (PyInt 0) with (PyInt 0%Z). rewrite (map_nth PyInt a 0%Z). simpl.
    rewrite bool_decide_eq_false_2 by assumption. simpl. apply H. lia.
Qed.

(** X26: the option [--milestones]. Without it the multistep rate is that
    of the default [[150, 225]]. With it, whatever the argument, the rate
    is never computed from the numbers given: the parser turns the
    argument into the list of its characters, and the search raises
    [TypeError] at its first comparison of the epoch with one of them, at
    every epoch; the empty argument gives no milestone at all and the rate
    [init_lr]. *)
Theorem milestones_option (lr0 : R) (epoch : Z) :
  multistep_lr lr0 (parse_milestones None) epoch
  = inr (lr0 * 0.1 ^ milestones_passed [150; 225]%Z epoch)%R /\
  (forall s, s <> EmptyString ->
     multistep_lr lr0 (parse_milestones (Some s)) epoch
     = inl (TypeError "'<' not supported between instances of 'int' and 'str'")) /\
  multistep_lr lr0 (parse_milestones (Some EmptyString)) epoch = inr lr0.
Proof.
  split; [|split].
  - unfold multistep_lr, bisect_right_values, parse_milestones.
    change [PyInt 150; PyInt 225] with (map PyInt [150; 225]%Z).
    rewrite bisect_values_ints by (rewrite length_map; lia). rewrite length_map.
    change (bisect_loop [150; 225]%Z epoch 0 (length [150; 225]%Z))
      with (bisect_right [150; 225]%Z epoch).
    rewrite bisect_right_passed by (repeat (constructor; try lia)). reflexivity.
  - intros s Hs. unfold multistep_lr, bisect_right_values, parse_milestones.
    set (a := map _ _).
    assert (Hlen : (0 < length a)%nat).
    { unfold a. rewrite length_map. destruct s; [contradiction|]. simpl. lia. }
    assert (Hstr : forall i, (i < length a)%nat -> exists c, nth i a (PyInt 0) = PyStr c).
    { intros i Hi. unfold a in *. rewrite length_map in Hi.
      rewrite (nth_indep _ _ (PyStr (String Ascii.zero EmptyString)))
        by (rewrite length_map; lia).
      rewrite (map_nth (fun c => PyStr (String c EmptyString))). eexists. reflexivity. }
    rewrite bisect_values_equation_1.
    destruct (decide (0 < length a)%nat); [|lia].
    cbn [bisect_values_unfold_clause_1 Nat.add].
    destruct (Hstr (length a / 2)%nat) as (c & Hc).
    { pose proof (Nat.div_mod_eq (length a) 2);
        pose proof (Nat.mod_upper_bound (length a) 2 ltac:(lia)); lia. }
    rewrite Hc. reflexivity.
  - unfold multistep_lr, bisect_right_values, parse_milestones. simpl.
    rewrite bisect_values_equation_1. simpl. f_equal. lra.
Qed.

Lemma milestones_option_witness :
  multistep_lr 0.1 (parse_milestones (Some "150")) 200
  = inl (TypeError "'<' not supported between instances of 'int' and 'str'").
Proof.
  apply (proj1 (proj2 (milestones_option 0.1 200))). discriminate.
Defined.

End CommandLineFacts.

(** ** More on network construction *)

Module ConstructionFacts.
Import Tensor Py Net NetFacts ForwardFacts.

#[local] Open Scope Z_scope.

(** The convolutions of a block's residual path with their normalisation
    layers, in the order [forward] applies them. *)
Definition block_path (b : Block) : list (Conv2d * BatchNorm2d) :=
  match b with
  | Basic b => [(bb_conv1 b, bb_bn1 b); (bb_conv2 b, bb_bn2 b)]
  | Bottle b => [(bn_conv1 b, bn_bn1 b); (bn_conv2 b, bn_bn2 b); (bn_conv3 b, bn_bn3 b)]
  end.

(** The 3x3 convolution that carries the block's stride and dilation. *)
Definition block_conv3x3 (b : Block) : Conv2d :=
  match b with
  | Basic b => bb_conv1 b
  | Bottle b => bn_conv2 b
  end.

(** A path takes [cin] channels to [cout] channels: each convolution reads
    what the one before it wrote, each normalisation layer has the width
    of its convolution, and the group count divides both channel counts of
    a convolution. *)
Fixpoint chained (cin : Z) (path : list (Conv2d * BatchNorm2d)) (cout : Z) : Prop :=
  match path with
  | [] => cin = cout
  | (c, n) :: path =>
      in_channels c = cin /\ num_features n = out_channels c /\
      (conv_groups c | in_channels c) /\ (conv_groups c | out_channels c) /\
      chained (out_channels c) path cout
  end.

(** The height (or width) of [nn.Conv2d]'s output on an input of height
    [h]. *)
Definition conv_out_size (c : Conv2d) (h : Z) : Z :=
  (h + 2 * padding c - conv_dilation c * (kernel_size c - 1) - 1) `div` conv_stride c + 1.

Definition path_out_size (path : list (Conv2d * BatchNorm2d)) (h : Z) : Z :=
  foldl (fun h cn => conv_out_size cn.1 h) h path.

(** Channels and size of what the block adds to its residual path. *)
Definition shortcut_channels (b : Block) : Z :=
  match block_downsample b with
  | Some d => out_channels (ds_conv d)
  | None => block_inplanes b
  end.

Definition shortcut_out_size (b : Block) (h : Z) : Z :=
  match block_downsample b with
  | Some d => conv_out_size (ds_conv d) h
  | None => h
  end.

(** The two summands of [out += identity] have the same shape. *)
Definition block_consistent (cout : Z) (b : Block) : Prop :=
  chained (block_inplanes b) (block_path b) cout /\
  shortcut_channels b = cout /\
  (forall d, block_downsample b = Some d ->
     in_channels (ds_conv d) = block_inplanes b /\
     num_features (ds_norm d) = out_channels (ds_conv d)) /\
  (forall h, path_out_size (block_path b) h = shortcut_out_size b h).

(** Inversion of the construction steps. *)
Lemma get_inv s a s1 : get s = inr (a, s1) -> a = s /\ s1 = s.
Proof. intros [= <- <-]. auto. Qed.

Lemma set_inplanes_inv v s u s1 :
  set_inplanes v s = inr (u, s1) ->
  s1 = mkSelf v (dilation s) (groups s) (base_width s) (rng s).
Proof. intros [= _ <-]. reflexivity. Qed.

Lemma size_3x3 (h stride dil : Z) :
  (h + 2 * dil - dil * (3 - 1) - 1) `div` stride + 1 = (h - 1) `div` stride + 1.
Proof. f_equal. f_equal. lia. Qed.

Lemma size_1x1 (h stride : Z) :
  (h + 2 * 0 - 1 * (1 - 1) - 1) `div` stride + 1 = (h - 1) `div` stride + 1.
Proof. f_equal. f_equal. lia. Qed.

Lemma size_stride_1 (h : Z) : (h - 1) `div` 1 + 1 = h.
Proof. rewrite Z.div_1_r. lia. Qed.

(** What a block's constructor builds. *)
Lemma block_init_path block inpl planes stride ds grp bw dil s b s' :
  block_init block inpl planes stride ds grp bw dil s = inr (b, s') ->
  chained inpl (block_path b) (planes * expansion block) /\
  (forall h, path_out_size (block_path b) h = (h - 1) `div` stride + 1) /\
  conv_stride (block_conv3x3 b) = stride /\
  conv_dilation (block_conv3x3 b) = (match block with BasicBlock => 1 | Bottleneck => dil end) /\
  padding (block_conv3x3 b) = conv_dilation (block_conv3x3 b) /\
  (rng s <= rng s')%nat.
Proof.
  destruct block; unfold block_init, BasicBlock_init, Bottleneck_init.
  - destruct (bool_decide _); [run_M; discriminate|].
    destruct (bool_decide _); [run_M; discriminate|].
    run_M. intros [= <- <-]. simpl. unfold path_out_size, conv_out_size. simpl.
    repeat split; try reflexivity; try apply Z.divide_1_l; try lia.
    intros h. rewrite !size_3x3, (size_stride_1 ((h - 1) `div` stride + 1)). reflexivity.
  - run_M. intros [= <- <-]. simpl. unfold path_out_size, conv_out_size. simpl.
    repeat split; try reflexivity; try apply Z.divide_1_l; try lia;
      try (apply Z.divide_factor_r).
    intros h. rewrite !size_1x1, !size_3x3, !size_stride_1. reflexivity.
Qed.

(** The dilation a block of the class gets from the stage's. *)
Definition class_dilation (block : block_class) (dil : Z) : Z :=
  match block with BasicBlock => 1 | Bottleneck => dil end.

(** A block after the first of its stage. *)
Definition further_block (block : block_class) (planes dil : Z) (b : Block) : Prop :=
  block_consistent (planes * expansion block) b /\
  block_downsample b = None /\
  block_inplanes b = planes * expansion block /\
  conv_stride (block_conv3x3 b) = 1 /\
  conv_dilation (block_conv3x3 b) = class_dilation block dil /\
  padding (block_conv3x3 b) = conv_dilation (block_conv3x3 b).

Lemma more_blocks_path block planes (n : nat) layers s layer s' :
  more_blocks block planes n layers s = inr (layer, s') ->
  inplanes s = planes * expansion block ->
  exists rest,
    layer = layers ++ rest /\ length rest = n /\
    Forall (further_block block planes (dilation s)) rest /\
    inplanes s' = inplanes s /\ dilation s' = dilation s /\
    groups s' = groups s /\ base_width s' = base_width s /\ (rng s <= rng s')%nat.
Proof.
  revert layers s. induction n as [|n IH]; intros layers s; simpl.
  - intros [= <- <-] _. exists []. rewrite app_nil_r. repeat split; constructor.
  - intros H Hin.
    apply M_bind_inv in H as (s0 & s1 & Hg & H). apply get_inv in Hg as [-> ->].
    apply M_bind_inv in H as (b & s1 & Hb & H).
    pose proof (block_init_inv _ _ _ _ _ _ _ _ _ _ _ Hb)
      as (Hd & Hs & Hi & Hin1 & Hdil1 & Hg1 & Hw1).
    pose proof (block_init_path _ _ _ _ _ _ _ _ _ _ _ Hb)
      as (Hch & Hsz & Hcs & Hcd & Hpad & Hr1).
    apply IH in H as (rest & -> & Hlen & Hall & Hin' & Hdil' & Hg' & Hw' & Hr');
      [|congruence].
    exists (b :: rest). rewrite <- app_assoc. simpl.
    split; [reflexivity|]. split; [lia|]. split; [|repeat split; (congruence || lia)].
    constructor; [|rewrite <- Hdil1; exact Hall].
    unfold further_block, block_consistent, shortcut_channels, shortcut_out_size.
    rewrite Hd, Hi, Hin. rewrite Hin in Hch. split; [|auto].
    split; [exact Hch|]. split; [reflexivity|]. split; [intros d Hd'; discriminate Hd'|].
    intros h. rewrite Hsz. apply size_stride_1.
Qed.

(** What [_make_layer] builds and what it leaves of the state. *)
Lemma make_layer_full block planes blocks stride (dilate : bool) s layer s' :
  _make_layer block planes blocks stride dilate s = inr (layer, s') ->
  exists first rest,
    layer = first :: rest /\
    length rest = Z.to_nat (blocks - 1) /\
    block_inplanes first = inplanes s /\
    block_consistent (planes * expansion block) first /\
    conv_stride (block_conv3x3 first) = (if dilate then 1 else stride) /\
    conv_dilation (block_conv3x3 first) = class_dilation block (dilation s) /\
    padding (block_conv3x3 first) = conv_dilation (block_conv3x3 first) /\
    Forall (further_block block planes (dilation s')) rest /\
    inplanes s' = planes * expansion block /\
    dilation s' = (if dilate then dilation s * stride else dilation s) /\
    groups s' = groups s /\ base_width s' = base_width s /\ (rng s <= rng s')%nat.
Proof.
  unfold _make_layer. intros H.
  apply M_bind_inv in H as (s0 & s1 & Hg & H). apply get_inv in Hg as [-> ->].
  apply M_bind_inv in H as (stride' & s1 & Hstep & H).
  assert (Hs1 : stride' = (if dilate then 1 else stride) /\
                inplanes s1 = inplanes s /\ groups s1 = groups s /\
                base_width s1 = base_width s /\ rng s1 = rng s /\
                dilation s1 = (if dilate then dilation s * stride else dilation s)).
  { destruct dilate; run_M; injection Hstep as <- <-; simpl; auto 10. }
  destruct Hs1 as (-> & Hin1 & Hg1 & Hw1 & Hr1 & Hdil1). clear Hstep.
  apply M_bind_inv in H as (s0 & s2 & Hg & H). apply get_inv in Hg as [-> ->].
  apply M_bind_inv in H as (ds & s2 & Hds & H).
  set (stride' := if dilate then 1 else stride) in *.
  assert (Hs2 : inplanes s2 = inplanes s1 /\ groups s2 = groups s1 /\
                base_width s2 = base_width s1 /\ dilation s2 = dilation s1 /\
                (rng s1 <= rng s2)%nat /\
                match ds with
                | Some d =>
                    ds_conv d = mkConv2d (inplanes s1) (planes * expansion block) 1 stride'
                                  0 1 1 (conv_param (ds_conv d)) /\
                    num_features (ds_norm d) = planes * expansion block
                | None => stride' = 1 /\ inplanes s1 = planes * expansion block
                end).
  { destruct (bool_decide _) eqn:Hcond.
    - run_M. injection Hds as <- <-. simpl. repeat split; lia.
    - apply bool_decide_eq_false in Hcond.
      assert (stride' = 1 /\ inplanes s1 = planes * expansion block) as [Hst Hinp].
      { destruct (decide (stride' = 1)); [|exfalso; apply Hcond; auto].
        destruct (decide (inplanes s1 = planes * expansion block));
          [auto | exfalso; apply Hcond; auto]. }
      run_M. injection Hds as <- <-. repeat split; (assumption || lia). }
  destruct Hs2 as (Hin2 & Hg2 & Hw2 & Hdil2 & Hr2 & Hshort). clear Hds.
  apply M_bind_inv in H as (s0 & s3 & Hg & H). apply get_inv in Hg as [-> ->].
  apply M_bind_inv in H as (b & s3 & Hb & H).
  pose proof (block_init_inv _ _ _ _ _ _ _ _ _ _ _ Hb)
    as (Hd & Hs & Hi & Hin3 & Hdil3 & Hg3 & Hw3).
  pose proof (block_init_path _ _ _ _ _ _ _ _ _ _ _ Hb)
    as (Hch & Hsz & Hcs & Hcd & Hpad & Hr3).
  apply M_bind_inv in H as (u & s4 & Hset & H). apply set_inplanes_inv in Hset as ->.
  apply more_blocks_path in H as (rest & Hl & Hlen & Hall & Hin' & Hdil' & Hg' & Hw' & Hr');
    [|reflexivity].
  simpl in *. exists b, rest.
  split; [exact Hl|]. split; [exact Hlen|]. split; [congruence|].
  split.
  { unfold block_consistent, shortcut_channels, shortcut_out_size. rewrite Hd, Hi.
    split; [exact Hch|]. destruct ds as [d|].
    - destruct Hshort as [Hc Hn]. rewrite Hc. simpl.
      split; [reflexivity|]. split.
      + intros d' [= <-]. rewrite Hc. simpl. split; congruence.
      + intros h. rewrite Hsz. unfold conv_out_size. simpl. symmetry. apply size_1x1.
    - destruct Hshort as [Hst Hinp].
      split; [congruence|]. split; [intros d' Hd'; discriminate Hd'|].
      intros h. rewrite Hsz, Hst. apply size_stride_1. }
  split; [exact Hcs|]. split; [exact Hcd|]. split; [exact Hpad|].
  split; [rewrite Hdil'; exact Hall|].
  repeat split; (congruence || lia).
Qed.

(** A stage of [blocks] blocks from [cin] to [planes * expansion]
    channels: it has [max(1, blocks)] blocks, every block adds two tensors
    of the same shape, the first block reads [cin] channels and every
    further block what the block before it wrote. *)
Definition stage_chain (block : block_class) (cin planes blocks : Z) (l : Sequential)
    : Prop :=
  Z.of_nat (length l) = Z.max 1 blocks /\
  Forall (block_consistent (planes * expansion block)) l /\
  exists first rest,
    l = first :: rest /\ block_inplanes first = cin /\
    Forall (fun b => block_inplanes b = planes * expansion block) rest.

(** Where a stage puts stride and dilation: the first block's 3x3
    convolution has stride [stride] and dilation [dil], every further one
    stride 1 and dilation [dil']; the padding is the dilation. *)
Definition stage_dilation (block : block_class) (stride dil dil' : Z) (l : Sequential)
    : Prop :=
  exists first rest,
    l = first :: rest /\
    conv_stride (block_conv3x3 first) = stride /\
    conv_dilation (block_conv3x3 first) = class_dilation block dil /\
    Forall (fun b => conv_stride (block_conv3x3 b) = 1 /\
                     conv_dilation (block_conv3x3 b) = class_dilation block dil') rest /\
    Forall (fun b => padding (block_conv3x3 b) = conv_dilation (block_conv3x3 b)) l.

Lemma make_layer_chain block planes blocks stride (dilate : bool) s layer s' :
  _make_layer block planes blocks stride dilate s = inr (layer, s') ->
  stage_chain block (inplanes s) planes blocks layer /\
  stage_dilation block (if dilate then 1 else stride) (dilation s) (dilation s') layer.
Proof.
  intros H. apply make_layer_full in H
    as (first & rest & -> & Hlen & Hin & Hc & Hst & Hd & Hp & Hrest & _).
  split.
  - split; [simpl; lia|]. split.
    + constructor; [exact Hc|]. eapply Forall_impl; [exact Hrest|].
      intros b Hb. apply Hb.
    + exists first, rest. split; [reflexivity|]. split; [exact Hin|].
      eapply Forall_impl; [exact Hrest|]. intros b Hb. apply Hb.
  - exists first, rest. split; [reflexivity|]. split; [exact Hst|]. split; [exact Hd|].
    split.
    + eapply Forall_impl; [exact Hrest|]. intros b Hb. split; apply Hb.
    + constructor; [exact Hp|]. eapply Forall_impl; [exact Hrest|]. intros b Hb. apply Hb.
Qed.

(** X15: in a stage built by [_make_layer], whatever the block class and
    the arguments, every block adds a shortcut of the shape of its
    residual path: the same channel count ([planes * expansion]) and the
    same output size for every input size, the convolutions of the path
    and of the projection read what was written before them, and their
    group counts divide their channel counts. The stage has
    [max(1, blocks)] blocks (one even for [blocks <= 0]), the first reads
    [self.inplanes] channels and the others [planes * expansion], which is
    [self.inplanes] afterwards. *)
Theorem make_layer_shapes_agree block planes blocks stride (dilate : bool) s layer s' :
  _make_layer block planes blocks stride dilate s = inr (layer, s') ->
  stage_chain block (inplanes s) planes blocks layer /\
  inplanes s' = planes * expansion block /\
  groups s' = groups s /\ base_width s' = base_width s.
Proof.
  intros H. split; [apply (make_layer_chain _ _ _ _ _ _ _ _ H)|].
  apply make_layer_full in H as (first & rest & _ & _ & _ & _ & _ & _ & _ & _ & H).
  destruct H as (H1 & _ & H2 & H3 & _). auto.
Qed.

(** X16: how [_make_layer] places stride and dilation. Without [dilate]
    the first block's 3x3 convolution has the stride asked for and
    [self.dilation] stays; with [dilate] it has stride 1 and
    [self.dilation] is multiplied by the stride. The first block is built
    with the dilation from before the call, every further block with the
    one after it and with stride 1; a [BasicBlock] convolution has
    dilation 1 throughout, and every 3x3 convolution is padded by its
    dilation. *)
Theorem make_layer_stride_or_dilation block planes blocks stride (dilate : bool)
    s layer s' :
  _make_layer block planes blocks stride dilate s = inr (layer, s') ->
  dilation s' = (if dilate then dilation s * stride else dilation s) /\
  stage_dilation block (if dilate then 1 else stride) (dilation s) (dilation s') layer.
Proof.
  intros H. split; [|apply (make_layer_chain _ _ _ _ _ _ _ _ H)].
  apply make_layer_full in H as (first & rest & _ & _ & _ & _ & _ & _ & _ & _ & H).
  destruct H as (_ & H1 & _). exact H1.
Qed.

(** *** [BasicBlock] and dilation *)

Definition dilation_error : error :=
  NotImplementedError "Dilation > 1 not supported in BasicBlock".

Lemma BasicBlock_init_returns inpl planes stride ds dil s :
  dil <= 1 ->
  exists b s', BasicBlock_init inpl planes stride ds 1 64 dil s = inr (b, s').
Proof.
  intros Hd. unfold BasicBlock_init.
  rewrite bool_decide_eq_false_2 by (intros [H|H]; apply H; reflexivity).
  rewrite bool_decide_eq_false_2 by lia.
  run_M. eexists _, _. reflexivity.
Qed.

Lemma BasicBlock_init_dilated inpl planes stride ds dil s :
  dil > 1 -> BasicBlock_init inpl planes stride ds 1 64 dil s = inl dilation_error.
Proof.
  intros Hd. unfold BasicBlock_init.
  rewrite bool_decide_eq_false_2 by (intros [H|H]; apply H; reflexivity).
  rewrite bool_decide_eq_true_2 by lia. reflexivity.
Qed.

Lemma more_blocks_basic_returns planes (n : nat) layers s :
  groups s = 1 -> base_width s = 64 -> dilation s <= 1 ->
  exists layer s', more_blocks BasicBlock planes n layers s = inr (layer, s').
Proof.
  revert layers s. induction n as [|n IH]; intros layers s Hg Hw Hd; simpl.
  - eexists _, _. reflexivity.
  - unfold mbind at 1, M_bind at 1, get at 1. unfold mbind at 1, M_bind at 1.
    unfold block_init. rewrite Hg, Hw.
    destruct (BasicBlock_init_returns (inplanes s) planes 1 None (dilation s) s Hd)
      as (b & s1 & Hb).
    rewrite Hb.
    apply (block_init_inv BasicBlock) in Hb as (_ & _ & _ & _ & Hd1 & Hg1 & Hw1).
    apply IH; congruence.
Qed.

Lemma more_blocks_basic_dilated planes (n : nat) layers s :
  groups s = 1 -> base_width s = 64 -> dilation s > 1 ->
  more_blocks BasicBlock planes (S n) layers s = inl dilation_error.
Proof.
  intros Hg Hw Hd. simpl.
  unfold mbind at 1, M_bind at 1, get at 1. unfold mbind at 1, M_bind at 1.
  unfold block_init. rewrite Hg, Hw.
  rewrite BasicBlock_init_dilated by exact Hd. reflexivity.
Qed.

(** The state [_make_layer] is in when it calls the block class. *)
Lemma make_layer_unfold block planes blocks stride (dilate : bool) s :
  exists ds s2,
    inplanes s2 = inplanes s /\
    dilation s2 = (if dilate then dilation s * stride else dilation s) /\
    groups s2 = groups s /\ base_width s2 = base_width s /\
    _make_layer block planes blocks stride dilate s
    = match block_init block (inplanes s) planes (if dilate then 1 else stride) ds
              (groups s) (base_width s) (dilation s) s2 with
      | inl e => inl e
      | inr (b, s3) =>
          more_blocks block planes (Z.to_nat (blocks - 1)) [b]
            (mkSelf (planes * expansion block) (dilation s3) (groups s3)
               (base_width s3) (rng s3))
      end.
Proof.
  unfold _make_layer.
  unfold mbind at 1, M_bind at 1, get at 1.
  set (stride' := if dilate then 1 else stride).
  set (s1 := if dilate
             then mkSelf (inplanes s) (dilation s * stride) (groups s) (base_width s) (rng s)
             else s).
  assert (Hstep : (if dilate
                   then set_dilation (dilation s * stride) ≫= (fun _ : () => mret 1)
                   else mret stride) s = inr (stride', s1)).
  { subst stride' s1. destruct dilate; reflexivity. }
  unfold mbind at 1, M_bind at 1. rewrite Hstep.
  assert (Hs1 : inplanes s1 = inplanes s /\ groups s1 = groups s /\
                base_width s1 = base_width s /\
                dilation s1 = (if dilate then dilation s * stride else dilation s)).
  { subst s1. destruct dilate; auto. }
  destruct Hs1 as (Hi1 & Hg1 & Hw1 & Hd1). clearbody s1 stride'. clear Hstep.
  unfold mbind at 1, M_bind at 1, get at 1.
  unfold mbind at 1, M_bind at 1.
  destruct (bool_decide _).
  - run_M. rewrite Hi1, Hg1, Hw1. eexists _, _.
    split; [|split; [|split; [|split; [|reflexivity]]]]; simpl; auto.
  - run_M. rewrite Hi1, Hg1, Hw1. eexists _, _.
    split; [|split; [|split; [|split; [|reflexivity]]]]; simpl; auto.
Qed.

Lemma make_layer_basic planes blocks stride (dilate : bool) s :
  groups s = 1 -> base_width s = 64 ->
  (dilation s > 1 ->
   _make_layer BasicBlock planes blocks stride dilate s = inl dilation_error) /\
  (dilation s <= 1 -> dilate = true -> dilation s * stride > 1 -> 2 <= blocks ->
   _make_layer BasicBlock planes blocks stride dilate s = inl dilation_error) /\
  (dilation s <= 1 -> dilate = false \/ dilation s * stride <= 1 \/ blocks <= 1 ->
   exists layer s', _make_layer BasicBlock planes blocks stride dilate s = inr (layer, s')).
Proof.
  intros Hg Hw.
  destruct (make_layer_unfold BasicBlock planes blocks stride dilate s)
    as (ds & s2 & Hi2 & Hd2 & Hg2 & Hw2 & ->).
  change (block_init BasicBlock) with BasicBlock_init. rewrite Hg, Hw. split; [|split].
  - intros Hd. rewrite BasicBlock_init_dilated by exact Hd. reflexivity.
  - intros Hd -> Hmul Hb.
    destruct (BasicBlock_init_returns (inplanes s) planes 1 ds (dilation s) s2 Hd)
      as (b & s3 & Hb3).
    change (if true then 1 else stride) with 1. rewrite Hb3.
    apply (block_init_inv BasicBlock) in Hb3 as (_ & _ & _ & _ & Hd3 & Hg3 & Hw3).
    destruct (Z.to_nat (blocks - 1)) as [|n] eqn:Hn; [lia|].
    apply more_blocks_basic_dilated; simpl; congruence.
  - intros Hd Hcase.
    destruct (BasicBlock_init_returns (inplanes s) planes (if dilate then 1 else stride)
                ds (dilation s) s2 Hd) as (b & s3 & Hb3).
    rewrite Hb3.
    apply (block_init_inv BasicBlock) in Hb3 as (_ & _ & _ & _ & Hd3 & Hg3 & Hw3).
    destruct (decide (blocks <= 1)) as [Hb1|Hb1].
    + replace (Z.to_nat (blocks - 1)) with 0%nat by lia. simpl. eexists _, _. reflexivity.
    + apply more_blocks_basic_returns; simpl; try congruence.
      rewrite Hd3, Hd2. destruct dilate; simpl; [|exact Hd].
      destruct Hcase as [Hc|[Hc|Hc]]; [discriminate | exact Hc | lia].
Qed.

(** X17: [BasicBlock] stages and dilation. With [groups = 1] and
    [base_width = 64], [_make_layer] with [BasicBlock] raises
    [NotImplementedError] when [self.dilation] is above 1 already, and when
    [dilate] takes it above 1 and the stage has a second block to build;
    in every other case it returns a stage. So replacing a stride by
    dilation works for a [BasicBlock] stage of one block only, and makes
    the next stage raise. *)
Theorem make_layer_basic_dilation planes blocks stride (dilate : bool) s :
  groups s = 1 -> base_width s = 64 ->
  (dilation s > 1 ->
   _make_layer BasicBlock planes blocks stride dilate s = inl dilation_error) /\
  (dilation s <= 1 -> dilate = true -> dilation s * stride > 1 -> 2 <= blocks ->
   _make_layer BasicBlock planes blocks stride dilate s = inl dilation_error) /\
  (dilation s <= 1 -> dilate = false \/ dilation s * stride <= 1 \/ blocks <= 1 ->
   exists layer s',
     _make_layer BasicBlock planes blocks stride dilate s = inr (layer, s') /\
     dilation s' = (if dilate then dilation s * stride else dilation s)).
Proof.
  intros Hg Hw. destruct (make_layer_basic planes blocks stride dilate s Hg Hw)
    as (H1 & H2 & H3).
  split; [exact H1|]. split; [exact H2|].
  intros Hd Hcase. destruct (H3 Hd Hcase) as (layer & s' & Hmk).
  exists layer, s'. split; [exact Hmk|].
  apply make_layer_full in Hmk as (first & rest & _ & _ & _ & _ & _ & _ & _ & _ & H).
  destruct H as (_ & H & _). exact H.
Qed.

(** *** The whole constructor *)

(** The state after the stem's convolution and normalisation layer. *)
Definition stem_state (s : self_state) : self_state :=
  mkSelf (inplanes s) (dilation s) (groups s) (base_width s) (S (S (rng s))).

Definition after_linear (s : self_state) : self_state :=
  mkSelf (inplanes s) (dilation s) (groups s) (base_width s) (S (rng s)).

(** One iteration of the loop over the branches. *)
Lemma init_branches_step block layers (dilate : bool) classes fix_planes
    (n : nat) (i : Z) d s :
  init_branches block layers dilate classes fix_planes i (S n) d s
  = match layers !! 2%nat with
    | None => inl IndexError
    | Some blocks =>
        match _make_layer block 64 blocks 2 dilate
                (mkSelf fix_planes (dilation s) (groups s) (base_width s) (rng s)) with
        | inl e => inl e
        | inr (l, s3) =>
            init_branches block layers dilate classes fix_planes (i + 1) n
              (<[classifier_name i :=
                   MLinear (mkLinear (64 * expansion block) classes true (rng s3))]>
                 (<[layer3_name i := MSequential l]> d))
              (after_linear s3)
        end
    end.
Proof.
  simpl. unfold mbind at 1, M_bind at 1, set_inplanes at 1.
  unfold mbind at 1, M_bind at 1, index at 1.
  destruct (layers !! 2%nat) as [blocks|]; [|reflexivity].
  unfold mret at 1, M_ret at 1.
  unfold mbind at 1, M_bind at 1.
  destruct (_make_layer block 64 blocks 2 dilate _) as [e|[l s3]]; [reflexivity|].
  reflexivity.
Qed.

(** The constructor, stage by stage. *)
Lemma ResNet_body_eq block layers nets classes rswd (a b c : bool) s :
  default [false; false; false] rswd = [a; b; c] ->
  ResNet_body block layers nets classes rswd s
  = match layers !! 0%nat with
    | None => inl IndexError
    | Some n0 =>
        match _make_layer block 16 n0 1 false (stem_state s) with
        | inl e => inl e
        | inr (l1, s1) =>
            match layers !! 1%nat with
            | None => inl IndexError
            | Some n1 =>
                match _make_layer block 32 n1 2 b s1 with
                | inl e => inl e
                | inr (l2, s2) =>
                    match init_branches block layers c classes (inplanes s2) 0
                            (Z.to_nat nets) ∅ s2 with
                    | inl e => inl e
                    | inr (d, s3) =>
                        inr (mkResNet nets nets classes
                               (mkConv2d 3 (inplanes s) 3 1 1 1 1 (rng s))
                               (mkBatchNorm2d (inplanes s) (S (rng s)))
                               l1 l2 d
                               (mkLinear (64 * expansion block)
                                  ((64 * expansion block) `div` 8) false (rng s3))
                               (mkLinear (64 * expansion block)
                                  ((64 * expansion block) `div` 8) false (S (rng s3))),
                             after_linear (after_linear s3))
                    end
                end
            end
        end
    end.
Proof.
  intros Hr. unfold ResNet_body. rewrite Hr. simpl length.
  rewrite bool_decide_eq_false_2 by (intros H; apply H; reflexivity).
  unfold mbind at 1, M_bind at 1, get at 1.
  unfold mbind at 1, M_bind at 1, nn_Conv2d at 1, fresh at 1.
  unfold mbind at 1, M_bind at 1, mret at 1, M_ret at 1.
  unfold mbind at 1, M_bind at 1, norm_layer at 1, fresh at 1.
  unfold mbind at 1, M_bind at 1, mret at 1, M_ret at 1.
  unfold mbind at 1, M_bind at 1, index at 1.
  destruct (layers !! 0%nat) as [n0|]; [|reflexivity].
  unfold mret at 1, M_ret at 1.
  unfold mbind at 1, M_bind at 1. simpl.
  fold (stem_state s).
  destruct (_make_layer block 16 n0 1 false (stem_state s)) as [e|[l1 s1]]; [reflexivity|].
  unfold mbind at 1, M_bind at 1, index at 1.
  destruct (layers !! 1%nat) as [n1|]; [|reflexivity].
  unfold mret at 1, M_ret at 1.
  unfold mbind at 1, M_bind at 1, index at 1. simpl.
  unfold mbind at 1, M_bind at 1.
  destruct (_make_layer block 32 n1 2 b s1) as [e|[l2 s2]]; [reflexivity|].
  unfold mbind at 1, M_bind at 1, get at 1.
  unfold mbind at 1, M_bind at 1, index at 1. simpl.
  unfold mbind at 1, M_bind at 1.
  destruct (init_branches block layers c classes (inplanes s2) 0 (Z.to_nat nets) ∅ s2)
    as [e|[d s3]]; [reflexivity|].
  reflexivity.
Qed.

(** What the loop over the branches stores for branch [j], when it starts
    at index [i] with dilation [dil]. *)
Definition branch_built (block : block_class) (layers : list Z) (dilate : bool)
    (classes fix_planes dil i : Z) (d : gmap string Module) (j : Z) : Prop :=
  exists blocks l c,
    layers !! 2%nat = Some blocks /\
    d !! layer3_name j = Some (MSequential l) /\
    d !! classifier_name j = Some (MLinear c) /\
    stage_chain block fix_planes 64 blocks l /\
    stage_dilation block (if dilate then 1 else 2)
      (dil * (if dilate then 2 ^ (j - i) else 1))
      (dil * (if dilate then 2 ^ (j - i + 1) else 1)) l /\
    in_features c = 64 * expansion block /\ out_features c = classes /\
    has_bias c = true.

Lemma init_branches_full block layers (dilate : bool) classes fix_planes
    (n : nat) (i : Z) d s d' s' :
  init_branches block layers dilate classes fix_planes i n d s = inr (d', s') ->
  (forall j, i <= j < i + Z.of_nat n ->
     branch_built block layers dilate classes fix_planes (dilation s) i d' j) /\
  dilation s' = dilation s * (if dilate then 2 ^ Z.of_nat n else 1) /\
  groups s' = groups s /\ base_width s' = base_width s.
Proof.
  revert i d s. induction n as [|n IH]; intros i d s.
  - simpl. intros [= <- <-]. split; [intros j Hj; lia|].
    split; [destruct dilate; simpl; lia | auto].
  - rewrite init_branches_step.
    destruct (layers !! 2%nat) as [blocks|] eqn:Hidx; [|discriminate].
    destruct (_make_layer block 64 blocks 2 dilate _) as [e|[l s3]] eqn:Hmk; [discriminate|].
    intros H.
    pose proof (make_layer_chain _ _ _ _ _ _ _ _ Hmk) as [Hchain Hdil].
    pose proof (make_layer_full _ _ _ _ _ _ _ _ Hmk)
      as (? & ? & _ & _ & _ & _ & _ & _ & _ & _ & _ & Hd3 & Hg3 & Hw3 & _).
    simpl in Hchain, Hdil, Hd3, Hg3, Hw3.
    pose proof (init_branches_inv _ _ _ _ _ _ _ _ _ _ _ H) as [_ Hold].
    apply IH in H as (Hnew & Hd' & Hg' & Hw'). simpl in Hd', Hg', Hw'.
    split; [|split; [|split; congruence]].
    + intros j Hj. destruct (decide (j = i)) as [->|Hne].
      * exists blocks, l, (mkLinear (64 * expansion block) classes true (rng s3)).
        split; [exact Hidx|].
        rewrite !Hold.
        -- rewrite lookup_insert_ne by (apply not_eq_sym, layer3_ne_classifier).
           rewrite !lookup_insert_eq.
           split; [reflexivity|]. split; [reflexivity|]. split; [exact Hchain|].
           split; [|simpl; auto].
           replace (i - i) with 0 by lia. rewrite Hd3 in Hdil.
           destruct dilate; simpl; [|rewrite Z.mul_1_r]; simpl in Hdil;
             rewrite ?Z.mul_1_r; exact Hdil.
        -- intros j Hj'. split; [apply not_eq_sym, layer3_ne_classifier|].
           intros Heq. apply classifier_name_inj in Heq. lia.
        -- intros j Hj'. split; [|apply layer3_ne_classifier].
           intros Heq. apply layer3_name_inj in Heq. lia.
      * destruct (Hnew j ltac:(lia))
          as (bl & lj & cj & H1 & H2 & H3 & H4 & H5 & H6).
        exists bl, lj, cj. split; [exact H1|]. split; [exact H2|]. split; [exact H3|].
        split; [exact H4|]. split; [|exact H6].
        change (dilation (after_linear s3)) with (dilation s3) in H5.
        rewrite Hd3 in H5. destruct dilate; [|exact H5].
        replace (dilation s * 2 ^ (j - i)) with (dilation s * 2 * 2 ^ (j - (i + 1))).
        2:{ replace (j - i) with (Z.succ (j - (i + 1))) by lia.
            rewrite Z.pow_succ_r by lia. lia. }
        replace (dilation s * 2 ^ (j - i + 1))
          with (dilation s * 2 * 2 ^ (j - (i + 1) + 1)).
        2:{ replace (j - i + 1) with (Z.succ (j - (i + 1) + 1)) by lia.
            rewrite Z.pow_succ_r by lia. lia. }
        exact H5.
    + rewrite Hd', Hd3. destruct dilate; [|lia].
      rewrite Nat2Z.inj_succ, Z.pow_succ_r by lia. lia.
Qed.

(** What the constructor builds. *)
Lemma ResNet_init_structure block layers nets classes grp wpg rswd rng0 self
    (a b c : bool) :
  default [false; false; false] rswd = [a; b; c] ->
  ResNet_init block layers nets classes grp wpg rswd rng0 = inr self ->
  exists n0 n1,
    layers !! 0%nat = Some n0 /\ layers !! 1%nat = Some n1 /\
    conv1 self = mkConv2d 3 16 3 1 1 1 1 rng0 /\
    num_features (bn1 self) = 16 /\
    stage_chain block 16 16 n0 (layer1 self) /\
    stage_dilation block 1 1 1 (layer1 self) /\
    stage_chain block (16 * expansion block) 32 n1 (layer2 self) /\
    stage_dilation block (if b then 1 else 2) 1 (if b then 2 else 1) (layer2 self) /\
    (forall j, 0 <= j < nets ->
       branch_built block layers c classes (32 * expansion block) (if b then 2 else 1) 0
         (attrs self) j) /\
    (nets <= 0 -> attrs self = ∅) /\
    query_weight self
    = mkLinear (64 * expansion block) ((64 * expansion block) `div` 8) false
        (lin_param (query_weight self)) /\
    key_weight self
    = mkLinear (64 * expansion block) ((64 * expansion block) `div` 8) false
        (lin_param (key_weight self)).
Proof.
  intros Hr. unfold ResNet_init. rewrite (ResNet_body_eq _ _ _ _ _ a b c _ Hr).
  destruct (layers !! 0%nat) as [n0|]; [|discriminate].
  destruct (_make_layer block 16 n0 1 false _) as [e|[l1 s1]] eqn:H1; [discriminate|].
  destruct (layers !! 1%nat) as [n1|]; [|discriminate].
  destruct (_make_layer block 32 n1 2 b s1) as [e|[l2 s2]] eqn:H2; [discriminate|].
  destruct (init_branches _ _ _ _ _ _ _ _ _) as [e|[d s3]] eqn:H3; [discriminate|].
  intros [= <-]. simpl.
  pose proof (make_layer_chain _ _ _ _ _ _ _ _ H1) as [Hc1 Hd1].
  pose proof (make_layer_full _ _ _ _ _ _ _ _ H1)
    as (? & ? & _ & _ & _ & _ & _ & _ & _ & _ & Hi1 & Hdil1 & _).
  pose proof (make_layer_chain _ _ _ _ _ _ _ _ H2) as [Hc2 Hd2].
  pose proof (make_layer_full _ _ _ _ _ _ _ _ H2)
    as (? & ? & _ & _ & _ & _ & _ & _ & _ & _ & Hi2 & Hdil2 & _).
  simpl in Hc1, Hd1, Hi1, Hdil1. rewrite Hi1 in Hc2. rewrite Hdil1 in Hd2, Hdil2.
  rewrite Hdil1 in Hd1. rewrite Hdil2 in Hd2.
  assert (Hdil2' : dilation s2 = if b then 2 else 1) by (destruct b; lia).
  exists n0, n1. split; [reflexivity|]. split; [reflexivity|].
  split; [reflexivity|]. split; [reflexivity|].
  split; [exact Hc1|]. split; [exact Hd1|]. split; [exact Hc2|].
  split; [destruct b; exact Hd2|].
  split; [|split; [|split; reflexivity]].
  - intros j Hj. apply init_branches_full in H3 as [Hb _].
    rewrite Hi2, Hdil2' in Hb. apply Hb. lia.
  - intros Hn. replace (Z.to_nat nets) with 0%nat in H3 by lia. simpl in H3.
    injection H3 as <- _. reflexivity.
Qed.

Lemma ResNet_init_flags block layers nets classes grp wpg rswd rng0 self :
  ResNet_init block layers nets classes grp wpg rswd rng0 = inr self ->
  exists a b c : bool, default [false; false; false] rswd = [a; b; c].
Proof.
  unfold ResNet_init, ResNet_body.
  destruct (bool_decide _) eqn:Hlen; [discriminate|]. intros _.
  apply bool_decide_eq_false in Hlen.
  destruct (default [false; false; false] rswd) as [|a [|b [|c [|? ?]]]]; simpl in Hlen;
    try (exfalso; apply Hlen; intros H; discriminate H).
  exists a, b, c. reflexivity.
Qed.

(** X18: the channel counts of a network the constructor returns. The
    stem takes 3 channels to 16 and keeps the size; [layer1] takes 16 to
    [16 * expansion], [layer2] that to [32 * expansion], and the tail of
    every branch [0 <= j < number_net] takes [32 * expansion] (the
    constructor resets [self.inplanes] before each branch) to
    [64 * expansion], which its classifier, a linear layer with bias,
    takes to [num_classes]; the stages have [max(1, layers[k])] blocks
    whose two summands agree in shape. The two attention projections
    take [64 * expansion] to [8 * expansion] without bias. *)
Theorem ResNet_init_channels block layers nets classes grp wpg rswd rng0 self :
  ResNet_init block layers nets classes grp wpg rswd rng0 = inr self ->
  exists n0 n1,
    layers !! 0%nat = Some n0 /\ layers !! 1%nat = Some n1 /\
    in_channels (conv1 self) = 3 /\ out_channels (conv1 self) = 16 /\
    num_features (bn1 self) = 16 /\
    (forall h, conv_out_size (conv1 self) h = h) /\
    stage_chain block 16 16 n0 (layer1 self) /\
    stage_chain block (16 * expansion block) 32 n1 (layer2 self) /\
    (forall j, 0 <= j < nets ->
       exists n2 l c,
         layers !! 2%nat = Some n2 /\
         attrs self !! layer3_name j = Some (MSequential l) /\
         attrs self !! classifier_name j = Some (MLinear c) /\
         stage_chain block (32 * expansion block) 64 n2 l /\
         in_features c = 64 * expansion block /\ out_features c = classes /\
         has_bias c = true) /\
    in_features (query_weight self) = 64 * expansion block /\
    out_features (query_weight self) = 8 * expansion block /\
    has_bias (query_weight self) = false /\
    in_features (key_weight self) = 64 * expansion block /\
    out_features (key_weight self) = 8 * expansion block /\
    has_bias (key_weight self) = false.
Proof.
  intros H. destruct (ResNet_init_flags _ _ _ _ _ _ _ _ _ H) as (a & b & c & Hr).
  destruct (ResNet_init_structure _ _ _ _ _ _ _ _ _ a b c Hr H)
    as (n0 & n1 & H0 & H1 & Hc & Hb & Hl1 & _ & Hl2 & _ & Hbr & _ & Hq & Hk).
  exists n0, n1. split; [exact H0|]. split; [exact H1|].
  rewrite Hc, Hq, Hk. simpl.
  split; [reflexivity|]. split; [reflexivity|]. split; [exact Hb|].
  split. { intros h. unfold conv_out_size. simpl. rewrite Z.div_1_r. lia. }
  split; [exact Hl1|]. split; [exact Hl2|]. split.
  - intros j Hj. destruct (Hbr j Hj) as (n2 & l & cl & ? & ? & ? & ? & _ & ? & ? & ?).
    exists n2, l, cl. auto 10.
  - destruct block; simpl; repeat split; reflexivity.
Qed.

(** X19: where a network the constructor returns has its strides and
    dilations. [layer1] has stride 1 and dilation 1 whatever
    [replace_stride_with_dilation[0]] says: the flag is never read.
    [layer2] has stride 2, or with flag 1 stride 1 and dilation 2 from its
    second block on. The tail of branch [j] starts at the dilation the
    branch before it ended with, since [self.dilation], unlike
    [self.inplanes], is not reset before a branch: with flag 2 its first
    block has dilation [d * 2^j] and the others [d * 2^(j+1)], [d] being
    the dilation after [layer2], so that no two branches have the same
    architecture ([Bottleneck]; the dilation of a [BasicBlock] convolution
    is 1 in any case). *)
Theorem branch_dilation_accumulates block layers nets classes grp wpg
    (a b c : bool) rng0 self :
  ResNet_init block layers nets classes grp wpg (Some [a; b; c]) rng0 = inr self ->
  ResNet_init block layers nets classes grp wpg (Some [negb a; b; c]) rng0 = inr self /\
  stage_dilation block 1 1 1 (layer1 self) /\
  stage_dilation block (if b then 1 else 2) 1 (if b then 2 else 1) (layer2 self) /\
  forall j, 0 <= j < nets ->
    exists l,
      attrs self !! layer3_name j = Some (MSequential l) /\
      stage_dilation block (if c then 1 else 2)
        ((if b then 2 else 1) * (if c then 2 ^ j else 1))
        ((if b then 2 else 1) * (if c then 2 ^ (j + 1) else 1)) l.
Proof.
  intros H. split.
  { rewrite <- H. unfold ResNet_init.
    rewrite (ResNet_body_eq _ _ _ _ (Some [negb a; b; c]) (negb a) b c _ eq_refl).
    rewrite (ResNet_body_eq _ _ _ _ (Some [a; b; c]) a b c _ eq_refl). reflexivity. }
  destruct (ResNet_init_structure block layers nets classes grp wpg (Some [a; b; c])
              rng0 self a b c eq_refl H)
    as (n0 & n1 & _ & _ & _ & _ & _ & Hl1 & _ & Hl2 & Hbr & _).
  split; [exact Hl1|]. split; [exact Hl2|].
  intros j Hj. destruct (Hbr j Hj) as (n2 & l & cl & _ & Hl & _ & _ & Hd & _).
  exists l. split; [exact Hl|]. rewrite Z.sub_0_r in Hd. exact Hd.
Qed.

(** *** Which constructor calls return *)

Lemma Bottleneck_init_returns inpl planes stride ds grp bw dil s :
  exists b s', Bottleneck_init inpl planes stride ds grp bw dil s = inr (b, s').
Proof. unfold Bottleneck_init. run_M. eexists _, _. reflexivity. Qed.

Lemma more_blocks_bottleneck_returns planes (n : nat) layers s :
  exists layer s', more_blocks Bottleneck planes n layers s = inr (layer, s').
Proof.
  revert layers s. induction n as [|n IH]; intros layers s; simpl.
  - eexists _, _. reflexivity.
  - unfold mbind at 1, M_bind at 1, get at 1. unfold mbind at 1, M_bind at 1.
    change (block_init Bottleneck) with Bottleneck_init.
    destruct (Bottleneck_init_returns (inplanes s) planes 1 None (groups s) (base_width s)
                (dilation s) s) as (b & s1 & Hb).
    rewrite Hb. apply IH.
Qed.

Lemma make_layer_bottleneck_returns planes blocks stride (dilate : bool) s :
  exists layer s', _make_layer Bottleneck planes blocks stride dilate s = inr (layer, s').
Proof.
  destruct (make_layer_unfold Bottleneck planes blocks stride dilate s)
    as (ds & s2 & _ & _ & _ & _ & ->).
  change (block_init Bottleneck) with Bottleneck_init.
  destruct (Bottleneck_init_returns (inplanes s) planes (if dilate then 1 else stride) ds
              (groups s) (base_width s) (dilation s) s2) as (b & s3 & Hb).
  rewrite Hb. apply more_blocks_bottleneck_returns.
Qed.

(** The loop over the branches returns when every stage does. *)
Lemma init_branches_returns (P : self_state -> Prop) block layers (dilate : bool)
    classes fix_planes blocks (n : nat) (i : Z) d s :
  (n <> 0%nat -> layers !! 2%nat = Some blocks) ->
  (forall s, P s ->
     exists l s',
       _make_layer block 64 blocks 2 dilate
         (mkSelf fix_planes (dilation s) (groups s) (base_width s) (rng s)) = inr (l, s') /\
       P (after_linear s')) ->
  P s ->
  exists d' s', init_branches block layers dilate classes fix_planes i n d s = inr (d', s').
Proof.
  intros Hidx Hstep. revert i d s. induction n as [|n IH]; intros i d s HP.
  - simpl. eexists _, _. reflexivity.
  - rewrite init_branches_step, Hidx by lia.
    destruct (Hstep s HP) as (l & s3 & -> & HP3).
    apply IH; [intros _; apply Hidx; lia | exact HP3].
Qed.

(** X20: a [Bottleneck] network (such as [okddip_resnet110]) builds
    whenever [replace_stride_with_dilation] has three entries, whatever
    they are, and [layers] has the entries the constructor reads: three,
    or two when there is no branch; with fewer, the constructor raises
    [IndexError]. Groups, width and class count are taken positive, as the
    tensor library's layers need them. *)
Theorem bottleneck_network_builds layers nets classes grp wpg rswd rng0 :
  length (default [false; false; false] rswd) = 3%nat ->
  0 < grp -> 4 <= wpg -> 0 < classes ->
  ((3 <= length layers)%nat \/ ((2 <= length layers)%nat /\ nets <= 0) ->
   exists self, ResNet_init Bottleneck layers nets classes grp wpg rswd rng0 = inr self) /\
  ((length layers < 2)%nat \/ (length layers = 2%nat /\ 1 <= nets) ->
   ResNet_init Bottleneck layers nets classes grp wpg rswd rng0 = inl IndexError).
Proof.
  intros Hlen _ _ _.
  destruct (default [false; false; false] rswd) as [|a [|b [|c [|? ?]]]] eqn:Hr;
    try discriminate Hlen.
  unfold ResNet_init. rewrite (ResNet_body_eq _ _ _ _ _ a b c _ Hr). split.
  - intros Hl.
    destruct (layers !! 0%nat) as [n0|] eqn:H0;
      [|apply lookup_ge_None in H0; lia].
    destruct (make_layer_bottleneck_returns 16 n0 1 false
                (stem_state (mkSelf 16 1 grp wpg rng0))) as (l1 & s1 & ->).
    destruct (layers !! 1%nat) as [n1|] eqn:H1;
      [|apply lookup_ge_None in H1; lia].
    destruct (make_layer_bottleneck_returns 32 n1 2 b s1) as (l2 & s2 & ->).
    destruct (init_branches_returns (fun _ => True) Bottleneck layers c classes
                (inplanes s2) (default 0 (layers !! 2%nat)) (Z.to_nat nets) 0 ∅ s2)
      as (d & s3 & ->).
    + intros Hn. destruct (layers !! 2%nat) eqn:H2; [reflexivity|].
      apply lookup_ge_None in H2. lia.
    + intros s _. destruct (make_layer_bottleneck_returns 64
                              (default 0 (layers !! 2%nat)) 2 c
                              (mkSelf (inplanes s2) (dilation s) (groups s)
                                 (base_width s) (rng s))) as (l & s' & ->).
      exists l, s'. auto.
    + exact I.
    + eexists. reflexivity.
  - intros Hl.
    destruct (layers !! 0%nat) as [n0|] eqn:H0; [|reflexivity].
    destruct (make_layer_bottleneck_returns 16 n0 1 false
                (stem_state (mkSelf 16 1 grp wpg rng0))) as (l1 & s1 & ->).
    destruct (layers !! 1%nat) as [n1|] eqn:H1; [|reflexivity].
    destruct (make_layer_bottleneck_returns 32 n1 2 b s1) as (l2 & s2 & ->).
    assert (Hlen2 : length layers = 2%nat /\ 1 <= nets).
    { destruct Hl as [Hl|Hl]; [|exact Hl].
      apply lookup_lt_Some in H1. lia. }
    destruct (Z.to_nat nets) as [|n] eqn:Hn; [lia|].
    rewrite init_branches_step.
    rewrite (proj2 (lookup_ge_None layers 2)) by lia. reflexivity.
Qed.

(** X21: a [BasicBlock] network (such as [okddip_resnet32], which has
    five blocks in every stage) and [replace_stride_with_dilation]. With
    [groups = 1] and [width_per_group = 64] the constructor raises
    [NotImplementedError] when flag 1 is set and [layer2] has a second
    block or there is a branch, and when flag 2 is set and the first
    branch has a second block or there is a second branch; it returns a
    network when neither flag is set. Flag 0 plays no part. *)
Theorem basic_network_dilation (n0 n1 n2 : Z) (rest : list Z) nets classes
    (a b c : bool) rng0 :
  0 < classes ->
  let r := ResNet_init BasicBlock (n0 :: n1 :: n2 :: rest) nets classes 1 64
             (Some [a; b; c]) rng0 in
  (b = true -> 2 <= n1 \/ 1 <= nets -> r = inl dilation_error) /\
  (b = false -> c = true -> (1 <= nets /\ 2 <= n2) \/ 2 <= nets -> r = inl dilation_error) /\
  (b = false -> c = false -> exists self, r = inr self).
Proof.
  intros _ r. subst r. unfold ResNet_init.
  rewrite (ResNet_body_eq _ _ _ _ (Some [a; b; c]) a b c _ eq_refl). simpl lookup.
  cbv beta iota.
  set (s0 := stem_state (mkSelf 16 1 1 64 rng0)).
  destruct (make_layer_basic 16 n0 1 false s0 eq_refl eq_refl) as (_ & _ & H1).
  destruct H1 as (l1 & s1 & Hmk1); [simpl; lia | left; reflexivity |].
  rewrite Hmk1.
  apply make_layer_full in Hmk1
    as (? & ? & _ & _ & _ & _ & _ & _ & _ & _ & Hi1 & Hd1 & Hg1 & Hw1 & _).
  simpl in Hd1, Hg1, Hw1.
  destruct (make_layer_basic 32 n1 2 b s1 Hg1 Hw1) as (_ & H2e & H2r).
  split; [|split].
  - intros -> Hcase. destruct (decide (2 <= n1)) as [Hn1|Hn1].
    + rewrite H2e by (reflexivity || lia). reflexivity.
    + destruct H2r as (l2 & s2 & Hmk2); [lia | right; right; lia |].
      rewrite Hmk2.
      apply make_layer_full in Hmk2
        as (? & ? & _ & _ & _ & _ & _ & _ & _ & _ & Hi2 & Hd2 & Hg2 & Hw2 & _).
    rewrite Hg1 in Hg2. rewrite Hw1 in Hw2. rewrite Hd1 in Hd2.
      destruct (Z.to_nat nets) as [|n] eqn:Hn; [lia|].
      rewrite init_branches_step. simpl lookup. cbv beta iota.
      rewrite (proj1 (make_layer_basic 64 n2 2 c
                        (mkSelf (inplanes s2) (dilation s2) (groups s2) (base_width s2)
                           (rng s2)) Hg2 Hw2)) by (simpl; lia).
      reflexivity.
  - intros -> -> Hcase.
    destruct H2r as (l2 & s2 & Hmk2); [lia | left; reflexivity |].
    rewrite Hmk2.
    apply make_layer_full in Hmk2
      as (? & ? & _ & _ & _ & _ & _ & _ & _ & _ & Hi2 & Hd2 & Hg2 & Hw2 & _).
    rewrite Hg1 in Hg2. rewrite Hw1 in Hw2. rewrite Hd1 in Hd2.
    destruct (Z.to_nat nets) as [|n] eqn:Hn; [lia|].
    rewrite init_branches_step. simpl lookup. cbv beta iota.
    set (sb := mkSelf (inplanes s2) (dilation s2) (groups s2) (base_width s2) (rng s2)).
    destruct (make_layer_basic 64 n2 2 true sb Hg2 Hw2) as (_ & H3e & H3r).
    destruct (decide (2 <= n2)) as [Hn2|Hn2].
    + rewrite H3e by (simpl; (reflexivity || lia)). reflexivity.
    + destruct H3r as (l3 & s3 & Hmk3); [simpl; lia | right; right; lia |].
      rewrite Hmk3.
      apply make_layer_full in Hmk3
        as (? & ? & _ & _ & _ & _ & _ & _ & _ & _ & Hi3 & Hd3 & Hg3 & Hw3 & _).
      simpl in Hd3, Hg3, Hw3.
      rewrite Hg2 in Hg3. rewrite Hw2 in Hw3. rewrite Hd2 in Hd3.
      destruct n as [|n]; [lia|].
      rewrite init_branches_step. simpl lookup. cbv beta iota.
      rewrite (proj1 (make_layer_basic 64 n2 2 true
                        (mkSelf (inplanes s2) (dilation (after_linear s3))
                           (groups (after_linear s3)) (base_width (after_linear s3))
                           (rng (after_linear s3))) Hg3 Hw3)) by (simpl; lia).
      reflexivity.
  - intros -> ->.
    destruct H2r as (l2 & s2 & Hmk2); [lia | left; reflexivity |].
    rewrite Hmk2.
    apply make_layer_full in Hmk2
      as (? & ? & _ & _ & _ & _ & _ & _ & _ & _ & Hi2 & Hd2 & Hg2 & Hw2 & _).
    rewrite Hg1 in Hg2. rewrite Hw1 in Hw2. rewrite Hd1 in Hd2.
    destruct (init_branches_returns
                (fun s => groups s = 1 /\ base_width s = 64 /\ dilation s <= 1)
                BasicBlock (n0 :: n1 :: n2 :: rest) false classes (inplanes s2) n2
                (Z.to_nat nets) 0 ∅ s2) as (d & s3 & ->).
    + intros _. reflexivity.
    + intros s (Hg & Hw & Hd).
      destruct (make_layer_basic 64 n2 2 false
                  (mkSelf (inplanes s2) (dilation s) (groups s) (base_width s) (rng s))
                  Hg Hw) as (_ & _ & Hr).
      destruct Hr as (l & s' & Hmk); [exact Hd | left; reflexivity |].
      exists l, s'. split; [exact Hmk|].
      apply make_layer_full in Hmk
        as (? & ? & _ & _ & _ & _ & _ & _ & _ & _ & _ & Hd' & Hg' & Hw' & _).
      simpl in *. repeat split; congruence.
    + repeat split; (congruence || lia).
    + eexists. reflexivity.
Qed.

End ConstructionFacts.

(** ** More on the forward pass *)

Module FusionFacts.
Import Tensor Py Net TensorFacts NetFacts ForwardFacts ConstructionFacts.

#[local] Open Scope Z_scope.

(** The softmax of a single score is the weight 1. *)
Lemma softmax_singleton (e : R) : softmax [e] = [1%R].
Proof.
  unfold softmax, sum. simpl. f_equal. pose proof (exp_pos e). field. lra.
Qed.

(** A matrix of one-entry rows against the 1 x 1 matrix [[1]]. *)
Lemma rows_against_one (pm : mat) :
  Forall (fun row => length row = 1%nat) pm -> rows_against pm [[1%R]] = pm.
Proof.
  unfold rows_against. induction 1 as [|row pm Hrow _ IH]; [reflexivity|].
  simpl in IH |- *. rewrite IH. f_equal.
  destruct row as [|p [|? ?]]; try discriminate Hrow.
  unfold dot, sum. simpl. f_equal. lra.
Qed.

(** With a single stacked branch the fusion changes nothing. *)
Lemma fuse_single (p e : tensor3) (b c : nat) :
  has_shape3 p b c 1 -> has_shape3 e b 1 1 ->
  zip_with rows_against p (softmax_last e) = p.
Proof.
  intros [Hpl Hp] [Hel He]. revert e b Hpl Hel He.
  induction Hp as [|pm p Hpm _ IH]; intros e b Hpl Hel He; [reflexivity|].
  destruct e as [|em e]; [simpl in *; lia|].
  apply Forall_cons in He as [[Heml Hem] He].
  destruct em as [|erow [|? ?]]; try discriminate Heml.
  apply Forall_cons in Hem as [Herow _].
  destruct erow as [|x [|? ?]]; try discriminate Herow.
  simpl. rewrite softmax_singleton. f_equal.
  - apply rows_against_one. apply Hpm.
  - apply (IH e (length p)); [reflexivity | simpl in *; lia | exact He].
Qed.

(** A combination with positive weights lies between the bounds of what
    it combines, scaled by the sum of the weights. *)
Lemma dot_convex (p a : vec) (lo hi : R) :
  length p = length a ->
  Forall (fun x => (0 < x)%R) a ->
  Forall (fun x => (lo <= x <= hi)%R) p ->
  (lo * sum a <= dot p a <= hi * sum a)%R.
Proof.
  revert a. induction p as [|x p IH]; intros a Hlen Ha Hp.
  - destruct a; [|discriminate Hlen]. unfold dot, sum. simpl. lra.
  - destruct a as [|y a]; [discriminate Hlen|].
    apply Forall_cons in Ha as [Hy Ha]. apply Forall_cons in Hp as [Hx Hp].
    specialize (IH a ltac:(simpl in Hlen; lia) Ha Hp).
    change (dot (x :: p) (y :: a)) with (x * y + dot p a)%R.
    change (sum (y :: a)) with (y + sum a)%R. nra.
Qed.

(** Reading a slice along axis 1 entry by entry. *)
Lemma slice_axis1_lookup (t : tensor3) (i b : nat) (s : mat) (row : vec) :
  slice_axis1 t i = Some s -> s !! b = Some row ->
  exists m, t !! b = Some m /\ m !! i = Some row.
Proof.
  unfold slice_axis1. intros Hs Hrow. apply mapM_Some in Hs.
  destruct (Forall2_lookup_r _ _ _ _ _ Hs Hrow) as (m & Hm & Hi).
  exists m. auto.
Qed.

Section Construction.
Context {Sample : Type}.
Context (conv2d : Conv2d -> list Sample -> list Sample).
Context (batch_norm : BatchNorm2d -> list Sample -> list Sample).
Context (relu : list Sample -> list Sample).
Context (add : list Sample -> list Sample -> list Sample).
Context (avgpool_flatten : list Sample -> mat).
Context (weight : Linear -> mat).
Context (bias : Linear -> vec).

(** X22: a network without branches. With [number_net <= 0] the
    constructor's loop over the branches does not run and the network is
    returned without any [layer3_i] or [classifier_i]; its forward pass
    then raises [AttributeError] at [layer3_0], on any input. *)
Theorem forward_without_branches block layers nets classes grp wpg rswd rng0 self
    (input : list Sample) :
  ResNet_init block layers nets classes grp wpg rswd rng0 = inr self ->
  nets <= 0 ->
  attrs self = ∅ /\
  _forward conv2d batch_norm relu add avgpool_flatten weight bias self input
  = inl (AttributeError "layer3_0").
Proof.
  intros H Hn. destruct (ResNet_init_flags _ _ _ _ _ _ _ _ _ H) as (a & b & c & Hr).
  destruct (ResNet_init_structure _ _ _ _ _ _ _ _ _ a b c Hr H)
    as (_ & _ & _ & _ & _ & _ & _ & _ & _ & _ & _ & Hattrs & _).
  specialize (Hattrs Hn). split; [exact Hattrs|].
  unfold _forward, _forward_locals, stack_branches, tail, getattr_stage.
  rewrite Hattrs, lookup_empty. reflexivity.
Qed.

End Construction.

Section Fusion.
Context {Sample : Type}.
Context (conv2d : Conv2d -> list Sample -> list Sample).
Context (batch_norm : BatchNorm2d -> list Sample -> list Sample).
Context (relu : list Sample -> list Sample).
Context (add : list Sample -> list Sample -> list Sample).
Context (avgpool_flatten : list Sample -> mat).
Context (weight : Linear -> mat).
Context (bias : Linear -> vec).

Hypothesis conv2d_batch : forall c x, length (conv2d c x) = length x.
Hypothesis batch_norm_batch : forall n x, length (batch_norm n x) = length x.
Hypothesis relu_batch : forall x, length (relu x) = length x.
Hypothesis add_batch : forall x y, length y = length x -> length (add x y) = length x.
Hypothesis avgpool_batch : forall x, length (avgpool_flatten x) = length x.
Hypothesis weight_rows : forall l, length (weight l) = Z.to_nat (out_features l).
Hypothesis bias_length :
  forall l, has_bias l = true -> length (bias l) = Z.to_nat (out_features l).

Local Abbreviation tail_of := (tail conv2d batch_norm relu add avgpool_flatten).
Local Abbreviation lin := (Linear_forward weight bias).
Local Abbreviation trunk_of := (trunk conv2d batch_norm relu add).
Local Abbreviation locals_of :=
  (_forward_locals conv2d batch_norm relu add avgpool_flatten weight bias).
Local Abbreviation forward_of :=
  (_forward conv2d batch_norm relu add avgpool_flatten weight bias).

Local Abbreviation locals_ok :=
  (forward_locals_ok conv2d batch_norm relu add avgpool_flatten weight bias
     conv2d_batch batch_norm_batch relu_batch add_batch avgpool_batch
     weight_rows bias_length).

(** X23: the fused logits stay within the range of the logits they fuse.
    For every batch element [b], class [c] and stacked branch [i], entry
    [(b, c, i)] of [x_m] lies between any two bounds that hold for the
    entries [(b, c, j)] of [pro] over the stacked branches [j]. *)
Theorem fused_logits_within_range (self : ResNet) (input : list Sample) :
  well_formed self ->
  exists l,
    locals_of self input = inr l /\
    forward_of self input = inr (pro (l_stacks l), x_m l, temp_out l) /\
    forall (b c i : nat) (pm : mat) (prow : vec) (lo hi : R),
      pro (l_stacks l) !! b = Some pm -> pm !! c = Some prow ->
      (i < stacked_count self)%nat ->
      Forall (fun p => (lo <= p <= hi)%R) prow ->
      exists v, entry (x_m l) b c i = Some v /\ (lo <= v <= hi)%R.
Proof.
  intros Hwf.
  destruct (locals_ok self input Hwf)
    as (l & Hloc & Hfwd & _ & Hpro & _ & Hatt & Hxm & Heshape & Hashape & _).
  assert (Hkpos : (0 < stacked_count self)%nat) by (unfold stacked_count; lia).
  exists l. split; [exact Hloc|]. split; [exact Hfwd|].
  intros b c i pm prow lo hi Hpm Hprow Hi Hbounds.
  destruct Hpro as [Hpl Hp]. destruct Hashape as [Hal Ha].
  assert (Hb : (b < length (attention l))%nat).
  { rewrite Hal, <- Hpl. eapply lookup_lt_Some, Hpm. }
  destruct (lookup_lt_is_Some_2 _ _ Hb) as (am & Ham).
  rewrite Forall_lookup in Ha. destruct (Ha b am Ham) as [Haml Har].
  destruct (lookup_lt_is_Some_2 am i ltac:(lia)) as (arow & Harow).
  rewrite Forall_lookup in Har. specialize (Har i arow Harow).
  rewrite Forall_lookup in Hp. destruct (Hp b pm Hpm) as [_ Hpr].
  rewrite Forall_lookup in Hpr. specialize (Hpr c prow Hprow).
  assert (Hrows : Forall (Forall distribution) (attention l)).
  { rewrite Hatt. eapply softmax_last_rows; [exact Heshape | exact Hkpos]. }
  rewrite Forall_lookup in Hrows. specialize (Hrows b am Ham).
  rewrite Forall_lookup in Hrows. destruct (Hrows i arow Harow) as [Hsum Hposv].
  exists (dot prow arow). split.
  - rewrite Hxm. eapply zip_rows_against_entry; eassumption.
  - pose proof (dot_convex prow arow lo hi ltac:(lia) Hposv Hbounds) as Hc.
    rewrite Hsum, !Rmult_1_r in Hc. exact Hc.
Qed.

(** X24: with one or two branches the fusion is the identity. The stack
    then holds branch 0 only, the attention matrix is the 1 x 1 matrix
    [[1]] for every batch element, and the second returned value is the
    first: [x_m = pro], of shape batch x num_classes x 1. *)
Theorem fusion_identity_up_to_two_branches (self : ResNet) (input : list Sample) :
  well_formed self -> number_net self <= 2 ->
  exists l,
    locals_of self input = inr l /\
    forward_of self input = inr (pro (l_stacks l), x_m l, temp_out l) /\
    has_shape3 (pro (l_stacks l)) (length input) (Z.to_nat (num_classes self)) 1 /\
    Forall (fun m => m = [[1%R]]) (attention l) /\
    x_m l = pro (l_stacks l).
Proof.
  intros Hwf Hn.
  destruct (locals_ok self input Hwf)
    as (l & Hloc & Hfwd & _ & Hpro & _ & Hatt & Hxm & Heshape & _).
  assert (Hk : stacked_count self = 1%nat) by (unfold stacked_count; lia).
  rewrite Hk in Hpro, Heshape.
  exists l. split; [exact Hloc|]. split; [exact Hfwd|]. split; [exact Hpro|]. split.
  - rewrite Hatt. unfold softmax_last. apply Forall_fmap.
    destruct Heshape as [_ He]. eapply Forall_impl; [exact He|].
    intros m [Hml Hm]. simpl.
    destruct m as [|row [|? ?]]; try discriminate Hml.
    apply Forall_cons in Hm as [Hrow _].
    destruct row as [|x [|? ?]]; try discriminate Hrow.
    simpl. rewrite softmax_singleton. reflexivity.
  - rewrite Hxm, Hatt. eapply fuse_single; eassumption.
Qed.

(** X25: the energy is the table of query-key products, batch element by
    batch element: entry [(b, i, j)] is the dot product of row [b] of
    branch [i]'s query embedding and row [b] of branch [j]'s key
    embedding, the embeddings being the two shared projections of the
    branches' pooled features; and row [i] of the attention matrix is the
    softmax of row [i] of the energy. *)
Theorem energy_query_key_products (self : ResNet) (input : list Sample) :
  well_formed self ->
  exists l,
    locals_of self input = inr l /\
    (forall i j, (i < stacked_count self)%nat -> (j < stacked_count self)%nat ->
       exists feat_i feat_j,
         tail_of self (Z.of_nat i) (trunk_of self input) = inr feat_i /\
         tail_of self (Z.of_nat j) (trunk_of self input) = inr feat_j /\
         forall (b : nat) (qrow krow : vec),
           lin (query_weight self) feat_i !! b = Some qrow ->
           lin (key_weight self) feat_j !! b = Some krow ->
           entry (energy l) b i j = Some (dot qrow krow)) /\
    (forall (b i : nat) (em : mat) (erow : vec),
       energy l !! b = Some em -> em !! i = Some erow ->
       exists am, attention l !! b = Some am /\ am !! i = Some (softmax erow)).
Proof.
  intros Hwf.
  destruct (locals_ok self input Hwf)
    as (l & Hloc & _ & Hst & _ & Hen & Hatt & _).
  destruct Hst as (_ & _ & _ & Hslices).
  exists l. split; [exact Hloc|]. split.
  - intros i j Hi Hj.
    destruct (Hslices i Hi) as (fi & _ & Hfi & _ & _ & Hqi & _).
    destruct (Hslices j Hj) as (fj & _ & Hfj & _ & _ & _ & Hkj).
    exists fi, fj. split; [exact Hfi|]. split; [exact Hfj|].
    intros b qrow krow Hq Hk.
    destruct (slice_axis1_lookup _ _ _ _ _ Hqi Hq) as (qm & Hqm & Hqr).
    destruct (slice_axis1_lookup _ _ _ _ _ Hkj Hk) as (km & Hkm & Hkr).
    rewrite Hen. eapply zip_rows_against_entry; eassumption.
  - intros b i em erow Hem Herow. exists (map softmax em). split.
    + rewrite Hatt. unfold softmax_last. rewrite list_lookup_fmap, Hem. reflexivity.
    + rewrite list_lookup_fmap, Herow. reflexivity.
Qed.

End Fusion.

End FusionFacts.

(** ** Built networks and their forward passes *)

Module ConstructionExamples.
Import Tensor Py Net TensorFacts NetFacts ForwardFacts ForwardExamples.
Import ConstructionFacts FusionFacts.

#[local] Open Scope Z_scope.

Local Notation "'on_toy' thm" :=
  (thm toy_conv2d toy_batch_norm toy_relu toy_add toy_pool toy_weight toy_bias
     toy_conv2d_batch toy_batch_norm_batch toy_relu_batch toy_add_batch
     toy_pool_batch toy_weight_rows toy_bias_length)
  (at level 10, thm at level 9, only parsing).

(** The third stage of a branch of [okddip_resnet110], with its stride
    replaced by dilation. *)
Lemma make_layer_shapes_agree_witness :
  exists layer s',
    _make_layer Bottleneck 64 12 2 true (mkSelf 128 1 1 64 0) = inr (layer, s') /\
    stage_chain Bottleneck 128 64 12 layer /\
    inplanes s' = 256.
Proof.
  destruct (make_layer_bottleneck_returns 64 12 2 true (mkSelf 128 1 1 64 0))
    as (layer & s' & Hmk).
  exists layer, s'. split; [exact Hmk|].
  destruct (make_layer_shapes_agree Bottleneck 64 12 2 true (mkSelf 128 1 1 64 0)
              layer s' Hmk) as (Hchain & Hin & _).
  split; [exact Hchain | exact Hin].
Defined.

Lemma make_layer_stride_or_dilation_witness :
  exists layer s',
    _make_layer Bottleneck 64 12 2 true (mkSelf 128 1 1 64 0) = inr (layer, s') /\
    dilation s' = 2 /\
    stage_dilation Bottleneck 1 1 (dilation s') layer.
Proof.
  destruct (make_layer_bottleneck_returns 64 12 2 true (mkSelf 128 1 1 64 0))
    as (layer & s' & Hmk).
  exists layer, s'. split; [exact Hmk|].
  exact (make_layer_stride_or_dilation Bottleneck 64 12 2 true (mkSelf 128 1 1 64 0)
           layer s' Hmk).
Defined.

Lemma make_layer_basic_dilation_witness :
  _make_layer BasicBlock 32 5 2 true (mkSelf 16 1 1 64 0) = inl dilation_error /\
  exists layer s',
    _make_layer BasicBlock 32 1 2 true (mkSelf 16 1 1 64 0) = inr (layer, s') /\
    dilation s' = 2.
Proof.
  split.
  - destruct (make_layer_basic_dilation 32 5 2 true (mkSelf 16 1 1 64 0) eq_refl eq_refl)
      as (_ & H & _).
    apply H; simpl; (reflexivity || lia).
  - destruct (make_layer_basic_dilation 32 1 2 true (mkSelf 16 1 1 64 0) eq_refl eq_refl)
      as (_ & _ & H).
    apply H; simpl; [lia | right; right; lia].
Defined.

Lemma ResNet_init_channels_witness :
  exists self,
    okddip_resnet32 4 100 1 64 None 0%nat = inr self /\
    stage_chain BasicBlock 16 16 5 (layer1 self) /\
    stage_chain BasicBlock 16 32 5 (layer2 self) /\
    in_features (query_weight self) = 64 /\ out_features (query_weight self) = 8.
Proof.
  destruct default_network_builds as (self & Hself & _).
  exists self. split; [exact Hself|].
  rewrite okddip_resnet32_unfold in Hself.
  destruct (ResNet_init_channels BasicBlock [5; 5; 5] 4 100 1 64 None 0%nat self Hself)
    as (n0 & n1 & H0 & H1 & _ & _ & _ & _ & Hl1 & Hl2 & _ & Hq1 & Hq2 & _).
  injection H0 as <-. injection H1 as <-.
  split; [exact Hl1|]. split; [exact Hl2|]. split; [exact Hq1 | exact Hq2].
Defined.

(** [okddip_resnet110] with the last stride replaced by dilation, and
    three branches. *)
Lemma dilated_network_builds :
  exists self,
    ResNet_init Bottleneck [12; 12; 12] 3 100 1 64 (Some [false; false; true]) 0%nat
    = inr self.
Proof. vm_compute. eexists. reflexivity. Qed.

Lemma branch_dilation_accumulates_witness :
  exists self l,
    ResNet_init Bottleneck [12; 12; 12] 3 100 1 64 (Some [false; false; true]) 0%nat
    = inr self /\
    attrs self !! layer3_name 2 = Some (MSequential l) /\
    stage_dilation Bottleneck 1 (1 * 2 ^ 2) (1 * 2 ^ (2 + 1)) l.
Proof.
  destruct dilated_network_builds as (self & Hself).
  destruct (branch_dilation_accumulates Bottleneck [12; 12; 12] 3 100 1 64
              false false true 0%nat self Hself) as (_ & _ & _ & Hbr).
  destruct (Hbr 2 ltac:(lia)) as (l & Hl & Hd).
  exists self, l. split; [exact Hself|]. split; [exact Hl | exact Hd].
Defined.

Lemma bottleneck_network_builds_witness :
  (exists self,
     ResNet_init Bottleneck [12; 12; 12] 4 100 2 64 (Some [false; true; true]) 0%nat
     = inr self) /\
  ResNet_init Bottleneck [12; 12] 4 100 2 64 (Some [false; true; true]) 0%nat
  = inl IndexError.
Proof.
  split.
  - destruct (bottleneck_network_builds [12; 12; 12] 4 100 2 64 (Some [false; true; true])
                0%nat eq_refl) as (H & _); try lia.
    apply H. left. simpl. lia.
  - destruct (bottleneck_network_builds [12; 12] 4 100 2 64 (Some [false; true; true])
                0%nat eq_refl) as (_ & H); try lia.
    apply H. right. simpl. lia.
Defined.

Lemma basic_network_dilation_witness :
  ResNet_init BasicBlock [5; 5; 5] 4 100 1 64 (Some [false; true; false]) 0%nat
  = inl dilation_error /\
  ResNet_init BasicBlock [5; 5; 5] 4 100 1 64 (Some [false; false; true]) 0%nat
  = inl dilation_error /\
  exists self,
    ResNet_init BasicBlock [5; 5; 5] 4 100 1 64 (Some [true; false; false]) 0%nat
    = inr self.
Proof.
  split; [|split].
  - destruct (basic_network_dilation 5 5 5 [] 4 100 false true false 0%nat) as (H & _ & _);
      [lia|]. apply H; [reflexivity | left; lia].
  - destruct (basic_network_dilation 5 5 5 [] 4 100 false false true 0%nat) as (_ & H & _);
      [lia|]. apply H; [reflexivity | reflexivity | left; lia].
  - destruct (basic_network_dilation 5 5 5 [] 4 100 true false false 0%nat) as (_ & _ & H);
      [lia|]. apply H; reflexivity.
Defined.

(** [okddip_resnet32(number_net=0)]. *)
Lemma empty_network_builds :
  exists self, ResNet_init BasicBlock [5; 5; 5] 0 100 1 64 None 0%nat = inr self.
Proof. vm_compute. eexists. reflexivity. Qed.

Lemma forward_without_branches_witness :
  exists self,
    ResNet_init BasicBlock [5; 5; 5] 0 100 1 64 None 0%nat = inr self /\
    attrs self = ∅ /\
    toy_forward self [1%R] = inl (AttributeError "layer3_0").
Proof.
  destruct empty_network_builds as (self & Hself).
  exists self. split; [exact Hself|].
  apply (forward_without_branches toy_conv2d toy_batch_norm toy_relu toy_add toy_pool
           toy_weight toy_bias BasicBlock [5; 5; 5] 0 100 1 64 None 0%nat self [1%R] Hself).
  lia.
Defined.

Lemma fused_logits_within_range_witness :
  exists self l,
    okddip_resnet32 4 100 1 64 None 0%nat = inr self /\
    toy_locals self [1%R; 2%R] = inr l /\
    forall (b c i : nat) (pm : mat) (prow : vec) (lo hi : R),
      pro (l_stacks l) !! b = Some pm -> pm !! c = Some prow ->
      (i < 3)%nat ->
      Forall (fun p => (lo <= p <= hi)%R) prow ->
      exists v, entry (x_m l) b c i = Some v /\ (lo <= v <= hi)%R.
Proof.
  destruct default_network_builds as (self & Hself & Hwf & Hn & Hc).
  destruct ((on_toy fused_logits_within_range) self [1%R; 2%R] Hwf)
    as (l & Hloc & _ & Hrange).
  assert (Hk : stacked_count self = 3%nat)
    by (unfold stacked_count; rewrite Hn; reflexivity).
  rewrite Hk in Hrange.
  exists self, l. split; [exact Hself|]. split; [exact Hloc | exact Hrange].
Defined.

(** [okddip_resnet32(number_net=2)]. *)
Lemma two_branch_network_builds :
  exists self,
    ResNet_init BasicBlock [5; 5; 5] 2 100 1 64 None 0%nat = inr self /\
    well_formed self /\ number_net self = 2.
Proof.
  assert (Hex : exists self,
             ResNet_init BasicBlock [5; 5; 5] 2 100 1 64 None 0%nat = inr self).
  { vm_compute. eexists. reflexivity. }
  destruct Hex as (self & H). exists self. split; [exact H|].
  split; [eapply ResNet_init_well_formed; [exact H | lia]|].
  apply (ResNet_init_fields _ _ _ _ _ _ _ _ _ H).
Qed.

Lemma fusion_identity_up_to_two_branches_witness :
  exists self l,
    ResNet_init BasicBlock [5; 5; 5] 2 100 1 64 None 0%nat = inr self /\
    toy_locals self [1%R; 2%R] = inr l /\
    x_m l = pro (l_stacks l).
Proof.
  destruct two_branch_network_builds as (self & Hself & Hwf & Hn).
  destruct ((on_toy fusion_identity_up_to_two_branches) self [1%R; 2%R] Hwf
              ltac:(rewrite Hn; lia)) as (l & Hloc & _ & _ & _ & Hid).
  exists self, l. split; [exact Hself|]. split; [exact Hloc | exact Hid].
Defined.

Lemma energy_query_key_products_witness :
  exists self l,
    okddip_resnet32 4 100 1 64 None 0%nat = inr self /\
    toy_locals self [1%R; 2%R] = inr l /\
    forall (b i : nat) (em : mat) (erow : vec),
      energy l !! b = Some em -> em !! i = Some erow ->
      exists am, attention l !! b = Some am /\ am !! i = Some (softmax erow).
Proof.
  destruct default_network_builds as (self & Hself & Hwf & Hn & Hc).
  destruct ((on_toy energy_query_key_products) self [1%R; 2%R] Hwf)
    as (l & Hloc & _ & Hsoft).
  exists self, l. split; [exact Hself|]. split; [exact Hloc | exact Hsoft].
Defined.

End ConstructionExamples.
